(** * MiniHack base environment: observation windowing, description lookup,
      direction search, inventory lookup and episode control.

    Shallow embedding of [nle/minihack/base.py] (class [MiniHack]).
    NumPy arrays are lists (a 2-D array is a list of rows, a description
    field is a 2-D array of byte buffers), Python integers are [Z], raised
    exceptions are the [Raise] branch of [result]. *)

From Stdlib Require Import ZArith Lia Ascii String.
From Stdlib.Strings Require Import Byte.
From stdpp Require Import base list gmap strings.

Open Scope Z_scope.

(** ** Exceptions and the error monad *)

Inductive exn : Type :=
  | IndexError
  | ValueError
  | KeyError
  | AssertionError
  | AttributeError
  | UnicodeDecodeError
  | OverflowError.

Inductive result (A : Type) : Type :=
  | Ok (a : A)
  | Raise (e : exn).

Arguments Ok {A} a.
Arguments Raise {A} e.

Definition bind {A B : Type} (r : result A) (k : A -> result B) : result B :=
  match r with
  | Ok a => k a
  | Raise e => Raise e
  end.

Notation "x <- r ;; k" := (bind r (fun x => k))
  (at level 100, r at next level, right associativity).

(** A Python [assert]. *)
Definition py_assert (b : bool) : result unit :=
  if b then Ok tt else Raise AssertionError.

(** A list comprehension whose element expression may raise: elements are
    evaluated left to right and the first exception aborts the whole. *)
Fixpoint comprehension {A B : Type} (f : A -> result B) (l : list A)
  : result (list B) :=
  match l with
  | [] => Ok []
  | a :: l' => b <- f a ;; bs <- comprehension f l' ;; Ok (b :: bs)
  end.

(** [key in keys] on a list of strings. *)
Definition key_in (key : string) (keys : list string) : bool :=
  existsb (String.eqb key) keys.

(** [keys.index(key)] *)
Fixpoint list_index (key : string) (keys : list string) : result Z :=
  match keys with
  | [] => Raise ValueError
  | k :: keys' =>
      if String.eqb key k then Ok 0
      else i <- list_index key keys' ;; Ok (i + 1)
  end.

(** Python's [range(lo, hi)]. *)
Definition range (lo hi : Z) : list Z :=
  map (fun k => lo + Z.of_nat k) (seq 0 (Z.to_nat (hi - lo))).

(** The value of a 64-bit signed NumPy integer after an operation whose
    exact result is [z]: it wraps around. *)
Definition wrap64 (z : Z) : Z := (z + 2 ^ 63) mod 2 ^ 64 - 2 ^ 63.

(** The values a 64-bit signed integer holds. *)
Definition int64 (z : Z) : Prop := - 2 ^ 63 <= z < 2 ^ 63.

(** ** The fragment of NumPy that [base.py] uses *)

Module np.

(** A slice bound adjusted to a sequence of length [len]: a negative bound
    counts from the end, and both are clipped to [0, len]. *)
Definition slice_bound (len i : Z) : Z :=
  if i <? 0 then Z.max (i + len) 0 else Z.min i len.

(** [l[lo:hi]] *)
Definition slice {A : Type} (lo hi : Z) (l : list A) : list A :=
  let n := Z.of_nat (length l) in
  let a := slice_bound n lo in
  let b := slice_bound n hi in
  take (Z.to_nat (b - a)) (drop (Z.to_nat a) l).

(** [arr[lo1:hi1, lo2:hi2]] on a 2-D array. *)
Definition slice2 {A : Type} (lo1 hi1 lo2 hi2 : Z) (arr : list (list A))
  : list (list A) :=
  map (slice lo2 hi2) (slice lo1 hi1 arr).

(** Number of columns of a 2-D array given as its rows. *)
Definition ncols {A : Type} (arr : list (list A)) : nat :=
  match arr with
  | [] => 0%nat
  | row :: _ => length row
  end.

(** [np.pad(arr, pad_width=(before, after), mode="constant",
    constant_values=c)] on a 2-D array.  A pair of integers as
    [pad_width] is NumPy's [(before, after)] form: the same two widths
    are used on every axis.  A negative width is refused. *)
Definition pad {A : Type} (arr : list (list A)) (before after : Z) (c : A)
  : result (list (list A)) :=
  if (before <? 0) || (after <? 0) then Raise ValueError
  else
    let b := Z.to_nat before in
    let a := Z.to_nat after in
    let blank := replicate (b + ncols arr + a) c in
    Ok (replicate b blank
          ++ map (fun row => replicate b c ++ row ++ replicate a c) arr
          ++ replicate a blank).

(** A Python integer used as an index is first converted to the C integer
    NumPy indexes with.  One that fits 64 signed bits is taken as it is;
    one in [2^63, 2^64) becomes an unsigned scalar whose conversion is an
    [OverflowError]; any other is no valid index, an [IndexError]. *)
Definition intp (i : Z) : result Z :=
  if (- 2 ^ 63 <=? i) && (i <? 2 ^ 63) then Ok i
  else if (2 ^ 63 <=? i) && (i <? 2 ^ 64) then Raise OverflowError
  else Raise IndexError.

(** A converted index into an axis of length [n]: negative indices count
    from the end; anything outside [-n, n) is an [IndexError]. *)
Definition index (n : nat) (i : Z) : result nat :=
  if (0 <=? i) && (i <? Z.of_nat n) then Ok (Z.to_nat i)
  else if (- Z.of_nat n <=? i) && (i <? 0) then Ok (Z.to_nat (i + Z.of_nat n))
  else Raise IndexError.

(** The item of [l] at a converted index [i]. *)
Definition item {A : Type} (l : list A) (i : Z) : result A :=
  k <- index (length l) i ;;
  match l !! k with
  | Some a => Ok a
  | None => Raise IndexError
  end.

(** [l[i]] for an integer [i]. *)
Definition getitem {A : Type} (l : list A) (i : Z) : result A :=
  i <- intp i ;; item l i.

(** [arr[y, x]]: both indices are converted, the first one first, and then
    both axes are indexed, the first axis first. *)
Definition getitem2 {A : Type} (arr : list (list A)) (y x : Z) : result A :=
  y <- intp y ;; x <- intp x ;; row <- item arr y ;; item row x.

(** [np.where(mask)[0]] for a 1-D boolean array: the indices of the true
    entries, in increasing order, counted from [start]. *)
Fixpoint where_from (start : Z) (mask : list bool) : list Z :=
  match mask with
  | [] => []
  | b :: mask' =>
      if b then start :: where_from (start + 1) mask'
      else where_from (start + 1) mask'
  end.

Definition where1 (mask : list bool) : list Z := where_from 0 mask.

(** [np.all(mask)] *)
Definition all (mask : list bool) : bool := forallb id mask.

End np.

(** A 2-D array of [rows] rows and [cols] columns. *)
Definition shape2 {A : Type} (rows cols : nat) (arr : list (list A)) : Prop :=
  length arr = rows /\ Forall (fun row => length row = cols) arr.

(** The cell of a 2-D array at row [i], column [j], when there is one. *)
Definition cell {A : Type} (arr : list (list A)) (i j : nat) : option A :=
  match arr !! i with
  | Some row => row !! j
  | None => None
  end.

(** The array that [np.pad] builds when both widths are accepted. *)
Definition padded {A : Type} (arr : list (list A)) (b a : nat) (c : A)
  : list (list A) :=
  replicate b (replicate (b + np.ncols arr + a) c)
    ++ map (fun row => replicate b c ++ row ++ replicate a c) arr
    ++ replicate a (replicate (b + np.ncols arr + a) c).

(** The value a window shows for field coordinates (row [r], column [c]):
    the field's own value inside the field, the pad value outside. *)
Definition field_or_pad (obs : list (list Z)) (pad : Z) (r c : Z) : Z :=
  if (0 <=? r) && (0 <=? c)
  then default pad (cell obs (Z.to_nat r) (Z.to_nat c))
  else pad.

(** ** Text *)

(** A Python [str]: its code points. *)
Abbreviation str := (list Z).

(** [ord(c)] for an ASCII character. *)
Definition ord (c : ascii) : Z := Z.of_N (N_of_ascii c).

(** A [str] literal of ASCII characters. *)
Definition str_of (s : string) : str := map ord (list_ascii_of_string s).

(** The value of a [uint8] array element. *)
Definition byte_val (b : byte) : Z := Z.of_N (Byte.to_N b).

(** A NUL-padded buffer of capacity [cap] holding an ASCII text. *)
Definition buffer_of (cap : nat) (s : string) : list byte :=
  let bs := list_byte_of_string s in
  bs ++ replicate (cap - length bs) x00.

(** [des_arr == 0] *)
Definition eq_zero (arr : list byte) : list bool :=
  map (fun b => Byte.eqb b x00) arr.

(** A UTF-8 continuation byte. *)
Definition is_cont (b : byte) : bool :=
  (128 <=? byte_val b) && (byte_val b <=? 191).

Definition in_range (lo hi : Z) (b : byte) : bool :=
  (lo <=? byte_val b) && (byte_val b <=? hi).

(** [bytes.decode("utf-8")] with the default strict error handler:
    well-formed UTF-8 only (no overlong forms, no surrogates, nothing
    above U+10FFFF). *)
Fixpoint decode (bs : list byte) : result str :=
  match bs with
  | [] => Ok []
  | b0 :: t0 =>
      let n0 := byte_val b0 in
      if n0 <? 128 then
        s <- decode t0 ;; Ok (n0 :: s)
      else if in_range 194 223 b0 then
        match t0 with
        | b1 :: t1 =>
            if is_cont b1 then
              s <- decode t1 ;;
              Ok (((n0 - 192) * 64 + (byte_val b1 - 128)) :: s)
            else Raise UnicodeDecodeError
        | _ => Raise UnicodeDecodeError
        end
      else if in_range 224 239 b0 then
        match t0 with
        | b1 :: b2 :: t2 =>
            if (if n0 =? 224 then in_range 160 191 b1
                else if n0 =? 237 then in_range 128 159 b1
                else is_cont b1) && is_cont b2 then
              s <- decode t2 ;;
              Ok (((n0 - 224) * 4096 + (byte_val b1 - 128) * 64
                   + (byte_val b2 - 128)) :: s)
            else Raise UnicodeDecodeError
        | _ => Raise UnicodeDecodeError
        end
      else if in_range 240 244 b0 then
        match t0 with
        | b1 :: b2 :: b3 :: t3 =>
            if (if n0 =? 240 then in_range 144 191 b1
                else if n0 =? 244 then in_range 128 143 b1
                else is_cont b1) && is_cont b2 && is_cont b3 then
              s <- decode t3 ;;
              Ok (((n0 - 240) * 262144 + (byte_val b1 - 128) * 4096
                   + (byte_val b2 - 128) * 64 + (byte_val b3 - 128)) :: s)
            else Raise UnicodeDecodeError
        | _ => Raise UnicodeDecodeError
        end
      else Raise UnicodeDecodeError
  end.

(** [s.startswith(p)] *)
Fixpoint is_prefix (p s : str) : bool :=
  match p, s with
  | [], _ => true
  | _ :: _, [] => false
  | a :: p', b :: s' => (a =? b) && is_prefix p' s'
  end.

(** [name in text] on two [str]: substring test. *)
Fixpoint contains (name text : str) : bool :=
  is_prefix name text
  || match text with
     | [] => false
     | _ :: text' => contains name text'
     end.

(** ** Data model *)

(** The observation tuple the game engine produces, by component. *)
Record Observation : Type := {
  blstats : list Z;
  screen_descriptions : list (list (list byte));
  message : list byte;
  inv_strs : list (list byte);
  inv_letters : list byte;
}.

(** [StepStatus] of the parent task, as [base.py] names its members. *)
Inductive StepStatus : Type :=
  | ABORTED
  | RUNNING
  | DEATH
  | TASK_SUCCESSFUL.

(** Calls made to the collaborators of the environment, in order. *)
Inductive Event : Type :=
  | ManagerReset
  | ManagerCheck
  | ManagerCollect
  | ParentInit
  | PatchNhdat
  | ParentReset
  | EngineStep (action : Z).

(** The attributes of a [MiniHack] object that [base.py] reads or writes.
    [RM] is the state of the reward manager, [E] the state of the game
    engine behind the parent class.  [last_observation] is [None] for the
    empty tuple it holds before the first reset; [_previous] is [None]
    until [step] has assigned [_previous_obs] and [_previous_action];
    [trace] records the calls made so far (oldest first). *)
Record MiniHack (RM E : Type) : Type := {
  reward_manager : option RM;
  obs_crop_h : Z;
  obs_crop_w : Z;
  obs_crop_pad : Z;
  reward_win : Z;
  reward_lose : Z;
  last_observation : option Observation;
  _previous : option (option Observation * Z);
  engine : E;
  trace : list Event;
}.

Arguments reward_manager {RM E} _.
Arguments obs_crop_h {RM E} _.
Arguments obs_crop_w {RM E} _.
Arguments obs_crop_pad {RM E} _.
Arguments reward_win {RM E} _.
Arguments reward_lose {RM E} _.
Arguments last_observation {RM E} _.
Arguments _previous {RM E} _.
Arguments engine {RM E} _.
Arguments trace {RM E} _.

(** The reward manager, as [base.py] calls it. *)
Class RewardManager (RM E : Type) : Type := {
  rm_reset : RM -> RM;
  check_episode_end_call :
    RM -> MiniHack RM E -> option Observation -> Z -> Observation -> bool * RM;
  collect_reward : RM -> Z * RM;
}.

(** The parent class [NetHackStaircase], as [base.py] calls it.  The
    constructor of [MiniHack] pops [observation_keys] from the keyword
    arguments before it calls the parent's, so [_observation_keys] is the
    parent's own choice. *)
Class NetHackStaircase (E : Type) : Type := {
  _observation_keys : list string;
  parent_init : E;
  patch_nhdat : string -> E -> E;
  parent_reset : E -> E * Observation;
  engine_step : E -> Z -> E * Observation;
  parent_is_episode_end : Observation -> StepStatus;
  _get_time_penalty : option Observation -> Observation -> Z;
}.

(** Keyword arguments of the constructor, with their defaults. *)
Record InitArgs (RM : Type) : Type := {
  des_file : string;
  arg_reward_win : Z;
  arg_reward_lose : Z;
  arg_obs_crop_h : Z;
  arg_obs_crop_w : Z;
  arg_obs_crop_pad : Z;
  arg_reward_manager : option RM;
}.

Arguments des_file {RM} _.
Arguments arg_reward_win {RM} _.
Arguments arg_reward_lose {RM} _.
Arguments arg_obs_crop_h {RM} _.
Arguments arg_obs_crop_w {RM} _.
Arguments arg_obs_crop_pad {RM} _.
Arguments arg_reward_manager {RM} _.

Definition default_args {RM : Type} (des : string) : InitArgs RM :=
  {| des_file := des;
     arg_reward_win := 1;
     arg_reward_lose := 0;
     arg_obs_crop_h := 5;
     arg_obs_crop_w := 5;
     arg_obs_crop_pad := 0;
     arg_reward_manager := None |}.

(** ** The methods of [MiniHack] *)

Section Methods.
Context {RM E : Type}.
Context `{!RewardManager RM E} `{!NetHackStaircase E}.

Local Abbreviation Env := (MiniHack RM E).

(** Attribute updates. *)
Definition set_manager (m : option RM) (self : Env) : Env :=
  {| reward_manager := m;
     obs_crop_h := obs_crop_h self;
     obs_crop_w := obs_crop_w self;
     obs_crop_pad := obs_crop_pad self;
     reward_win := reward_win self;
     reward_lose := reward_lose self;
     last_observation := last_observation self;
     _previous := _previous self;
     engine := engine self;
     trace := trace self |}.

Definition set_last_observation (o : option Observation) (self : Env) : Env :=
  {| reward_manager := reward_manager self;
     obs_crop_h := obs_crop_h self;
     obs_crop_w := obs_crop_w self;
     obs_crop_pad := obs_crop_pad self;
     reward_win := reward_win self;
     reward_lose := reward_lose self;
     last_observation := o;
     _previous := _previous self;
     engine := engine self;
     trace := trace self |}.

Definition set_previous (p : option (option Observation * Z)) (self : Env)
  : Env :=
  {| reward_manager := reward_manager self;
     obs_crop_h := obs_crop_h self;
     obs_crop_w := obs_crop_w self;
     obs_crop_pad := obs_crop_pad self;
     reward_win := reward_win self;
     reward_lose := reward_lose self;
     last_observation := last_observation self;
     _previous := p;
     engine := engine self;
     trace := trace self |}.

Definition set_engine (e : E) (self : Env) : Env :=
  {| reward_manager := reward_manager self;
     obs_crop_h := obs_crop_h self;
     obs_crop_w := obs_crop_w self;
     obs_crop_pad := obs_crop_pad self;
     reward_win := reward_win self;
     reward_lose := reward_lose self;
     last_observation := last_observation self;
     _previous := _previous self;
     engine := e;
     trace := trace self |}.

Definition log (ev : Event) (self : Env) : Env :=
  {| reward_manager := reward_manager self;
     obs_crop_h := obs_crop_h self;
     obs_crop_w := obs_crop_w self;
     obs_crop_pad := obs_crop_pad self;
     reward_win := reward_win self;
     reward_lose := reward_lose self;
     last_observation := last_observation self;
     _previous := _previous self;
     engine := engine self;
     trace := trace self ++ [ev] |}.

(** [if self.reward_manager is not None: self.reward_manager.reset()] *)
Definition reset_manager (self : Env) : Env :=
  match reward_manager self with
  | Some m => log ManagerReset (set_manager (Some (rm_reset m)) self)
  | None => self
  end.

(** [MiniHack.__init__].  The keyword defaults handed to the parent and
    the observation-key bookkeeping are left out; the parent constructor
    and the level patching are calls to the collaborators. *)
Definition __init__ (args : InitArgs RM) : result Env :=
  let self :=
    {| reward_manager := arg_reward_manager args;
       obs_crop_h := 0;
       obs_crop_w := 0;
       obs_crop_pad := 0;
       reward_win := 0;
       reward_lose := 0;
       last_observation := None;
       _previous := None;
       engine := parent_init;
       trace := [] |} in
  let self := reset_manager self in
  (* the parent constructor *)
  let self := log ParentInit self in
  (* self.update(des_file) *)
  let self := log PatchNhdat
                (set_engine (patch_nhdat (des_file args) (engine self)) self) in
  _ <- py_assert (arg_obs_crop_h args mod 2 =? 1) ;;
  _ <- py_assert (arg_obs_crop_w args mod 2 =? 1) ;;
  _scr_descr_index <- list_index "screen_descriptions" _observation_keys ;;
  Ok {| reward_manager := reward_manager self;
        obs_crop_h := arg_obs_crop_h args;
        obs_crop_w := arg_obs_crop_w args;
        obs_crop_pad := arg_obs_crop_pad args;
        reward_win := arg_reward_win args;
        reward_lose := arg_reward_lose args;
        last_observation := last_observation self;
        _previous := _previous self;
        engine := engine self;
        trace := trace self |}.

(** [MiniHack.reset]; the parent's reset asks the engine for a fresh
    episode and keeps its first observation. *)
Definition reset (self : Env) : Env * Observation :=
  let self := reset_manager self in
  (* the parent reset, whose value is returned *)
  let '(e, observation) := parent_reset (engine self) in
  (log ParentReset
     (set_last_observation (Some observation) (set_engine e self)),
   observation).

(** [MiniHack._reward_fn] *)
Definition _reward_fn (self : Env) (last_obs : option Observation)
    (observation : Observation) (end_status : StepStatus) : Z * Env :=
  let '(reward, self) :=
    match reward_manager self with
    | Some m =>
        let '(r, m') := collect_reward m in
        (r, log ManagerCollect (set_manager (Some m') self))
    | None =>
        (match end_status with
         | TASK_SUCCESSFUL => reward_win self
         | RUNNING => 0
         | _ => reward_lose self
         end, self)
    end in
  (reward + _get_time_penalty last_obs observation, self).

(** [MiniHack._is_episode_end] *)
Definition _is_episode_end (self : Env) (observation : Observation)
  : result (StepStatus * Env) :=
  match reward_manager self with
  | Some m =>
      match _previous self with
      | Some (previous_obs, previous_action) =>
          let '(result, m') :=
            check_episode_end_call m self previous_obs previous_action
              observation in
          let self := log ManagerCheck (set_manager (Some m') self) in
          if result then Ok (TASK_SUCCESSFUL, self)
          else
            (* Revert to staircase check *)
            Ok (parent_is_episode_end observation, self)
      | None => Raise AttributeError
      end
  | None => Ok (parent_is_episode_end observation, self)
  end.

(** The parent's [step], as far as [base.py] documents it: the engine
    advances, then [_is_episode_end] is called and then [_reward_fn]. *)
Definition parent_step (self : Env) (action : Z)
  : result (Observation * Z * StepStatus * Env) :=
  let last_obs := last_observation self in
  let '(e, observation) := engine_step (engine self) action in
  let self := log (EngineStep action)
                (set_last_observation (Some observation) (set_engine e self)) in
  r <- _is_episode_end self observation ;;
  let '(end_status, self) := r in
  let '(reward, self) := _reward_fn self last_obs observation end_status in
  Ok (observation, reward, end_status, self).

(** [MiniHack.step] *)
Definition step (self : Env) (action : Z)
  : result (Observation * Z * StepStatus * Env) :=
  let self := set_previous (Some (last_observation self, action)) self in
  parent_step self action.

(** [MiniHack._crop_observation] *)
Definition _crop_observation (self : Env) (obs : list (list Z))
    (loc : Z * Z) : result (list (list Z)) :=
  let dh := obs_crop_h self / 2 in
  let dw := obs_crop_w self / 2 in
  let '(x, y) := loc in
  let x := x + dw in
  let y := y + dh in
  obs <- np.pad obs dw dh (obs_crop_pad self) ;;
  Ok (np.slice2 (y - dh) (y + dh + 1) (x - dw) (x + dw + 1) obs).

(** [observation = self.last_observation if observation is None]; the
    empty tuple held before the first reset has no component to index. *)
Definition resolve (self : Env) (observation : option Observation)
  : result Observation :=
  match observation with
  | Some o => Ok o
  | None =>
      match last_observation self with
      | Some o => Ok o
      | None => Raise IndexError
      end
  end.

(** The loop of [key_in_inventory] over [zip(inv_letters, inv_strs)]. *)
Fixpoint scan_inventory (name : str) (pairs : list (byte * list byte))
  : result (option str) :=
  match pairs with
  | [] => Ok None
  | (letter, line) :: pairs' =>
      if np.all (eq_zero line) then Ok None
      else
        text <- decode line ;;
        if contains name text then
          key <- decode [letter] ;; Ok (Some key)
        else scan_inventory name pairs'
  end.

(** [MiniHack.key_in_inventory] *)
Definition key_in_inventory (self : Env) (name : str)
  : result (option str) :=
  _ <- py_assert (key_in "inv_strs" _observation_keys) ;;
  _ <- py_assert (key_in "inv_letters" _observation_keys) ;;
  last_observation <- resolve self None ;;
  scan_inventory name
    (zip (inv_letters last_observation) (inv_strs last_observation)).

(** The literal [index_to_dir_dict] of [index_to_dir_action]. *)
Definition index_to_dir_dict : list (Z * option Z) :=
  [ (0, Some (ord "y"));
    (1, Some (ord "k"));
    (2, Some (ord "u"));
    (3, Some (ord "h"));
    (4, None);
    (5, Some (ord "l"));
    (6, Some (ord "b"));
    (7, Some (ord "j"));
    (8, Some (ord "n")) ].

(** [d[k]] on a dict literal given as its key-value pairs. *)
Fixpoint dict_get {V : Type} (d : list (Z * V)) (k : Z) : result V :=
  match d with
  | [] => Raise KeyError
  | (k', v) :: d' => if k =? k' then Ok v else dict_get d' k
  end.

(** [MiniHack.index_to_dir_action] *)
Definition index_to_dir_action (index : Z) : result (option Z) :=
  _ <- py_assert ((0 <=? index) && (index <? 9)) ;;
  dict_get index_to_dir_dict index.

(** [MiniHack.get_screen_description] *)
Definition get_screen_description (self : Env) (x y : Z)
    (observation : option Observation) : result str :=
  observation <- resolve self observation ;;
  des_arr <- np.getitem2 (screen_descriptions observation) y x ;;
  symb_len <- np.getitem (np.where1 (eq_zero des_arr)) 0 ;;
  decode (np.slice 0 symb_len des_arr).

(** [x, y = blstats[:2]] *)
Definition unpack2 (l : list Z) : result (Z * Z) :=
  match l with
  | [x; y] => Ok (x, y)
  | _ => Raise ValueError
  end.

(** [MiniHack.get_neighbor_descriptions].  [x] and [y] are entries of
    [blstats], 64-bit signed NumPy integers: the bounds of the two ranges
    are computed in that type and wrap around. *)
Definition get_neighbor_descriptions (self : Env)
    (observation : option Observation) : result (list str) :=
  observation <- resolve self observation ;;
  xy <- unpack2 (np.slice 0 2 (blstats observation)) ;;
  let '(x, y) := xy in
  comprehension
    (fun ji => get_screen_description self (snd ji) (fst ji) (Some observation))
    (list_prod (range (wrap64 (y - 1)) (wrap64 (y + 2)))
       (range (wrap64 (x - 1)) (wrap64 (x + 2)))).

(** The loop of [get_direction_obj] over [enumerate(neighbors)], from
    index [i] on. *)
Fixpoint scan_neighbors (name : str) (i : Z) (neighbors : list str)
  : result (option Z) :=
  match neighbors with
  | [] => Ok None
  | tile_description :: neighbors' =>
      if contains name tile_description then index_to_dir_action i
      else scan_neighbors name (i + 1) neighbors'
  end.

(** [MiniHack.get_direction_obj] *)
Definition get_direction_obj (self : Env) (name : str)
    (observation : option Observation) : result (option Z) :=
  observation <- resolve self observation ;;
  neighbors <- get_neighbor_descriptions self (Some observation) ;;
  scan_neighbors name 0 neighbors.

End Methods.

(** ** Sequences of calls on an environment *)

Inductive Call : Type :=
  | CallReset
  | CallStep (action : Z).

Section Driver.
Context {RM E : Type}.
Context `{!RewardManager RM E} `{!NetHackStaircase E}.

(** A caller that resets and steps the environment in the given order;
    an exception ends the run. *)
Fixpoint run (calls : list Call) (self : MiniHack RM E)
  : result (MiniHack RM E) :=
  match calls with
  | [] => Ok self
  | CallReset :: calls' => run calls' (fst (reset self))
  | CallStep action :: calls' =>
      r <- step self action ;; run calls' (snd r)
  end.

End Driver.

(** Every reset of the parent (the start of an episode) comes directly
    after a reset of the reward manager, and none opens the trace. *)
Definition resets_guarded (tr : list Event) : Prop :=
  tr !! 0%nat <> Some ParentReset
  /\ forall i : nat, tr !! S i = Some ParentReset -> tr !! i = Some ManagerReset.

Definition is_manager_reset (ev : Event) : bool :=
  match ev with ManagerReset => true | _ => false end.

Definition is_call_reset (c : Call) : bool :=
  match c with CallReset => true | _ => false end.

(** Number of manager resets in a trace, of resets in a run. *)
Definition manager_resets (tr : list Event) : nat :=
  length (List.filter is_manager_reset tr).

Definition call_resets (calls : list Call) : nat :=
  length (List.filter is_call_reset calls).

(** ** Description fields *)

(** The part of a buffer before its first zero byte. *)
Fixpoint trim (buf : list byte) : list byte :=
  match buf with
  | [] => []
  | b :: buf' => if Byte.eqb b x00 then [] else b :: trim buf'
  end.

(** A description field of [rows] by [cols] cells whose every buffer holds
    a zero byte. *)
Definition wf_screen (rows cols : nat) (f : list (list (list byte))) : Prop :=
  shape2 rows cols f /\ Forall (Forall (fun buf => x00 ∈ buf)) f.

(** A 64-bit coordinate [z] around which [z - 1] and [z + 2] are computed
    without wrapping. *)
Definition steady (z : Z) : Prop := - 2 ^ 63 < z < 2 ^ 63 - 2.

(** The 3 by 3 block around [(x, y)] stays in NumPy's index range on a
    field of [rows] by [cols] cells. *)
Definition block_in_range (rows cols : nat) (x y : Z) : Prop :=
  - Z.of_nat cols <= x - 1 /\ x + 1 < Z.of_nat cols
  /\ - Z.of_nat rows <= y - 1 /\ y + 1 < Z.of_nat rows.

(** A field of 7-bit buffers, as the observation space bounds them. *)
Definition ascii_screen (f : list (list (list byte))) : Prop :=
  Forall (Forall (Forall (fun b => byte_val b < 128))) f.

(** The index an in-range NumPy index [i] denotes on an axis of length [n]. *)
Definition wrap (n : nat) (i : Z) : nat := Z.to_nat (i mod Z.of_nat n).

(** The fixed table of the eight compass keys, by neighbourhood index. *)
Definition direction_table (index : Z) : option Z :=
  if index =? 0 then Some (ord "y")
  else if index =? 1 then Some (ord "k")
  else if index =? 2 then Some (ord "u")
  else if index =? 3 then Some (ord "h")
  else if index =? 5 then Some (ord "l")
  else if index =? 6 then Some (ord "b")
  else if index =? 7 then Some (ord "j")
  else if index =? 8 then Some (ord "n")
  else None.

(** ** The episode outcome engine *)

Module Engine.

(** Modelled from the spec: the reward manager ([reward_manager.py] is
    not part of the sources at hand).  A trigger is a predicate over a
    step with a payout, two termination flags and a repeat flag. *)
Record Trigger : Type := {
  fires : option Observation -> Z -> Observation -> bool;
  reward : Z;
  terminal_sufficient : bool;
  terminal_required : bool;
  repeatable : bool;
}.

(** Modelled from the spec: the engine owns its triggers in insertion
    order, one [satisfied] flag per trigger and the reward accumulator. *)
Record State : Type := {
  triggers : list (Trigger * bool);
  accumulator : Z;
}.

(** Modelled from the spec: [reset()] clears every [satisfied] flag and
    the accumulator. *)
Definition reset (s : State) : State :=
  {| triggers := map (fun ts => (fst ts, false)) (triggers s);
     accumulator := 0 |}.

(** Modelled from the spec: a trigger fires in this call when its
    predicate holds and it is repeatable or not yet satisfied. *)
Definition fired (prev : option Observation) (action : Z)
    (curr : Observation) (ts : Trigger * bool) : bool :=
  (repeatable (fst ts) || negb (snd ts)) && fires (fst ts) prev action curr.

(** Modelled from the spec: [evaluate_step]; every trigger is evaluated,
    then termination is any sufficient trigger fired in this call, or
    all required triggers satisfied with at least one required. *)
Definition evaluate_step (s : State) (prev : option Observation)
    (action : Z) (curr : Observation) : bool * State :=
  let f := fired prev action curr in
  let ts' := map (fun ts => (fst ts, snd ts || f ts)) (triggers s) in
  let gain :=
    foldr Z.add 0
      (map (fun ts => if f ts then reward (fst ts) else 0) (triggers s)) in
  let sufficient :=
    existsb (fun ts => f ts && terminal_sufficient (fst ts)) (triggers s) in
  let required :=
    forallb (fun ts => implb (terminal_required (fst ts)) (snd ts)) ts'
    && existsb (fun ts => terminal_required (fst ts)) ts' in
  (sufficient || required,
   {| triggers := ts'; accumulator := accumulator s + gain |}).

(** Modelled from the spec: [collect_reward()] hands out the accumulator
    and zeroes it. *)
Definition collect_reward (s : State) : Z * State :=
  (accumulator s, {| triggers := triggers s; accumulator := 0 |}).

(** Modelled from the spec: a message trigger fires when one of its
    strings occurs in the current message. *)
Definition message_fires (msgs : list str)
    (prev : option Observation) (action : Z) (curr : Observation) : bool :=
  match decode (trim (message curr)) with
  | Ok text => existsb (fun m => contains m text) msgs
  | Raise _ => false
  end.

End Engine.

#[global] Instance engine_manager {E : Type} : RewardManager Engine.State E := {
  rm_reset := Engine.reset;
  check_episode_end_call := fun m _ prev action curr =>
    Engine.evaluate_step m prev action curr;
  collect_reward := Engine.collect_reward;
}.

(** ** A scripted game for concrete runs *)

Module Script.

(** The engine replays a list of observations, one per reset or step,
    and repeats the last one when the list is used up. *)
Definition Game : Type := (list Observation * Observation)%type.

Definition next (g : Game) : Game * Observation :=
  match fst g with
  | [] => (g, snd g)
  | o :: rest => ((rest, o), o)
  end.

(** The staircase is at column 3, row 1. *)
Definition on_staircase (o : Observation) : StepStatus :=
  match blstats o with
  | x :: y :: _ => if (x =? 3) && (y =? 1) then TASK_SUCCESSFUL else RUNNING
  | _ => RUNNING
  end.

Definition keys : list string :=
  ["glyphs"; "chars"; "colors"; "blstats"; "message"; "inv_strs";
   "inv_letters"; "screen_descriptions"]%string.

End Script.

Definition script_parent (g : Script.Game) : NetHackStaircase Script.Game := {|
  _observation_keys := Script.keys;
  parent_init := g;
  patch_nhdat := fun _ g => g;
  parent_reset := Script.next;
  engine_step := fun g _ => Script.next g;
  parent_is_episode_end := Script.on_staircase;
  _get_time_penalty := fun _ _ => 0;
|}.

(** An environment with the given window and nothing else set. *)
Definition bare_env {RM E : Type} (e : E) (h w pad : Z) : MiniHack RM E :=
  {| reward_manager := None;
     obs_crop_h := h;
     obs_crop_w := w;
     obs_crop_pad := pad;
     reward_win := 1;
     reward_lose := 0;
     last_observation := None;
     _previous := None;
     engine := e;
     trace := [] |}.

(** A three by three field of distinct values. *)
Definition grid3 : list (list Z) := [[1; 2; 3]; [4; 5; 6]; [7; 8; 9]].

(** The description of the cell at row [r], column [c] of a field: its
    buffer up to the first zero byte, decoded. *)
Definition cell_description (f : list (list (list byte))) (r c : nat)
  : result str :=
  match cell f r c with
  | Some buf => decode (trim buf)
  | None => Raise IndexError
  end.

(** The coordinates [(j, i)] of the 3 by 3 block around [(x, y)], rows
    outer and columns inner. *)
Definition block9 (x y : Z) : list (Z * Z) :=
  [ (y - 1, x - 1); (y - 1, x); (y - 1, x + 1);
    (y, x - 1); (y, x); (y, x + 1);
    (y + 1, x - 1); (y + 1, x); (y + 1, x + 1) ].

(** A small room for concrete runs: three rows of three cells, buffers of
    eight bytes, the agent at [(x, y)], and four inventory lines of which
    the third is empty. *)
Definition room_screen : list (list (list byte)) :=
  [ [buffer_of 8 "wall"; buffer_of 8 "door"; buffer_of 8 "wall"];
    [buffer_of 8 "floor"; buffer_of 8 "floor"; buffer_of 8 "floor"];
    [buffer_of 8 "wall"; buffer_of 8 "wall"; buffer_of 8 "altar"] ].

Definition room_at (x y : Z) : Observation :=
  {| blstats := [x; y; 0; 0];
     screen_descriptions := room_screen;
     message := buffer_of 16 "";
     inv_strs := [buffer_of 16 "a long sword"; buffer_of 16 "a skeleton key";
                  buffer_of 16 ""; buffer_of 16 "a rusty key"];
     inv_letters := list_byte_of_string "abcd" |}.

(** ** Searching the whole screen *)

(** The two loops of [screen_contains] over the cells [(j, i)], rows outer,
    with [return True] at the first cell whose description contains
    [name].  [field] is [observation[self._scr_descr_index]], which is
    evaluated anew for every cell. *)
Fixpoint scan_screen (name : str) (field : result (list (list (list byte))))
    (cells : list (Z * Z)) : result bool :=
  match cells with
  | [] => Ok false
  | (j, i) :: cells' =>
      f <- field ;;
      des_arr <- np.getitem2 f j i ;;
      symb_len <- np.getitem (np.where1 (eq_zero des_arr)) 0 ;;
      text <- decode (np.slice 0 symb_len des_arr) ;;
      if contains name text then Ok true else scan_screen name field cells'
  end.

(** [MiniHack.screen_contains].  [SCREEN_DESCRIPTIONS_SHAPE] is the
    constant of the [nethack] module, which is not among the sources. *)
Definition screen_contains {RM E : Type} (SCREEN_DESCRIPTIONS_SHAPE : list Z)
    (self : MiniHack RM E) (name : str) (observation : option Observation)
  : result bool :=
  let observation :=
    match observation with
    | Some o => Some o
    | None => last_observation self
    end in
  yx <- unpack2 (np.slice 0 2 SCREEN_DESCRIPTIONS_SHAPE) ;;
  let '(y, x) := yx in
  scan_screen name
    (match observation with
     | Some o => Ok (screen_descriptions o)
     | None => Raise IndexError
     end)
    (list_prod (range 0 y) (range 0 x)).

(** ** The window of a 3-D field *)

(** [np.pad(arr, pad_width=(before, after), mode="constant",
    constant_values=c)] on a 3-D array: the pair is used on every axis,
    the last one included, so every buffer is widened as well. *)
Definition np_pad3 {A : Type} (arr : list (list (list A))) (before after : Z)
    (c : A) : result (list (list (list A))) :=
  if (before <? 0) || (after <? 0) then Raise ValueError
  else
    let b := Z.to_nat before in
    let a := Z.to_nat after in
    let depth :=
      match arr with
      | (buf :: _) :: _ => length buf
      | _ => 0%nat
      end in
    let blank_buf := replicate (b + depth + a) c in
    let blank_row := replicate (b + np.ncols arr + a) blank_buf in
    Ok (replicate b blank_row
          ++ map (fun row =>
                    replicate b blank_buf
                      ++ map (fun buf => replicate b c ++ buf ++ replicate a c)
                           row
                      ++ replicate a blank_buf)
               arr
          ++ replicate a blank_row).

(** [MiniHack._crop_observation] on a 3-D field, as [_get_observation]
    calls it for the screen descriptions: the same statements, with the
    slice taken on the first two axes. *)
Definition _crop_observation3 {RM E : Type} (self : MiniHack RM E)
    (obs : list (list (list Z))) (loc : Z * Z)
  : result (list (list (list Z))) :=
  let dh := obs_crop_h self / 2 in
  let dw := obs_crop_w self / 2 in
  let '(x, y) := loc in
  let x := x + dw in
  let y := y + dh in
  obs <- np_pad3 obs dw dh (obs_crop_pad self) ;;
  Ok (np.slice2 (y - dh) (y + dh + 1) (x - dw) (x + dw + 1) obs).

(** A 3-D array of [rows] by [cols] buffers of [depth] entries. *)
Definition shape3 {A : Type} (rows cols depth : nat)
    (arr : list (list (list A))) : Prop :=
  shape2 rows cols arr /\ Forall (Forall (fun buf => length buf = depth)) arr.


(** ** Observation keys and the observation space *)

(** [sub in s] on two Python strings. *)
Definition str_in (sub s : string) : bool :=
  contains (str_of sub) (str_of s).

(** [if key not in keys: keys.append(key)] *)
Definition append_missing (keys : list string) (key : string) : list string :=
  if key_in key keys then keys else keys ++ [key].

(** The observation keys [MiniHack.__init__] keeps in
    [_minihack_obs_keys]: the requested keys, and with [pixel_crop] among
    them the two crops the pixel crop is rendered from. *)
Definition init_obs_keys (observation_keys : list string) : list string :=
  let keys := observation_keys in
  if existsb (str_in "pixel") keys then
    if key_in "pixel_crop" keys then
      foldl append_missing keys ["glyphs_crop"; "chars_crop"]%string
    else keys
  else keys.

Inductive dtype : Type :=
  | uint8
  | uint16.

(** [gym.spaces.Box(low, high, shape, dtype)] *)
Record Box : Type := {
  low : Z;
  high : Z;
  shape : list Z;
  box_dtype : dtype;
}.

Definition RGB_MAX_VAL : Z := 255.
Definition N_TILE_PIXEL : Z := 16.

(** The constants of the [nethack] module that the spaces use; the module
    is not among the sources. *)
Record NethackConstants : Type := {
  MAX_GLYPH : Z;
  NLE_SCREEN_DESCRIPTION_LENGTH : Z;
  glyphs_shape : Z * Z;
}.

(** [MINIHACK_SPACE_FUNCS] *)
Definition MINIHACK_SPACE_FUNCS (nh : NethackConstants)
  : list (string * (Z -> Z -> Box)) :=
  [ ("glyphs_crop"%string,
     fun x y => {| low := 0; high := MAX_GLYPH nh; shape := [x; y];
                   box_dtype := uint16 |});
    ("chars_crop"%string,
     fun x y => {| low := 0; high := 255; shape := [x; y];
                   box_dtype := uint8 |});
    ("colors_crop"%string,
     fun x y => {| low := 0; high := 15; shape := [x; y];
                   box_dtype := uint8 |});
    ("tty_chars_crop"%string,
     fun x y => {| low := 0; high := 127; shape := [x; y];
                   box_dtype := uint8 |});
    ("tty_colors_crop"%string,
     fun x y => {| low := 0; high := 127; shape := [x; y];
                   box_dtype := uint8 |});
    ("screen_descriptions_crop"%string,
     fun x y => {| low := 0; high := 127;
                   shape := [x; y; NLE_SCREEN_DESCRIPTION_LENGTH nh];
                   box_dtype := uint8 |});
    ("pixel_crop"%string,
     fun x y => {| low := 0; high := RGB_MAX_VAL;
                   shape := [x * N_TILE_PIXEL; y * N_TILE_PIXEL; 3];
                   box_dtype := uint8 |}) ].

(** [d.get(key)] on a dict literal with string keys. *)
Fixpoint funcs_get {V : Type} (d : list (string * V)) (key : string)
  : option V :=
  match d with
  | [] => None
  | (k, v) :: d' => if String.eqb key k then Some v else funcs_get d' key
  end.

(** The space [get_obs_space_dict] gives the full-screen pixels. *)
Definition pixel_box (nh : NethackConstants) : Box :=
  {| low := 0;
     high := RGB_MAX_VAL;
     shape := [fst (glyphs_shape nh) * N_TILE_PIXEL;
               snd (glyphs_shape nh) * N_TILE_PIXEL; 3];
     box_dtype := uint8 |}.

(** The loop of [get_obs_space_dict] over the keys still to do; [all_keys]
    is [self._minihack_obs_keys]. *)
Fixpoint obs_space_loop {RM E : Type} (nh : NethackConstants)
    (self : MiniHack RM E) (all_keys : list string)
    (space_dict : gmap string Box) (keys : list string)
    (obs_space_dict : gmap string Box) : result (gmap string Box) :=
  match keys with
  | [] => Ok obs_space_dict
  | key :: keys' =>
      match space_dict !! key with
      | Some space =>
          obs_space_loop nh self all_keys space_dict keys'
            (<[key := space]> obs_space_dict)
      | None =>
          match funcs_get (MINIHACK_SPACE_FUNCS nh) key with
          | Some space_func =>
              obs_space_loop nh self all_keys space_dict keys'
                (<[key := space_func (obs_crop_h self) (obs_crop_w self)]>
                   obs_space_dict)
          | None =>
              if key_in "pixel" all_keys then
                obs_space_loop nh self all_keys space_dict keys'
                  (<["pixel"%string := pixel_box nh]> obs_space_dict)
              else Raise ValueError
          end
      end
  end.

(** [MiniHack.get_obs_space_dict]; [keys] is [self._minihack_obs_keys]. *)
Definition get_obs_space_dict {RM E : Type} (nh : NethackConstants)
    (self : MiniHack RM E) (keys : list string)
    (space_dict : gmap string Box) : result (gmap string Box) :=
  obs_space_loop nh self keys space_dict keys ∅.

(** A key neither the parent's spaces nor [MINIHACK_SPACE_FUNCS] know. *)
Definition unsupported (nh : NethackConstants) (space_dict : gmap string Box)
    (key : string) : Prop :=
  space_dict !! key = None /\ funcs_get (MINIHACK_SPACE_FUNCS nh) key = None.

(** The space of a key that the parent's spaces or
    [MINIHACK_SPACE_FUNCS] know, the former first. *)
Definition declared {RM E : Type} (nh : NethackConstants)
    (self : MiniHack RM E) (space_dict : gmap string Box) (key : string)
  : option Box :=
  match space_dict !! key with
  | Some space => Some space
  | None =>
      match funcs_get (MINIHACK_SPACE_FUNCS nh) key with
      | Some space_func =>
          Some (space_func (obs_crop_h self) (obs_crop_w self))
      | None => None
      end
  end.

(** Constants and parent spaces for concrete runs. *)
Definition nle_constants : NethackConstants :=
  {| MAX_GLYPH := 5976;
     NLE_SCREEN_DESCRIPTION_LENGTH := 80;
     glyphs_shape := (21, 79) |}.

Definition nle_spaces : gmap string Box :=
  <["chars"%string :=
      {| low := 0; high := 255; shape := [21; 79]; box_dtype := uint8 |}]>
    (<["message"%string :=
         {| low := 0; high := 255; shape := [256]; box_dtype := uint8 |}]> ∅).

(** The crops of 2-D fields. *)
Definition plane_crops : list string :=
  ["glyphs_crop"; "chars_crop"; "colors_crop"; "tty_chars_crop";
   "tty_colors_crop"]%string.

(** ** The observation dictionary *)

(** A NumPy array of one, two or three axes. *)
Inductive ndarray : Type :=
  | Arr1 (v : list Z)
  | Arr2 (m : list (list Z))
  | Arr3 (t : list (list (list Z))).

(** The dictionary the parent's [_get_observation] returns.  Its two
    position entries are vectors; they are [None] when the key is absent. *)
Record RawObservation : Type := {
  raw_blstats : option (list Z);
  raw_tty_cursor : option (list Z);
  raw_arrays : gmap string ndarray;
}.

(** [d[key]] on a dict. *)
Definition dict_lookup {V : Type} (d : gmap string V) (key : string)
  : result V :=
  match d !! key with
  | Some v => Ok v
  | None => Raise KeyError
  end.

Definition option_get {V : Type} (o : option V) : result V :=
  match o with
  | Some v => Ok v
  | None => Raise KeyError
  end.

(** [observation[key]] *)
Definition raw_get (observation : RawObservation) (key : string)
  : result ndarray :=
  if String.eqb key "blstats" then
    v <- option_get (raw_blstats observation) ;; Ok (Arr1 v)
  else if String.eqb key "tty_cursor" then
    v <- option_get (raw_tty_cursor observation) ;; Ok (Arr1 v)
  else dict_lookup (raw_arrays observation) key.

(** [s.replace(old, new)] for a non-empty [old]: the occurrences of [old]
    are replaced from left to right, without overlap. *)
Fixpoint str_replace_aux (fuel : nat) (old new s : string) : string :=
  match fuel with
  | O => s
  | S fuel' =>
      match s with
      | EmptyString => EmptyString
      | String c s' =>
          if String.prefix old s then
            String.append new
              (str_replace_aux fuel' old new
                 (String.substring (String.length old)
                    (String.length s - String.length old) s))
          else String c (str_replace_aux fuel' old new s')
      end
  end.

Definition str_replace (old new s : string) : string :=
  str_replace_aux (S (String.length s)) old new s.

(** [self._crop_observation(obs, loc)] on an array of any rank: a vector
    can be padded but not sliced on two axes. *)
Definition crop_array {RM E : Type} (self : MiniHack RM E) (obs : ndarray)
    (loc : list Z) : result ndarray :=
  xy <- unpack2 loc ;;
  match obs with
  | Arr2 m => win <- _crop_observation self m xy ;; Ok (Arr2 win)
  | Arr3 t => win <- _crop_observation3 self t xy ;; Ok (Arr3 win)
  | Arr1 v =>
      if (obs_crop_w self / 2 <? 0) || (obs_crop_h self / 2 <? 0)
      then Raise ValueError
      else Raise IndexError
  end.

Section GetObservation.
Context {RM E : Type} `{!NetHackStaircase E}.
Variables (nh : NethackConstants) (to_rgb : ndarray -> ndarray -> ndarray).

(** The cropped entry of [_get_observation]: the anchor is the reversed
    terminal cursor for a key with [tty] in its name and the first two
    bottom-line statistics for any other, and the window is cut from the
    field named by the key without its [_crop]. *)
Definition crop_entry (self : MiniHack RM E) (observation : RawObservation)
    (key : string) : result ndarray :=
  let orig_key := str_replace "_crop" "" key in
  loc <- (if str_in "tty" orig_key then
            c <- option_get (raw_tty_cursor observation) ;; Ok (rev c)
          else
            b <- option_get (raw_blstats observation) ;;
            Ok (np.slice 0 2 b)) ;;
  arr <- raw_get observation orig_key ;;
  crop_array self arr loc.

(** The loop of [_get_observation] over [self._minihack_obs_keys]. *)
Fixpoint get_observation_loop (self : MiniHack RM E)
    (observation : RawObservation) (keys : list string)
    (obs_dict : gmap string ndarray) : result (gmap string ndarray) :=
  match keys with
  | [] => Ok obs_dict
  | key :: keys' =>
      if str_in "pixel" key then
        get_observation_loop self observation keys' obs_dict
      else if key_in key _observation_keys then
        v <- raw_get observation key ;;
        get_observation_loop self observation keys' (<[key := v]> obs_dict)
      else if bool_decide (is_Some (funcs_get (MINIHACK_SPACE_FUNCS nh) key))
      then
        win <- crop_entry self observation key ;;
        get_observation_loop self observation keys' (<[key := win]> obs_dict)
      else get_observation_loop self observation keys' obs_dict
  end.

(** [MiniHack._get_observation], from the dictionary the parent's
    [_get_observation] returns; [keys] is [self._minihack_obs_keys] and
    [to_rgb] the glyph mapper's rendering. *)
Definition _get_observation (self : MiniHack RM E) (keys : list string)
    (observation : RawObservation) : result (gmap string ndarray) :=
  obs_dict <- get_observation_loop self observation keys ∅ ;;
  obs_dict <-
    (if key_in "pixel" keys then
       glyphs <- raw_get observation "glyphs" ;;
       chars <- raw_get observation "chars" ;;
       Ok (<["pixel"%string := to_rgb glyphs chars]> obs_dict)
     else Ok obs_dict) ;;
  if key_in "pixel_crop" keys then
    glyphs_crop <- dict_lookup obs_dict "glyphs_crop" ;;
    chars_crop <- dict_lookup obs_dict "chars_crop" ;;
    Ok (<["pixel_crop"%string := to_rgb glyphs_crop chars_crop]> obs_dict)
  else Ok obs_dict.

(** A key the loop of [_get_observation] stores an entry for. *)
Definition stored (key : string) : Prop :=
  str_in "pixel" key = false
  /\ (key_in key _observation_keys = true
      \/ is_Some (funcs_get (MINIHACK_SPACE_FUNCS nh) key)).

(** What the loop stores for such a key. *)
Definition observation_entry (self : MiniHack RM E)
    (observation : RawObservation) (key : string) : result ndarray :=
  if key_in key _observation_keys then raw_get observation key
  else crop_entry self observation key.

End GetObservation.


(** A raw observation of the small room, for concrete runs. *)
Definition raw_room : RawObservation :=
  {| raw_blstats := Some [1; 1; 0; 0];
     raw_tty_cursor := Some [2; 1];
     raw_arrays :=
       <["chars"%string := Arr2 grid3]>
         (<["glyphs"%string := Arr2 grid3]>
            (<["tty_chars"%string := Arr2 grid3]> ∅)) |}.

(** A rendering that keeps the glyphs, for concrete runs. *)
Definition flat_rgb (glyphs chars : ndarray) : ndarray := glyphs.



(** Whether a computation returned. *)
Definition returns {A : Type} (r : result A) : bool :=
  match r with
  | Ok _ => true
  | Raise _ => false
  end.

(** ** Vocabulary of the statements *)

(** A line the scan passes over: not all zero, decodable, without [name]. *)
Definition passed_over (name : str) (pair : byte * list byte) : Prop :=
  np.all (eq_zero (snd pair)) = false
  /\ exists text, decode (snd pair) = Ok text /\ contains name text = false.

Definition seeing {RM E : Type} (o : Observation) (self : MiniHack RM E)
  : MiniHack RM E :=
  set_last_observation (Some o) self.

(** The environment as the parent's [step] hands it to [_is_episode_end]:
    previous observation and action recorded, engine advanced, the new
    observation kept as the last one. *)
Definition stepping {RM E : Type} `{!NetHackStaircase E}
    (self : MiniHack RM E) (action : Z) : MiniHack RM E :=
  log (EngineStep action)
    (set_last_observation (Some (snd (engine_step (engine self) action)))
       (set_engine (fst (engine_step (engine self) action))
          (set_previous (Some (last_observation self, action)) self))).

(** A reward manager as [envs/memory.py] sets it up, with its message
    event: hearing a squeak is sufficient and required, and pays nothing. *)
Definition squeak_manager : Engine.State :=
  {| Engine.triggers :=
       [({| Engine.fires := Engine.message_fires [str_of "squeak"];
            Engine.reward := 0;
            Engine.terminal_sufficient := true;
            Engine.terminal_required := true;
            Engine.repeatable := false |}, false)];
     Engine.accumulator := 0 |}.

(** A trigger that pays but carries no termination flag. *)
Definition bonus_manager : Engine.State :=
  {| Engine.triggers :=
       [({| Engine.fires := Engine.message_fires [str_of "squeak"];
            Engine.reward := 1;
            Engine.terminal_sufficient := false;
            Engine.terminal_required := false;
            Engine.repeatable := true |}, false)];
     Engine.accumulator := 0 |}.

Definition hearing (text : string) (o : Observation) : Observation :=
  {| blstats := blstats o;
     screen_descriptions := screen_descriptions o;
     message := buffer_of 32 text;
     inv_strs := inv_strs o;
     inv_letters := inv_letters o |}.

(** What holds of an environment with a manager between calls: it still
    has its manager, every episode start is guarded, the manager has been
    reset [n] times, the first time before anything else. *)
Definition managed {RM E : Type} (n : nat) (self : MiniHack RM E) : Prop :=
  is_Some (reward_manager self)
  /\ resets_guarded (trace self)
  /\ manager_resets (trace self) = n
  /\ exists rest, trace self = ManagerReset :: rest.

(** The calls one call of the caller makes to the collaborators, with a
    reward manager attached ([true]) or without one. *)
Definition call_trace (with_manager : bool) (c : Call) : list Event :=
  match c with
  | CallReset =>
      if with_manager then [ManagerReset; ParentReset] else [ParentReset]
  | CallStep action =>
      if with_manager then [EngineStep action; ManagerCheck; ManagerCollect]
      else [EngineStep action]
  end.

(** ** Concrete environments *)

(** An environment with the default window that has seen nothing yet. *)
Definition idle_env : MiniHack unit unit := bare_env tt 5 5 0.

(** A game that shows the room with the agent in the middle, forever. *)
Definition room_game : Script.Game := ([], room_at 1 1).

Definition room_parent : NetHackStaircase Script.Game :=
  script_parent room_game.

(** An environment whose last observation is that room. *)
Definition room_env : MiniHack unit Script.Game :=
  seeing (room_at 1 1) (bare_env room_game 5 5 0).

(** The room with a squeak in the message line. *)
Definition heard_squeak : Observation :=
  hearing "You hear a squeak." (room_at 1 1).

(** An environment in the middle of a step, with manager [m]. *)
Definition in_step (m : Engine.State) : MiniHack Engine.State Script.Game :=
  set_previous (Some (Some (room_at 1 1), 0))
    (set_manager (Some m) (bare_env room_game 5 5 0)).

(** Constructor arguments with the given window and manager. *)
Definition window_args (h w : Z) (m : option Engine.State)
  : InitArgs Engine.State :=
  {| des_file := "memory.des";
     arg_reward_win := 1;
     arg_reward_lose := 0;
     arg_obs_crop_h := h;
     arg_obs_crop_w := w;
     arg_obs_crop_pad := 0;
     arg_reward_manager := m |}.

(** A game of two short episodes and the calls that play it. *)
Definition memory_parent : NetHackStaircase Script.Game :=
  script_parent ([room_at 1 1; room_at 2 1; room_at 1 1], room_at 3 1).

Definition memory_calls : list Call :=
  [CallReset; CallStep 108; CallReset; CallStep 108].

(** An environment with an even window, set after construction. *)
Definition even_env : MiniHack Engine.State Script.Game :=
  bare_env room_game 4 4 0.




(** The eight compass keys. *)
Definition compass_keys : list Z :=
  map ord ["y"; "k"; "u"; "h"; "l"; "b"; "j"; "n"]%char.

(** An observation with unusual buffers: a description followed by bytes
    after its zero byte, a description that fills its buffer, and an
    inventory line with a byte that is no UTF-8 after its zero byte. *)
Definition odd_room : Observation :=
  {| blstats := [0; 0];
     screen_descriptions :=
       [[list_byte_of_string "door" ++ x00 :: list_byte_of_string "xyz";
         list_byte_of_string "wall"]];
     message := [];
     inv_strs := [list_byte_of_string "a sword" ++ [x00; xff];
                  buffer_of 9 "a key"];
     inv_letters := list_byte_of_string "ab" |}.

Definition odd_env : MiniHack unit Script.Game :=
  seeing odd_room (bare_env room_game 5 5 0).

(** A three by three window on the scripted room. *)
Definition crop_env : MiniHack unit Script.Game := bare_env room_game 3 3 0.

(** ** Facts about slices and padding *)

Section ArrayFacts.
Context {A : Type}.
Implicit Types (l : list A) (arr : list (list A)).

Lemma slice_inside l (lo hi : Z) :
  0 <= lo <= hi -> hi <= Z.of_nat (length l) ->
  np.slice lo hi l = take (Z.to_nat (hi - lo)) (drop (Z.to_nat lo) l).
Proof.
  intros Hlo Hhi. unfold np.slice, np.slice_bound.
  destruct (Z.ltb_spec lo 0); [lia|].
  destruct (Z.ltb_spec hi 0); [lia|].
  rewrite !Z.min_l by lia. reflexivity.
Qed.

Lemma slice_inside_length l (lo hi : Z) :
  0 <= lo <= hi -> hi <= Z.of_nat (length l) ->
  length (np.slice lo hi l) = Z.to_nat (hi - lo).
Proof.
  intros Hlo Hhi. rewrite slice_inside by assumption.
  rewrite length_take, length_drop. lia.
Qed.

Lemma slice_inside_lookup l (lo hi : Z) (k : nat) :
  0 <= lo <= hi -> hi <= Z.of_nat (length l) ->
  (k < Z.to_nat (hi - lo))%nat ->
  np.slice lo hi l !! k = l !! (Z.to_nat lo + k)%nat.
Proof.
  intros Hlo Hhi Hk. rewrite slice_inside by assumption.
  rewrite lookup_take_lt by assumption. apply lookup_drop.
Qed.

Lemma pad_ok arr (before after : Z) c :
  0 <= before -> 0 <= after ->
  np.pad arr before after c
  = Ok (padded arr (Z.to_nat before) (Z.to_nat after) c).
Proof.
  intros Hb Ha. unfold np.pad.
  destruct (Z.ltb_spec before 0); [lia|].
  destruct (Z.ltb_spec after 0); [lia|]. reflexivity.
Qed.

Lemma pad_negative arr (before after : Z) c :
  before < 0 \/ after < 0 -> np.pad arr before after c = Raise ValueError.
Proof.
  intros H. unfold np.pad.
  destruct (Z.ltb_spec before 0); [reflexivity|].
  destruct (Z.ltb_spec after 0); [reflexivity|]. lia.
Qed.

Lemma shape2_ncols arr rows cols :
  shape2 rows cols arr -> (0 < rows)%nat -> np.ncols arr = cols.
Proof.
  intros [Hr Hc] Hpos. destruct arr as [|row arr']; simpl in *; [lia|].
  inversion Hc; subst. reflexivity.
Qed.

Lemma shape2_row arr rows cols i row :
  shape2 rows cols arr -> arr !! i = Some row -> length row = cols.
Proof.
  intros [_ Hc] Hi. rewrite Forall_lookup in Hc. exact (Hc i row Hi).
Qed.

Lemma padded_length arr b a c :
  length (padded arr b a c) = (b + length arr + a)%nat.
Proof.
  unfold padded. rewrite !length_app, !length_replicate, length_map. lia.
Qed.

Lemma padded_shape arr rows cols b a c :
  shape2 rows cols arr -> (0 < rows)%nat ->
  shape2 (b + rows + a) (b + cols + a) (padded arr b a c).
Proof.
  intros Hs Hpos. pose proof (shape2_ncols _ _ _ Hs Hpos) as Hn.
  destruct Hs as [Hr Hc]. split.
  - rewrite padded_length. lia.
  - unfold padded. rewrite Hn. rewrite !Forall_app. repeat split.
    + apply Forall_replicate. apply length_replicate.
    + rewrite Forall_map. eapply Forall_impl; [exact Hc|].
      intros row Hrow. simpl in *.
      rewrite !length_app, !length_replicate, Hrow. lia.
    + apply Forall_replicate. apply length_replicate.
Qed.

(** Content of the padded array: the original array sits at offset
    [(b, b)], every other cell holds the constant. *)
Lemma padded_cell arr rows cols b a c (i j : nat) :
  shape2 rows cols arr -> (0 < rows)%nat ->
  (i < b + rows + a)%nat -> (j < b + cols + a)%nat ->
  cell (padded arr b a c) i j
  = Some (if decide (b <= i < b + rows /\ b <= j < b + cols)%nat
          then default c (cell arr (i - b) (j - b))
          else c).
Proof.
  intros Hs Hpos Hi Hj. pose proof (shape2_ncols _ _ _ Hs Hpos) as Hn.
  pose proof Hs as [Hr Hc].
  unfold cell at 1, padded. rewrite Hn.
  destruct (decide (i < b)%nat) as [Hib|Hib].
  { rewrite lookup_app_l by (rewrite length_replicate; lia).
    rewrite (lookup_replicate_2 _ _ _ Hib).
    rewrite (lookup_replicate_2 _ _ _ Hj).
    destruct (decide _) as [[? ?]|?]; [lia|reflexivity]. }
  rewrite lookup_app_r by (rewrite length_replicate; lia).
  rewrite length_replicate.
  destruct (decide (i - b < rows)%nat) as [Hir|Hir].
  - rewrite lookup_app_l by (rewrite length_map; lia).
    rewrite list_lookup_fmap.
    destruct (arr !! (i - b)%nat) as [row|] eqn:Hrow.
    2:{ apply lookup_ge_None in Hrow. lia. }
    simpl. pose proof (shape2_row _ _ _ _ _ Hs Hrow) as Hlen.
    destruct (decide (j < b)%nat) as [Hjb|Hjb].
    { rewrite lookup_app_l by (rewrite length_replicate; lia).
      rewrite (lookup_replicate_2 _ _ _ Hjb).
      destruct (decide _) as [[? ?]|?]; [lia|reflexivity]. }
    rewrite lookup_app_r by (rewrite length_replicate; lia).
    rewrite length_replicate.
    destruct (decide (j - b < cols)%nat) as [Hjc|Hjc].
    + rewrite lookup_app_l by lia.
      destruct (decide _) as [?|Hn']; [|lia].
      unfold cell. rewrite Hrow.
      destruct (row !! (j - b)%nat) as [v|] eqn:Hv; [reflexivity|].
      apply lookup_ge_None in Hv. lia.
    + rewrite lookup_app_r by lia.
      rewrite (lookup_replicate_2 a _ (j - b - length row)) by lia.
      destruct (decide _) as [[? ?]|?]; [lia|reflexivity].
  - rewrite lookup_app_r by (rewrite length_map; lia).
    rewrite length_map.
    rewrite (lookup_replicate_2 a _ (i - b - length arr)) by lia.
    rewrite (lookup_replicate_2 _ _ _ Hj).
    destruct (decide _) as [[? ?]|?]; [lia|reflexivity].
Qed.

End ArrayFacts.

(** ** The observation window *)

Lemma field_or_pad_inside obs rows cols pad r c :
  shape2 rows cols obs ->
  0 <= r < Z.of_nat rows -> 0 <= c < Z.of_nat cols ->
  cell obs (Z.to_nat r) (Z.to_nat c) = Some (field_or_pad obs pad r c).
Proof.
  intros Hs Hr Hc. unfold field_or_pad.
  destruct (Z.leb_spec 0 r); [|lia]. destruct (Z.leb_spec 0 c); [|lia].
  simpl. unfold cell.
  destruct (obs !! Z.to_nat r) as [row|] eqn:Hrow.
  - pose proof (shape2_row _ _ _ _ _ Hs Hrow) as Hlen.
    destruct (row !! Z.to_nat c) as [v|] eqn:Hv; [reflexivity|].
    apply lookup_ge_None in Hv. lia.
  - apply lookup_ge_None in Hrow. destruct Hs as [Hlen _]. lia.
Qed.

Lemma field_or_pad_outside obs rows cols pad r c :
  shape2 rows cols obs ->
  ~ (0 <= r < Z.of_nat rows /\ 0 <= c < Z.of_nat cols) ->
  field_or_pad obs pad r c = pad.
Proof.
  intros Hs Hout. unfold field_or_pad.
  destruct (Z.leb_spec 0 r); [|reflexivity].
  destruct (Z.leb_spec 0 c); [|reflexivity].
  simpl. unfold cell.
  destruct (obs !! Z.to_nat r) as [row|] eqn:Hrow; [|reflexivity].
  pose proof (shape2_row _ _ _ _ _ Hs Hrow) as Hlen.
  apply lookup_lt_Some in Hrow. destruct Hs as [Hl _].
  destruct (row !! Z.to_nat c) as [v|] eqn:Hv; [|reflexivity].
  apply lookup_lt_Some in Hv. lia.
Qed.

(** What [_crop_observation] computes as long as neither slice runs past
    the padded array: a window of [2*dh+1] rows and [2*dw+1] columns whose
    cell [(i, j)] shows field row [y - dw + i], column [x - dw + j].
    The row offset is the half WIDTH and the room after the field is the
    half HEIGHT on both axes, because [np.pad] receives [(dw, dh)] as its
    (before, after) pair for every axis. *)
Lemma crop_window {RM E : Type} (self : MiniHack RM E) obs rows cols x y :
  let dh := obs_crop_h self / 2 in
  let dw := obs_crop_w self / 2 in
  shape2 rows cols obs ->
  0 <= x < Z.of_nat cols -> 0 <= y < Z.of_nat rows ->
  0 <= dh -> 0 <= dw ->
  y + dh < Z.of_nat rows + dw -> x + dw < Z.of_nat cols + dh ->
  exists win,
    _crop_observation self obs (x, y) = Ok win
    /\ shape2 (Z.to_nat (2 * dh + 1)) (Z.to_nat (2 * dw + 1)) win
    /\ forall i j : nat,
         Z.of_nat i < 2 * dh + 1 -> Z.of_nat j < 2 * dw + 1 ->
         cell win i j
         = Some (field_or_pad obs (obs_crop_pad self)
                   (y - dw + Z.of_nat i) (x - dw + Z.of_nat j)).
Proof.
  intros dh dw Hs Hx Hy Hdh Hdw Hyfit Hxfit.
  assert (Hpos : (0 < rows)%nat) by lia.
  unfold _crop_observation. fold dh dw.
  rewrite pad_ok by lia. cbn [bind].
  set (P := padded obs (Z.to_nat dw) (Z.to_nat dh) (obs_crop_pad self)).
  pose proof (padded_shape obs rows cols (Z.to_nat dw) (Z.to_nat dh)
                (obs_crop_pad self) Hs Hpos) as HP.
  fold P in HP. pose proof HP as [HPlen HProws].
  replace (y + dh - dh) with y by lia.
  replace (x + dw - dw) with x by lia.
  assert (Hrows_in : y + dh + dh + 1 <= Z.of_nat (length P)) by lia.
  eexists. split; [reflexivity|]. split.
  - split.
    + unfold np.slice2. rewrite length_map.
      rewrite slice_inside_length by lia. lia.
    + unfold np.slice2. rewrite Forall_map.
      rewrite Forall_lookup. intros k row Hk. simpl.
      assert (Hrow_in : row ∈ P).
      { apply list_elem_of_lookup_2 in Hk.
        unfold np.slice in Hk.
        apply subseteq_take in Hk. apply subseteq_drop in Hk.
        exact Hk. }
      rewrite Forall_forall in HProws. specialize (HProws row Hrow_in).
      simpl in HProws.
      rewrite slice_inside_length by lia. lia.
  - intros i j Hi Hj. unfold cell at 1, np.slice2.
    rewrite list_lookup_fmap.
    rewrite slice_inside_lookup by lia.
    destruct (P !! (Z.to_nat y + i)%nat) as [row|] eqn:Hrow.
    2:{ apply lookup_ge_None in Hrow. lia. }
    simpl. pose proof (shape2_row _ _ _ _ _ HP Hrow) as Hlen.
    rewrite slice_inside_lookup by lia.
    pose proof (padded_cell obs rows cols (Z.to_nat dw) (Z.to_nat dh)
                  (obs_crop_pad self) (Z.to_nat y + i) (Z.to_nat x + j)
                  Hs Hpos) as Hcell.
    fold P in Hcell. unfold cell at 1 in Hcell. rewrite Hrow in Hcell.
    rewrite Hcell by lia. f_equal.
    destruct (decide _) as [[Hin1 Hin2]|Hout].
    + unfold field_or_pad.
      destruct (Z.leb_spec 0 (y - dw + Z.of_nat i)); [|lia].
      destruct (Z.leb_spec 0 (x - dw + Z.of_nat j)); [|lia].
      simpl. do 2 f_equal; lia.
    + symmetry. apply (field_or_pad_outside obs rows cols); [exact Hs|]. lia.
Qed.

(** The square case: with equal half sizes [d] the window is centred on
    the anchor, shows the field inside it and the pad value outside. *)
Lemma crop_square_window {RM E : Type} (self : MiniHack RM E) obs rows cols x y d :
  obs_crop_h self / 2 = d -> obs_crop_w self / 2 = d -> 0 <= d ->
  shape2 rows cols obs ->
  0 <= x < Z.of_nat cols -> 0 <= y < Z.of_nat rows ->
  exists win,
    _crop_observation self obs (x, y) = Ok win
    /\ shape2 (Z.to_nat (2 * d + 1)) (Z.to_nat (2 * d + 1)) win
    /\ cell win (Z.to_nat d) (Z.to_nat d)
       = cell obs (Z.to_nat y) (Z.to_nat x)
    /\ forall i j : nat,
         Z.of_nat i < 2 * d + 1 -> Z.of_nat j < 2 * d + 1 ->
         cell win i j
         = Some (field_or_pad obs (obs_crop_pad self)
                   (y - d + Z.of_nat i) (x - d + Z.of_nat j)).
Proof.
  intros Hh Hw Hd Hs Hx Hy.
  destruct (crop_window self obs rows cols x y Hs Hx Hy)
    as (win & Hwin & Hshape & Hcells); rewrite ?Hh, ?Hw; try lia.
  rewrite Hh, Hw in Hshape, Hcells.
  exists win. repeat split; try assumption; try apply Hshape.
  rewrite (Hcells (Z.to_nat d) (Z.to_nat d)) by lia.
  rewrite (field_or_pad_inside obs rows cols (obs_crop_pad self) y x Hs Hy Hx).
  f_equal. f_equal; lia.
Qed.

(** C1, at a window that is not square.  With a 3 by 5 window on the
    3 by 3 field [grid3] and the anchor on its middle cell (value 5), the
    window has the anchor on its last row, not at the centre index (1, 2),
    and its first row is padding although field row 0 lies within one row
    of the anchor.  With a 5 by 3 window and the anchor on the bottom row
    the window has four rows instead of five. *)
Theorem crop_rectangular_window_misplaced :
  _crop_observation (bare_env (RM:=unit) tt 3 5 0) grid3 (1, 1)
  = Ok [[0; 0; 0; 0; 0]; [0; 1; 2; 3; 0]; [0; 4; 5; 6; 0]]
  /\ _crop_observation (bare_env (RM:=unit) tt 5 3 0) grid3 (1, 2)
     = Ok [[4; 5; 6]; [7; 8; 9]; [0; 0; 0]; [0; 0; 0]]
  /\ Z.odd 3 = true /\ Z.odd 5 = true /\ cell grid3 1 1 = Some 5.
Proof. repeat split; reflexivity. Qed.

(** ** Construction *)

Section Construction.
Context {RM E : Type}.
Context `{!RewardManager RM E} `{!NetHackStaircase E}.

Lemma py_assert_odd (n : Z) :
  py_assert (n mod 2 =? 1) = if Z.even n then Raise AssertionError else Ok tt.
Proof.
  rewrite Zmod_even. destruct (Z.even n); reflexivity.
Qed.

Lemma init_even_height (args : InitArgs RM) :
  Z.even (arg_obs_crop_h args) = true -> __init__ args = Raise AssertionError.
Proof.
  intros Hev. unfold __init__. rewrite py_assert_odd, Hev. reflexivity.
Qed.

Lemma init_even_width (args : InitArgs RM) :
  Z.even (arg_obs_crop_w args) = true -> __init__ args = Raise AssertionError.
Proof.
  intros Hev. unfold __init__. rewrite !py_assert_odd, Hev.
  destruct (Z.even (arg_obs_crop_h args)); reflexivity.
Qed.

Lemma list_index_present key keys :
  key_in key keys = true -> exists i, list_index key keys = Ok i.
Proof.
  induction keys as [|k keys IH]; simpl; [discriminate|].
  destruct (String.eqb key k); simpl; [eauto|].
  intros Hin. destruct (IH Hin) as [i Hi]. rewrite Hi. simpl. eauto.
Qed.

(** With odd sizes (and the description key at hand) construction
    succeeds, keeps the window as given, and has reset the manager, called
    the parent constructor and patched the level, in this order. *)
Lemma init_odd (args : InitArgs RM) :
  Z.even (arg_obs_crop_h args) = false ->
  Z.even (arg_obs_crop_w args) = false ->
  key_in "screen_descriptions" _observation_keys = true ->
  exists self,
    __init__ args = Ok self
    /\ obs_crop_h self = arg_obs_crop_h args
    /\ obs_crop_w self = arg_obs_crop_w args
    /\ obs_crop_pad self = arg_obs_crop_pad args
    /\ reward_manager self = option_map rm_reset (arg_reward_manager args)
    /\ trace self
       = match arg_reward_manager args with
         | Some _ => [ManagerReset; ParentInit; PatchNhdat]
         | None => [ParentInit; PatchNhdat]
         end.
Proof.
  intros Hh Hw Hkey. unfold __init__.
  rewrite !py_assert_odd, Hh, Hw. cbn [bind].
  destruct (list_index_present _ _ Hkey) as [i Hi]. rewrite Hi. cbn [bind].
  eexists. split; [reflexivity|].
  unfold reset_manager. cbn.
  destruct (arg_reward_manager args); cbn; repeat split; reflexivity.
Qed.

Lemma init_inv (args : InitArgs RM) self :
  __init__ args = Ok self ->
  Z.even (arg_obs_crop_h args) = false
  /\ Z.even (arg_obs_crop_w args) = false
  /\ obs_crop_h self = arg_obs_crop_h args
  /\ obs_crop_w self = arg_obs_crop_w args
  /\ reward_manager self = option_map rm_reset (arg_reward_manager args)
  /\ trace self
     = match arg_reward_manager args with
       | Some _ => [ManagerReset; ParentInit; PatchNhdat]
       | None => [ParentInit; PatchNhdat]
       end.
Proof.
  unfold __init__. rewrite !py_assert_odd.
  destruct (Z.even (arg_obs_crop_h args)); [discriminate|].
  destruct (Z.even (arg_obs_crop_w args)); [discriminate|]. cbn [bind].
  destruct (list_index _ _); [|discriminate]. cbn [bind].
  intros [= <-]. unfold reset_manager. cbn.
  destruct (arg_reward_manager args); cbn; repeat split; reflexivity.
Qed.

End Construction.

Lemma crop_never_asserts {RM E : Type} (self : MiniHack RM E) obs loc :
  _crop_observation self obs loc <> Raise AssertionError.
Proof.
  unfold _crop_observation. destruct loc as [x y]. unfold np.pad.
  destruct (_ || _); cbn; discriminate.
Qed.

(** C8: an even window height or an even window width makes the
    constructor fail with an assertion error; the check lives in the
    constructor only: [_crop_observation] never raises an assertion error,
    and on an environment whose sizes are even (both equal to [2 * d]) it
    returns a window all the same, of [2 * d + 1] rows and columns. *)
Theorem even_window_rejected_at_construction {RM E : Type}
    `{!RewardManager RM E} `{!NetHackStaircase E} :
  (forall args : InitArgs RM,
      Z.even (arg_obs_crop_h args) = true \/ Z.even (arg_obs_crop_w args) = true ->
      __init__ args = Raise AssertionError)
  /\ (forall (self : MiniHack RM E) obs loc,
         _crop_observation self obs loc <> Raise AssertionError)
  /\ (forall (self : MiniHack RM E) obs rows cols x y d,
         0 <= d -> obs_crop_h self = 2 * d -> obs_crop_w self = 2 * d ->
         shape2 rows cols obs ->
         0 <= x < Z.of_nat cols -> 0 <= y < Z.of_nat rows ->
         exists win,
           _crop_observation self obs (x, y) = Ok win
           /\ shape2 (Z.to_nat (2 * d + 1)) (Z.to_nat (2 * d + 1)) win).
Proof.
  split; [|split].
  - intros args [Hh|Hw]; [apply init_even_height|apply init_even_width];
      assumption.
  - intros self obs loc. apply crop_never_asserts.
  - intros self obs rows cols x y d Hd Hh Hw Hs Hx Hy.
    destruct (crop_square_window self obs rows cols x y d)
      as (win & Hwin & Hshape & _); try assumption.
    + rewrite Hh. rewrite Z.mul_comm. apply Z.div_mul. lia.
    + rewrite Hw. rewrite Z.mul_comm. apply Z.div_mul. lia.
    + exists win. split; assumption.
Qed.

(** ** The direction table *)

Lemma index_to_dir_action_in_range (index : Z) :
  0 <= index < 9 -> index_to_dir_action index = Ok (direction_table index).
Proof.
  intros H.
  assert (Hcases : index = 0 \/ index = 1 \/ index = 2 \/ index = 3
                   \/ index = 4 \/ index = 5 \/ index = 6 \/ index = 7
                   \/ index = 8) by lia.
  repeat (destruct Hcases as [->|Hcases]; [reflexivity|]).
  subst. reflexivity.
Qed.

Lemma index_to_dir_action_out_of_range (index : Z) :
  ~ 0 <= index < 9 -> index_to_dir_action index = Raise AssertionError.
Proof.
  intros H. unfold index_to_dir_action.
  destruct (Z.leb_spec 0 index); destruct (Z.ltb_spec index 9);
    try lia; reflexivity.
Qed.

(** C6: the nine neighbourhood indices map to the keys y k u / h . l /
    b j n, and the centre index 4 maps to none. *)
Theorem index_to_dir_action_table :
  index_to_dir_action 0 = Ok (Some (ord "y"))
  /\ index_to_dir_action 1 = Ok (Some (ord "k"))
  /\ index_to_dir_action 2 = Ok (Some (ord "u"))
  /\ index_to_dir_action 3 = Ok (Some (ord "h"))
  /\ index_to_dir_action 4 = Ok None
  /\ index_to_dir_action 5 = Ok (Some (ord "l"))
  /\ index_to_dir_action 6 = Ok (Some (ord "b"))
  /\ index_to_dir_action 7 = Ok (Some (ord "j"))
  /\ index_to_dir_action 8 = Ok (Some (ord "n"))
  /\ map ord ["y"; "k"; "u"; "h"; "l"; "b"; "j"; "n"]%char
     = [121; 107; 117; 104; 108; 98; 106; 110].
Proof. repeat split; reflexivity. Qed.

(** ** Indexing, trimming and decoding *)

Lemma wrap_lt (n : nat) (i : Z) :
  - Z.of_nat n <= i < Z.of_nat n -> (wrap n i < n)%nat.
Proof.
  intros H. unfold wrap.
  pose proof (Z.mod_pos_bound i (Z.of_nat n)). lia.
Qed.

Lemma wrap_nonneg (n : nat) (i : Z) :
  0 <= i < Z.of_nat n -> wrap n i = Z.to_nat i.
Proof. intros H. unfold wrap. rewrite Z.mod_small by lia. reflexivity. Qed.

Lemma wrap_negative (n : nat) (i : Z) :
  - Z.of_nat n <= i < 0 -> wrap n i = Z.to_nat (i + Z.of_nat n).
Proof.
  intros H. unfold wrap. f_equal.
  symmetry. apply (Z.mod_unique i (Z.of_nat n) (-1)); lia.
Qed.

Lemma index_in_range (n : nat) (i : Z) :
  - Z.of_nat n <= i < Z.of_nat n -> np.index n i = Ok (wrap n i).
Proof.
  intros H. unfold np.index.
  destruct (Z.leb_spec 0 i); destruct (Z.ltb_spec i (Z.of_nat n));
    cbn [andb]; try lia.
  - rewrite wrap_nonneg by lia. reflexivity.
  - destruct (Z.leb_spec (- Z.of_nat n) i); destruct (Z.ltb_spec i 0);
      cbn [andb]; try lia.
    rewrite wrap_negative by lia. reflexivity.
Qed.

Lemma index_out_of_range (n : nat) (i : Z) :
  ~ - Z.of_nat n <= i < Z.of_nat n -> np.index n i = Raise IndexError.
Proof.
  intros H. unfold np.index.
  destruct (Z.leb_spec 0 i); destruct (Z.ltb_spec i (Z.of_nat n));
    destruct (Z.leb_spec (- Z.of_nat n) i); destruct (Z.ltb_spec i 0);
    cbn [andb]; try lia; reflexivity.
Qed.

Lemma item_in_range {A : Type} (l : list A) (i : Z) :
  - Z.of_nat (length l) <= i < Z.of_nat (length l) ->
  exists a, l !! wrap (length l) i = Some a /\ np.item l i = Ok a.
Proof.
  intros H. unfold np.item. rewrite index_in_range by assumption.
  cbn [bind]. destruct (l !! wrap (length l) i) as [a|] eqn:Ha.
  - exists a. split; reflexivity.
  - apply lookup_ge_None in Ha. pose proof (wrap_lt _ _ H). lia.
Qed.

Lemma item_out_of_range {A : Type} (l : list A) (i : Z) :
  ~ - Z.of_nat (length l) <= i < Z.of_nat (length l) ->
  np.item l i = Raise IndexError.
Proof.
  intros H. unfold np.item. rewrite index_out_of_range by assumption.
  reflexivity.
Qed.

Lemma intp_int64 (i : Z) : int64 i -> np.intp i = Ok i.
Proof.
  unfold int64, np.intp. intros H.
  destruct (Z.leb_spec (- 2 ^ 63) i); destruct (Z.ltb_spec i (2 ^ 63));
    cbn [andb]; try lia; reflexivity.
Qed.

Lemma intp_overflow (i : Z) :
  2 ^ 63 <= i < 2 ^ 64 -> np.intp i = Raise OverflowError.
Proof.
  unfold np.intp. intros H.
  destruct (Z.leb_spec (- 2 ^ 63) i); destruct (Z.ltb_spec i (2 ^ 63));
    destruct (Z.leb_spec (2 ^ 63) i); destruct (Z.ltb_spec i (2 ^ 64));
    cbn [andb]; try lia; reflexivity.
Qed.

Lemma intp_value (i j : Z) : np.intp i = Ok j -> j = i /\ int64 i.
Proof.
  unfold int64, np.intp.
  destruct (Z.leb_spec (- 2 ^ 63) i); destruct (Z.ltb_spec i (2 ^ 63));
    destruct (Z.leb_spec (2 ^ 63) i); destruct (Z.ltb_spec i (2 ^ 64));
    cbn [andb]; intros [= <-] || discriminate; lia.
Qed.

Lemma intp_error (i : Z) (e : exn) :
  np.intp i = Raise e ->
  (e = OverflowError /\ 2 ^ 63 <= i < 2 ^ 64)
  \/ (e = IndexError /\ (i < - 2 ^ 63 \/ 2 ^ 64 <= i)).
Proof.
  unfold np.intp.
  destruct (Z.leb_spec (- 2 ^ 63) i); destruct (Z.ltb_spec i (2 ^ 63));
    destruct (Z.leb_spec (2 ^ 63) i); destruct (Z.ltb_spec i (2 ^ 64));
    cbn [andb]; intros [= <-] || discriminate;
    first [left; split; [reflexivity|lia]|right; split; [reflexivity|lia]|lia].
Qed.

Lemma getitem_int64 {A : Type} (l : list A) (i : Z) :
  int64 i -> np.getitem l i = np.item l i.
Proof.
  intros H. unfold np.getitem. rewrite intp_int64 by assumption. reflexivity.
Qed.

Lemma getitem2_int64 {A : Type} (arr : list (list A)) (y x : Z) :
  int64 y -> int64 x ->
  np.getitem2 arr y x = (row <- np.item arr y ;; np.item row x).
Proof.
  intros Hy Hx. unfold np.getitem2. rewrite !intp_int64 by assumption.
  reflexivity.
Qed.

Lemma int64_zero : int64 0.
Proof. unfold int64. lia. Qed.

Lemma eqb_x00 (b : byte) : Byte.eqb b x00 = true <-> b = x00.
Proof.
  split; [apply Byte.byte_dec_bl|apply Byte.byte_dec_lb].
Qed.

(** Where the first zero of a buffer is, as [np.where] reports it. *)
Lemma where_from_zero (start : Z) (buf : list byte) :
  x00 ∈ buf ->
  exists rest,
    np.where_from start (eq_zero buf)
    = (start + Z.of_nat (length (trim buf))) :: rest.
Proof.
  revert start. induction buf as [|b buf IH]; intros start Hin.
  - inversion Hin.
  - cbn. destruct (Byte.eqb b x00) eqn:Hb.
    + exists (np.where_from (start + 1) (eq_zero buf)).
      cbn. f_equal. lia.
    + destruct (IH (start + 1)) as [rest Hrest].
      { apply elem_of_cons in Hin as [Hin|Hin]; [|exact Hin].
        symmetry in Hin. apply eqb_x00 in Hin. congruence. }
      exists rest. fold (eq_zero buf). rewrite Hrest. cbn. f_equal. lia.
Qed.

Lemma where_from_no_zero (start : Z) (buf : list byte) :
  x00 ∉ buf -> np.where_from start (eq_zero buf) = [].
Proof.
  revert start. induction buf as [|b buf IH]; intros start Hnin;
    [reflexivity|].
  cbn. destruct (Byte.eqb b x00) eqn:Hb.
  - apply eqb_x00 in Hb. subst. exfalso. apply Hnin. left.
  - apply IH. intros Hin. apply Hnin. right. exact Hin.
Qed.

Lemma first_zero_found (buf : list byte) :
  x00 ∈ buf ->
  np.getitem (np.where1 (eq_zero buf)) 0 = Ok (Z.of_nat (length (trim buf))).
Proof.
  intros Hin. unfold np.where1.
  destruct (where_from_zero 0 buf Hin) as [rest ->]. reflexivity.
Qed.

Lemma first_zero_missing (buf : list byte) :
  x00 ∉ buf -> np.getitem (np.where1 (eq_zero buf)) 0 = Raise IndexError.
Proof.
  intros Hnin. unfold np.where1. rewrite where_from_no_zero by assumption.
  reflexivity.
Qed.

Lemma trim_length (buf : list byte) : (length (trim buf) <= length buf)%nat.
Proof.
  induction buf as [|b buf IH]; cbn; [lia|].
  destruct (Byte.eqb b x00); cbn; lia.
Qed.

Lemma take_trim (buf : list byte) : take (length (trim buf)) buf = trim buf.
Proof.
  induction buf as [|b buf IH]; cbn; [reflexivity|].
  destruct (Byte.eqb b x00); cbn; [reflexivity|]. f_equal. exact IH.
Qed.

Lemma slice_trim (buf : list byte) :
  np.slice 0 (Z.of_nat (length (trim buf))) buf = trim buf.
Proof.
  pose proof (trim_length buf).
  rewrite slice_inside by lia. cbn [Z.to_nat drop].
  replace (Z.to_nat (Z.of_nat (length (trim buf)) - 0))
    with (length (trim buf)) by lia.
  apply take_trim.
Qed.

Lemma trim_no_zero (buf : list byte) : x00 ∉ trim buf.
Proof.
  induction buf as [|b buf IH]; cbn; [apply not_elem_of_nil|].
  destruct (Byte.eqb b x00) eqn:Hb; [apply not_elem_of_nil|].
  intros Hin. apply elem_of_cons in Hin as [Hin|Hin]; [|exact (IH Hin)].
  symmetry in Hin. apply eqb_x00 in Hin. congruence.
Qed.

Lemma trim_subset (buf : list byte) (P : byte -> Prop) :
  Forall P buf -> Forall P (trim buf).
Proof.
  induction 1 as [|b buf Hb Hbuf IH]; cbn; [constructor|].
  destruct (Byte.eqb b x00); constructor; assumption.
Qed.

(** Seven-bit bytes decode to themselves. *)
Lemma decode_ascii (bs : list byte) :
  Forall (fun b => byte_val b < 128) bs -> decode bs = Ok (map byte_val bs).
Proof.
  induction 1 as [|b bs Hb Hbs IH]; [reflexivity|].
  cbn [decode]. destruct (Z.ltb_spec (byte_val b) 128); [|lia].
  rewrite IH. reflexivity.
Qed.

(** Decoding fails in one way only. *)
Lemma decode_error (bs : list byte) (e : exn) :
  decode bs = Raise e -> e = UnicodeDecodeError.
Proof.
  remember (length bs) as n eqn:Hn. revert bs e Hn.
  induction n as [n IH] using lt_wf_ind. intros bs e Hn.
  assert (Hrec : forall t, (length t < n)%nat ->
                 forall (f : str -> result str),
                   (forall s e', f s = Raise e' -> e' = UnicodeDecodeError) ->
                   (s <- decode t ;; f s) = Raise e -> e = UnicodeDecodeError).
  { intros t Ht f Hf. destruct (decode t) as [s|e'] eqn:Ht'; cbn.
    - intros H. exact (Hf _ _ H).
    - intros [= <-]. exact (IH _ Ht t e' eq_refl Ht'). }
  destruct bs as [|b0 t0]; [discriminate|].
  cbn [decode]. cbv zeta. cbn [length] in Hn.
  destruct (byte_val b0 <? 128).
  { apply Hrec; [lia|]. intros s e'. discriminate. }
  destruct (in_range 194 223 b0).
  { destruct t0 as [|b1 t1]; [congruence|]. cbn [length] in Hn.
    destruct (is_cont b1); [|congruence].
    apply Hrec; [lia|]. intros s e'. discriminate. }
  destruct (in_range 224 239 b0).
  { destruct t0 as [|b1 [|b2 t2]]; try congruence. cbn [length] in Hn.
    destruct (_ && _); [|congruence].
    apply Hrec; [lia|]. intros s e'. discriminate. }
  destruct (in_range 240 244 b0); [|congruence].
  destruct t0 as [|b1 [|b2 [|b3 t3]]]; try congruence. cbn [length] in Hn.
  destruct (_ && _); [|congruence].
  apply Hrec; [lia|]. intros s e'. discriminate.
Qed.

Lemma decode_no_index_error (bs : list byte) : decode bs <> Raise IndexError.
Proof. intros H. apply decode_error in H. discriminate. Qed.

(** ** Single-cell descriptions *)

Section Descriptions.
Context {RM E : Type}.
Implicit Types (self : MiniHack RM E) (o : Observation).

Lemma screen_cell f rows cols (r c : nat) :
  wf_screen rows cols f -> (r < rows)%nat -> (c < cols)%nat ->
  exists row buf,
    f !! r = Some row /\ length row = cols /\ row !! c = Some buf
    /\ x00 ∈ buf.
Proof.
  intros [Hs Hz] Hr Hc. pose proof Hs as [Hlen _].
  destruct (f !! r) as [row|] eqn:Hrow.
  2:{ apply lookup_ge_None in Hrow. lia. }
  pose proof (shape2_row _ _ _ _ _ Hs Hrow) as Hrl.
  destruct (row !! c) as [buf|] eqn:Hbuf.
  2:{ apply lookup_ge_None in Hbuf. lia. }
  exists row, buf. repeat split; try assumption.
  rewrite Forall_lookup in Hz. specialize (Hz _ _ Hrow).
  rewrite Forall_lookup in Hz. exact (Hz _ _ Hbuf).
Qed.

(** In NumPy's index range the lookup is the description of the cell
    the indices denote, negative ones counted from the far edge. *)
Lemma description_in_range self o rows cols x y :
  wf_screen rows cols (screen_descriptions o) ->
  int64 x -> int64 y ->
  - Z.of_nat cols <= x < Z.of_nat cols ->
  - Z.of_nat rows <= y < Z.of_nat rows ->
  get_screen_description self x y (Some o)
  = cell_description (screen_descriptions o) (wrap rows y) (wrap cols x)
  /\ cell_description (screen_descriptions o) (wrap rows y) (wrap cols x)
     <> Raise IndexError.
Proof.
  intros Hwf Hix Hiy Hx Hy.
  destruct (screen_cell _ _ _ (wrap rows y) (wrap cols x) Hwf
              (wrap_lt _ _ Hy) (wrap_lt _ _ Hx))
    as (row & buf & Hrow & Hrl & Hbuf & Hz).
  pose proof Hwf as [[Hlen _] _].
  assert (Hcd : cell_description (screen_descriptions o) (wrap rows y)
                  (wrap cols x) = decode (trim buf)).
  { unfold cell_description, cell. rewrite Hrow, Hbuf. reflexivity. }
  split.
  - rewrite Hcd.
    unfold get_screen_description, resolve. cbn [bind].
    rewrite getitem2_int64 by assumption.
    destruct (item_in_range (screen_descriptions o) y)
      as (row' & Hrow' & ->); [lia|].
    rewrite Hlen, Hrow in Hrow'. injection Hrow' as <-. cbn [bind].
    destruct (item_in_range row x) as (buf' & Hbuf' & ->); [lia|].
    rewrite Hrl, Hbuf in Hbuf'. injection Hbuf' as <-. cbn [bind].
    rewrite first_zero_found by assumption. cbn [bind].
    rewrite slice_trim. reflexivity.
  - rewrite Hcd. apply decode_no_index_error.
Qed.

Lemma description_out_of_range self o rows cols x y :
  shape2 rows cols (screen_descriptions o) ->
  int64 x -> int64 y ->
  ~ (- Z.of_nat cols <= x < Z.of_nat cols
     /\ - Z.of_nat rows <= y < Z.of_nat rows) ->
  get_screen_description self x y (Some o) = Raise IndexError.
Proof.
  intros Hs Hix Hiy Hout. pose proof Hs as [Hlen _].
  unfold get_screen_description, resolve. cbn [bind].
  rewrite getitem2_int64 by assumption.
  destruct (decide (- Z.of_nat rows <= y < Z.of_nat rows)) as [Hy|Hy].
  - destruct (item_in_range (screen_descriptions o) y)
      as (row & Hrow & ->); [lia|].
    cbn [bind]. pose proof (shape2_row _ _ _ _ _ Hs Hrow) as Hrl.
    rewrite item_out_of_range by lia. reflexivity.
  - rewrite item_out_of_range by lia. reflexivity.
Qed.

(** An index in [2^63, 2^64) is an overflow error, whatever the field,
    unless the index before it is no valid index at all. *)
Lemma description_overflow self o x y :
  (2 ^ 63 <= y < 2 ^ 64 \/ (int64 y /\ 2 ^ 63 <= x < 2 ^ 64)) ->
  get_screen_description self x y (Some o) = Raise OverflowError.
Proof.
  intros H. unfold get_screen_description, resolve, np.getitem2. cbn [bind].
  destruct H as [Hy|[Hy Hx]].
  - rewrite intp_overflow by assumption. reflexivity.
  - rewrite intp_int64 by assumption. cbn [bind].
    rewrite intp_overflow by assumption. reflexivity.
Qed.

Lemma cell_description_ascii f r c buf :
  cell f r c = Some buf -> Forall (fun b => byte_val b < 128) buf ->
  cell_description f r c = Ok (map byte_val (trim buf)).
Proof.
  intros Hc Ha. unfold cell_description. rewrite Hc.
  apply decode_ascii. apply trim_subset. exact Ha.
Qed.

Lemma ascii_screen_cell f r c :
  ascii_screen f ->
  cell_description f r c = Raise IndexError
  \/ exists text, cell_description f r c = Ok text.
Proof.
  intros Ha. unfold cell_description.
  destruct (cell f r c) as [buf|] eqn:Hc; [right|left; reflexivity].
  exists (map byte_val (trim buf)).
  apply decode_ascii, trim_subset.
  unfold cell in Hc. destruct (f !! r) as [row|] eqn:Hrow; [|discriminate].
  unfold ascii_screen in Ha. rewrite Forall_lookup in Ha.
  specialize (Ha _ _ Hrow). rewrite Forall_lookup in Ha.
  exact (Ha _ _ Hc).
Qed.

End Descriptions.

Lemma resolve_some {RM E : Type} (self : MiniHack RM E) o :
  resolve self (Some o) = Ok o.
Proof. reflexivity. Qed.

Lemma description_resolved {RM E : Type} (self : MiniHack RM E)
    observation o x y :
  resolve self observation = Ok o ->
  get_screen_description self x y observation
  = get_screen_description self x y (Some o).
Proof.
  intros Hr. unfold get_screen_description. rewrite Hr. reflexivity.
Qed.

Lemma room_wf : wf_screen 3 3 room_screen.
Proof.
  split.
  - split; [reflexivity|]. repeat constructor.
  - unfold room_screen, buffer_of. cbn. repeat constructor.
Qed.

Lemma room_ascii : ascii_screen room_screen.
Proof.
  unfold ascii_screen, room_screen, buffer_of. cbn.
  repeat (constructor; try reflexivity).
Qed.

(** C2, as the code has it.  On a field whose buffers all hold a zero
    byte, and for coordinates that fit 64 signed bits: the lookup raises an
    index error exactly when [x] is outside [-cols, cols) or [y] outside
    [-rows, rows); in that range it is the description of the cell the
    coordinates denote, a negative one counted from the far edge ([x + cols],
    [y + rows]); inside the field it is the cell's buffer cut at the first
    zero byte and decoded, never an index error, and a text whenever the
    field holds 7-bit bytes.  A coordinate in [2^63, 2^64), the other one
    in range, is an overflow error and no index error. *)
Theorem description_lookup_bounds {RM E : Type} (self : MiniHack RM E)
    observation o rows cols x y :
  resolve self observation = Ok o ->
  wf_screen rows cols (screen_descriptions o) ->
  (int64 x -> int64 y ->
   (get_screen_description self x y observation = Raise IndexError
    <-> ~ (- Z.of_nat cols <= x < Z.of_nat cols
           /\ - Z.of_nat rows <= y < Z.of_nat rows))
   /\ (- Z.of_nat cols <= x < Z.of_nat cols ->
       - Z.of_nat rows <= y < Z.of_nat rows ->
       get_screen_description self x y observation
       = cell_description (screen_descriptions o)
           (Z.to_nat (if y <? 0 then y + Z.of_nat rows else y))
           (Z.to_nat (if x <? 0 then x + Z.of_nat cols else x)))
   /\ (0 <= x < Z.of_nat cols -> 0 <= y < Z.of_nat rows ->
       get_screen_description self x y observation
       = cell_description (screen_descriptions o) (Z.to_nat y) (Z.to_nat x)
       /\ get_screen_description self x y observation <> Raise IndexError
       /\ (ascii_screen (screen_descriptions o) ->
           exists text,
             get_screen_description self x y observation = Ok text)))
  /\ ((2 ^ 63 <= x < 2 ^ 64 /\ - Z.of_nat rows <= y < Z.of_nat rows /\ int64 y)
      \/ (2 ^ 63 <= y < 2 ^ 64
          /\ - Z.of_nat cols <= x < Z.of_nat cols /\ int64 x) ->
      get_screen_description self x y observation = Raise OverflowError).
Proof.
  intros Hres Hwf. rewrite (description_resolved self observation o x y Hres).
  split.
  - intros Hix Hiy. split; [|split].
    + split.
      * intros Herr Hin. destruct Hin as [Hx Hy].
        destruct (description_in_range self o rows cols x y Hwf Hix Hiy Hx Hy)
          as [Heq Hne].
        rewrite Heq in Herr. exact (Hne Herr).
      * intros Hout. apply (description_out_of_range self o rows cols).
        -- apply Hwf.
        -- exact Hix.
        -- exact Hiy.
        -- exact Hout.
    + intros Hx Hy.
      destruct (description_in_range self o rows cols x y Hwf Hix Hiy Hx Hy)
        as [Heq _].
      rewrite Heq. f_equal.
      * destruct (Z.ltb_spec y 0);
          [apply wrap_negative|apply wrap_nonneg]; lia.
      * destruct (Z.ltb_spec x 0);
          [apply wrap_negative|apply wrap_nonneg]; lia.
    + intros Hx Hy.
      destruct (description_in_range self o rows cols x y Hwf Hix Hiy)
        as [Heq Hne]; [lia|lia|].
      rewrite !wrap_nonneg in Heq, Hne by lia.
      rewrite Heq. repeat split; [exact Hne|].
      intros Hascii.
      destruct (ascii_screen_cell (screen_descriptions o) (Z.to_nat y)
                  (Z.to_nat x) Hascii) as [Herr|Hok]; [|exact Hok].
      contradiction.
  - intros [(Hx & _ & Hy)|(Hy & _)]; apply description_overflow.
    + right. split; assumption.
    + left. exact Hy.
Qed.

Lemma description_lookup_bounds_witness :
  resolve idle_env (Some (room_at 1 1)) = Ok (room_at 1 1)
  /\ wf_screen 3 3 (screen_descriptions (room_at 1 1))
  /\ int64 1 /\ int64 0
  /\ (get_screen_description idle_env 1 0 (Some (room_at 1 1))
      = Raise IndexError
      <-> ~ (- 3 <= 1 < 3 /\ - 3 <= 0 < 3))
  /\ get_screen_description idle_env 1 0 (Some (room_at 1 1))
     = Ok (str_of "door")
  /\ get_screen_description idle_env (2 ^ 63) 0 (Some (room_at 1 1))
     = Raise OverflowError.
Proof.
  assert (H1 : int64 1) by (unfold int64; lia).
  assert (H0 : int64 0) by (unfold int64; lia).
  pose proof (description_lookup_bounds idle_env (Some (room_at 1 1))
                (room_at 1 1) 3 3 1 0 eq_refl room_wf) as [Hfit _].
  pose proof (description_lookup_bounds idle_env (Some (room_at 1 1))
                (room_at 1 1) 3 3 (2 ^ 63) 0 eq_refl room_wf) as [_ Hover].
  destruct (Hfit H1 H0) as [Hiff _].
  split; [reflexivity|]. split; [exact room_wf|].
  split; [exact H1|]. split; [exact H0|].
  split; [exact Hiff|]. split; [reflexivity|].
  apply Hover. left. split; [lia|]. split; [lia|exact H0].
Defined.

(** C2 as stated fails: column [-1] is outside the field, yet the lookup
    returns the description of the last column instead of failing. *)
Lemma description_lookup_negative_column :
  get_screen_description idle_env (-1) 0 (Some (room_at 1 1))
  = Ok (str_of "wall")
  /\ ~ ((exists e, get_screen_description idle_env (-1) 0
                     (Some (room_at 1 1)) = Raise e)
        <-> ~ (0 <= -1 < 3 /\ 0 <= 0 < 3)).
Proof.
  split; [reflexivity|].
  intros [_ Hfail]. destruct Hfail as [e He]; [lia|]. discriminate He.
Qed.

(** ** The neighbourhood *)

Lemma comprehension_ok {A B : Type} (f : A -> result B) l ds :
  comprehension f l = Ok ds <-> Forall2 (fun a d => f a = Ok d) l ds.
Proof.
  revert ds. induction l as [|a l IH]; intros ds; cbn.
  - split.
    + intros [= <-]. constructor.
    + intros H. inversion H. reflexivity.
  - destruct (f a) as [b|e] eqn:Hfa; cbn.
    + destruct (comprehension f l) as [bs|e] eqn:Hl; cbn.
      * split.
        -- intros [= <-]. constructor; [exact Hfa|]. apply IH. reflexivity.
        -- intros H. inversion H as [|? d ? ds' Hd Hds]; subst.
           apply IH in Hds. congruence.
      * split; [discriminate|].
        intros H. inversion H as [|? d ? ds' Hd Hds]; subst.
        apply IH in Hds. discriminate.
    + split; [discriminate|].
      intros H. inversion H as [|? d ? ds' Hd Hds]; subst. congruence.
Qed.

Lemma comprehension_length {A B : Type} (f : A -> result B) l ds :
  comprehension f l = Ok ds -> length ds = length l.
Proof.
  intros H. apply comprehension_ok in H.
  symmetry. exact (Forall2_length _ _ _ H).
Qed.

Lemma range3 (z : Z) : range (z - 1) (z + 2) = [z - 1; z; z + 1].
Proof.
  unfold range. replace (z + 2 - (z - 1)) with 3 by lia.
  change (Z.to_nat 3) with 3%nat. cbn [seq map].
  change (Z.of_nat 0) with 0. change (Z.of_nat 1) with 1.
  change (Z.of_nat 2) with 2.
  replace (z - 1 + 0) with (z - 1) by lia.
  replace (z - 1 + 1) with z by lia.
  replace (z - 1 + 2) with (z + 1) by lia. reflexivity.
Qed.

Lemma wrap64_int64 (z : Z) : int64 z -> wrap64 z = z.
Proof.
  unfold int64, wrap64. intros H. rewrite Z.mod_small by lia. lia.
Qed.

Lemma steady_int64 (z : Z) :
  steady z -> int64 (z - 1) /\ int64 z /\ int64 (z + 1) /\ int64 (z + 2).
Proof. unfold steady, int64. lia. Qed.

Lemma range3_steady (z : Z) :
  steady z -> range (wrap64 (z - 1)) (wrap64 (z + 2)) = [z - 1; z; z + 1].
Proof.
  intros H. destruct (steady_int64 z H) as (H1 & _ & _ & H2).
  rewrite !wrap64_int64 by assumption. apply range3.
Qed.

Lemma range_empty (lo hi : Z) : hi <= lo -> range lo hi = [].
Proof.
  intros H. unfold range. replace (Z.to_nat (hi - lo)) with 0%nat by lia.
  reflexivity.
Qed.

(** At the three 64-bit values around which a bound wraps the range is
    empty. *)
Lemma range3_wrapped (z : Z) :
  int64 z -> ~ steady z -> range (wrap64 (z - 1)) (wrap64 (z + 2)) = [].
Proof.
  unfold int64, steady. intros H Hn. apply range_empty.
  assert (Hz : z = - 2 ^ 63 \/ z = 2 ^ 63 - 2 \/ z = 2 ^ 63 - 1) by lia.
  destruct Hz as [-> | [-> | ->]]; vm_compute; discriminate.
Qed.

(** Whatever the anchor holds, each of the two ranges has three elements
    or none. *)
Lemma range3_length (z : Z) :
  length (range (wrap64 (z - 1)) (wrap64 (z + 2))) = 3%nat
  \/ range (wrap64 (z - 1)) (wrap64 (z + 2)) = [].
Proof.
  unfold wrap64.
  replace (z + 2 + 2 ^ 63) with (z - 1 + 2 ^ 63 + 3) by lia.
  rewrite <- (Zplus_mod_idemp_l (z - 1 + 2 ^ 63) 3).
  pose proof (Z.mod_pos_bound (z - 1 + 2 ^ 63) (2 ^ 64) ltac:(lia)) as Ha.
  set (a := (z - 1 + 2 ^ 63) mod 2 ^ 64) in *.
  destruct (Z_lt_dec (a + 3) (2 ^ 64)) as [Hlt|Hge].
  - left. rewrite Z.mod_small by lia. unfold range.
    rewrite length_map, length_seq. lia.
  - right. apply range_empty.
    replace ((a + 3) mod 2 ^ 64) with (a + 3 - 2 ^ 64); [lia|].
    apply (Z.mod_unique (a + 3) (2 ^ 64) 1); lia.
Qed.

Lemma list_prod_nil_r {A B : Type} (l : list A) :
  list_prod l (@nil B) = [].
Proof. induction l as [|a l IH]; [reflexivity|exact IH]. Qed.

Section Neighbourhood.
Context {RM E : Type}.
Implicit Types (self : MiniHack RM E) (o : Observation).

Lemma neighbours_resolved self observation o :
  resolve self observation = Ok o ->
  get_neighbor_descriptions self observation
  = get_neighbor_descriptions self (Some o).
Proof.
  intros Hr. unfold get_neighbor_descriptions. rewrite Hr. reflexivity.
Qed.

Lemma neighbours_ranges self o x y rest :
  blstats o = x :: y :: rest ->
  get_neighbor_descriptions self (Some o)
  = comprehension
      (fun ji => get_screen_description self (snd ji) (fst ji) (Some o))
      (list_prod (range (wrap64 (y - 1)) (wrap64 (y + 2)))
         (range (wrap64 (x - 1)) (wrap64 (x + 2)))).
Proof.
  intros Hb. unfold get_neighbor_descriptions, resolve. cbn [bind].
  rewrite Hb.
  assert (Hs : np.slice 0 2 (x :: y :: rest) = [x; y]).
  { unfold np.slice, np.slice_bound. cbn [length].
    destruct (Z.ltb_spec 0 0); [lia|]. destruct (Z.ltb_spec 2 0); [lia|].
    rewrite Z.min_l by lia. rewrite Z.min_l by lia. reflexivity. }
  rewrite Hs. reflexivity.
Qed.

Lemma neighbours_block self o x y rest :
  blstats o = x :: y :: rest -> steady x -> steady y ->
  get_neighbor_descriptions self (Some o)
  = comprehension
      (fun ji => get_screen_description self (snd ji) (fst ji) (Some o))
      (block9 x y).
Proof.
  intros Hb Hsx Hsy. rewrite (neighbours_ranges self o x y rest Hb).
  rewrite !range3_steady by assumption. reflexivity.
Qed.

(** Around a coordinate where a bound wraps there is no cell to look up. *)
Lemma neighbours_empty self o x y rest :
  blstats o = x :: y :: rest -> int64 x -> int64 y ->
  ~ steady x \/ ~ steady y ->
  get_neighbor_descriptions self (Some o) = Ok [].
Proof.
  intros Hb Hix Hiy Hw. rewrite (neighbours_ranges self o x y rest Hb).
  destruct Hw as [Hw|Hw].
  - rewrite (range3_wrapped x Hix Hw), list_prod_nil_r. reflexivity.
  - rewrite (range3_wrapped y Hiy Hw). reflexivity.
Qed.

Lemma neighbours_length self observation ds :
  get_neighbor_descriptions self observation = Ok ds ->
  length ds = 9%nat \/ ds = [].
Proof.
  unfold get_neighbor_descriptions.
  destruct (resolve self observation) as [o|]; [|discriminate]. cbn [bind].
  destruct (unpack2 _) as [[x y]|]; [|discriminate]. cbn [bind].
  intros H. apply comprehension_length in H.
  destruct (range3_length y) as [Hy|Hy].
  - destruct (range3_length x) as [Hx|Hx].
    + left. rewrite H, List.length_prod, Hx, Hy. reflexivity.
    + right. rewrite Hx, list_prod_nil_r in H.
      destruct ds; [reflexivity|discriminate H].
  - right. rewrite Hy in H. destruct ds; [reflexivity|discriminate H].
Qed.

(** The nine entries, one per cell of the block, in block order. *)
Lemma neighbours_entries self o x y rest ds :
  blstats o = x :: y :: rest -> steady x -> steady y ->
  get_neighbor_descriptions self (Some o) = Ok ds ->
  exists d0 d1 d2 d3 d4 d5 d6 d7 d8,
    ds = [d0; d1; d2; d3; d4; d5; d6; d7; d8]
    /\ get_screen_description self (x - 1) (y - 1) (Some o) = Ok d0
    /\ get_screen_description self x (y - 1) (Some o) = Ok d1
    /\ get_screen_description self (x + 1) (y - 1) (Some o) = Ok d2
    /\ get_screen_description self (x - 1) y (Some o) = Ok d3
    /\ get_screen_description self x y (Some o) = Ok d4
    /\ get_screen_description self (x + 1) y (Some o) = Ok d5
    /\ get_screen_description self (x - 1) (y + 1) (Some o) = Ok d6
    /\ get_screen_description self x (y + 1) (Some o) = Ok d7
    /\ get_screen_description self (x + 1) (y + 1) (Some o) = Ok d8.
Proof.
  intros Hb Hsx Hsy H.
  rewrite (neighbours_block self o x y rest Hb Hsx Hsy) in H.
  apply comprehension_ok in H. unfold block9 in H.
  repeat match goal with
         | H : Forall2 _ (_ :: _) _ |- _ =>
             let d := fresh "d" in
             let Hd := fresh "Hd" in
             inversion H as [|? d ? ? Hd ?]; subst; clear H
         | H : Forall2 _ [] _ |- _ => inversion H; subst; clear H
         end.
  cbn [fst snd] in *.
  do 9 eexists. split; [reflexivity|]. repeat split; assumption.
Qed.

(** All nine lookups succeed on a field of 7-bit terminated buffers when
    the block stays in NumPy's index range. *)
Lemma neighbours_available self o rows cols x y rest :
  blstats o = x :: y :: rest -> steady x -> steady y ->
  wf_screen rows cols (screen_descriptions o) ->
  ascii_screen (screen_descriptions o) ->
  - Z.of_nat cols <= x - 1 -> x + 1 < Z.of_nat cols ->
  - Z.of_nat rows <= y - 1 -> y + 1 < Z.of_nat rows ->
  exists ds, get_neighbor_descriptions self (Some o) = Ok ds.
Proof.
  intros Hb Hsx Hsy Hwf Ha Hx1 Hx2 Hy1 Hy2.
  rewrite (neighbours_block self o x y rest Hb Hsx Hsy).
  unfold steady in Hsx, Hsy.
  assert (Hcell : forall i j,
             int64 i -> int64 j ->
             - Z.of_nat cols <= i < Z.of_nat cols ->
             - Z.of_nat rows <= j < Z.of_nat rows ->
             exists d, get_screen_description self i j (Some o) = Ok d).
  { intros i j Hii Hij Hi Hj.
    destruct (description_in_range self o rows cols i j Hwf Hii Hij Hi Hj)
      as [Heq Hne].
    destruct (ascii_screen_cell (screen_descriptions o) (wrap rows j)
                (wrap cols i) Ha) as [Herr|[d Hd]]; [contradiction|].
    exists d. congruence. }
  unfold block9. cbn [comprehension fst snd].
  repeat match goal with
         | |- context [get_screen_description self ?i ?j (Some o)] =>
             let d := fresh "d" in
             let Hd := fresh "Hd" in
             destruct (Hcell i j) as [d Hd];
               [unfold int64; lia|unfold int64; lia|lia|lia|];
             rewrite Hd; cbn [bind]
         end.
  eexists. reflexivity.
Qed.

(** A block that leaves the index range on any side has no result. *)
Lemma neighbours_unavailable self o rows cols x y rest :
  blstats o = x :: y :: rest -> steady x -> steady y ->
  shape2 rows cols (screen_descriptions o) ->
  ~ (- Z.of_nat cols <= x - 1 /\ x + 1 < Z.of_nat cols
     /\ - Z.of_nat rows <= y - 1 /\ y + 1 < Z.of_nat rows) ->
  forall ds, get_neighbor_descriptions self (Some o) <> Ok ds.
Proof.
  intros Hb Hsx Hsy Hs Hout ds H.
  destruct (neighbours_entries self o x y rest ds Hb Hsx Hsy H)
    as (d0 & d1 & d2 & d3 & d4 & d5 & d6 & d7 & d8 & _ & H0 & _ & _ & _
        & _ & _ & _ & _ & H8).
  destruct (steady_int64 x Hsx) as (Hx1 & _ & Hx2 & _).
  destruct (steady_int64 y Hsy) as (Hy1 & _ & Hy2 & _).
  destruct (decide (- Z.of_nat cols <= x - 1 /\ - Z.of_nat rows <= y - 1))
    as [Hlow|Hlow].
  - rewrite (description_out_of_range self o rows cols (x + 1) (y + 1) Hs
               Hx2 Hy2) in H8 by lia. discriminate.
  - rewrite (description_out_of_range self o rows cols (x - 1) (y - 1) Hs
               Hx1 Hy1) in H0 by lia. discriminate.
Qed.

End Neighbourhood.

Lemma comprehension_raise {A B : Type} (f : A -> result B) l e :
  comprehension f l = Raise e -> exists a, a ∈ l /\ f a = Raise e.
Proof.
  induction l as [|a l IH]; cbn; [discriminate|].
  destruct (f a) as [b|e'] eqn:Hfa; cbn.
  - destruct (comprehension f l) as [bs|e'] eqn:Hl; cbn; [discriminate|].
    intros [= <-]. destruct (IH eq_refl) as (a' & Hin & Ha').
    exists a'. split; [right; exact Hin|exact Ha'].
  - intros [= <-]. exists a. split; [left|exact Hfa].
Qed.

Lemma block9_bounds (x y : Z) (ji : Z * Z) :
  ji ∈ block9 x y ->
  x - 1 <= snd ji <= x + 1 /\ y - 1 <= fst ji <= y + 1.
Proof.
  unfold block9. intros Hin.
  repeat (apply elem_of_cons in Hin as [->|Hin]; [cbn; lia|]).
  inversion Hin.
Qed.

Lemma block9_int64 (x y : Z) (ji : Z * Z) :
  steady x -> steady y -> ji ∈ block9 x y ->
  int64 (snd ji) /\ int64 (fst ji).
Proof.
  intros Hsx Hsy Hin. apply block9_bounds in Hin.
  unfold steady in Hsx, Hsy. unfold int64. lia.
Qed.

(** When every element either has a value or raises [e], and one raises,
    the comprehension raises [e]. *)
Lemma comprehension_first_error {A B : Type} (f : A -> result B) l e :
  (forall a, a ∈ l -> (exists b, f a = Ok b) \/ f a = Raise e) ->
  (exists a, a ∈ l /\ f a = Raise e) ->
  comprehension f l = Raise e.
Proof.
  induction l as [|a l IH]; intros Hall (a' & Hin & Ha').
  - inversion Hin.
  - cbn [comprehension].
    destruct (Hall a) as [[b Hb]|Hb]; [left| |rewrite Hb; reflexivity].
    rewrite Hb. cbn [bind].
    rewrite IH; [reflexivity| |].
    + intros a0 H0. apply Hall. right. exact H0.
    + apply elem_of_cons in Hin as [->|Hin]; [congruence|].
      exists a'. split; assumption.
Qed.

Section Wrapped.
Context {RM E : Type}.
Implicit Types (self : MiniHack RM E) (o : Observation).

(** Over a block inside NumPy's index range, the neighbourhood never
    raises an index error, and every entry it returns is the description
    of the cell its coordinates denote after wrapping. *)
Lemma neighbours_wrapped self o rows cols x y rest :
  blstats o = x :: y :: rest -> steady x -> steady y ->
  wf_screen rows cols (screen_descriptions o) ->
  - Z.of_nat cols <= x - 1 -> x + 1 < Z.of_nat cols ->
  - Z.of_nat rows <= y - 1 -> y + 1 < Z.of_nat rows ->
  get_neighbor_descriptions self (Some o) <> Raise IndexError
  /\ forall ds,
       get_neighbor_descriptions self (Some o) = Ok ds ->
       Forall2
         (fun ji d =>
            cell_description (screen_descriptions o)
              (wrap rows (fst ji)) (wrap cols (snd ji)) = Ok d)
         (block9 x y) ds.
Proof.
  intros Hb Hsx Hsy Hwf Hx1 Hx2 Hy1 Hy2.
  rewrite (neighbours_block self o x y rest Hb Hsx Hsy). split.
  - intros Herr. apply comprehension_raise in Herr as (ji & Hin & Hji).
    destruct (block9_int64 x y ji Hsx Hsy Hin) as [Hii Hij].
    apply block9_bounds in Hin.
    destruct (description_in_range self o rows cols (snd ji) (fst ji) Hwf
                Hii Hij) as [Heq Hne]; [lia|lia|].
    rewrite Heq in Hji. exact (Hne Hji).
  - intros ds Hds. apply comprehension_ok in Hds.
    apply Forall2_same_length_lookup in Hds as [Hlen Hds].
    apply Forall2_same_length_lookup. split; [exact Hlen|].
    intros i ji d Hji Hd. specialize (Hds i ji d Hji Hd). cbn in Hds.
    apply list_elem_of_lookup_2 in Hji.
    destruct (block9_int64 x y ji Hsx Hsy Hji) as [Hii Hij].
    apply block9_bounds in Hji.
    destruct (description_in_range self o rows cols (snd ji) (fst ji) Hwf
                Hii Hij) as [Heq _]; [lia|lia|].
    rewrite <- Heq. exact Hds.
Qed.

(** On a field of terminated 7-bit buffers a block that leaves the index
    range raises an index error. *)
Lemma neighbours_index_error self o rows cols x y rest :
  blstats o = x :: y :: rest -> steady x -> steady y ->
  wf_screen rows cols (screen_descriptions o) ->
  ascii_screen (screen_descriptions o) ->
  ~ block_in_range rows cols x y ->
  get_neighbor_descriptions self (Some o) = Raise IndexError.
Proof.
  intros Hb Hsx Hsy Hwf Ha Hout.
  rewrite (neighbours_block self o x y rest Hb Hsx Hsy).
  apply comprehension_first_error.
  - intros ji Hin. destruct (block9_int64 x y ji Hsx Hsy Hin) as [Hii Hij].
    destruct (decide (- Z.of_nat cols <= snd ji < Z.of_nat cols
                      /\ - Z.of_nat rows <= fst ji < Z.of_nat rows))
      as [[Hi Hj]|Hn].
    + left.
      destruct (description_in_range self o rows cols (snd ji) (fst ji) Hwf
                  Hii Hij Hi Hj) as [Heq Hne].
      rewrite Heq in *.
      destruct (ascii_screen_cell (screen_descriptions o)
                  (wrap rows (fst ji)) (wrap cols (snd ji)) Ha)
        as [Herr|Hok]; [contradiction|exact Hok].
    + right. apply (description_out_of_range self o rows cols); try assumption.
      apply Hwf.
  - destruct (steady_int64 x Hsx) as (Hx1 & _ & Hx2 & _).
    destruct (steady_int64 y Hsy) as (Hy1 & _ & Hy2 & _).
    unfold block_in_range in Hout.
    destruct (decide (- Z.of_nat cols <= x - 1 /\ - Z.of_nat rows <= y - 1))
      as [Hlow|Hlow].
    + exists (y + 1, x + 1). split.
      * unfold block9. repeat (first [left|right]). 
      * apply (description_out_of_range self o rows cols);
          [apply Hwf|exact Hx2|exact Hy2|cbn [fst snd]; lia].
    + exists (y - 1, x - 1). split.
      * left.
      * apply (description_out_of_range self o rows cols);
          [apply Hwf|exact Hx1|exact Hy1|cbn [fst snd]; lia].
Qed.

End Wrapped.

(** C5, as the code has it.  The anchor is held in 64-bit integers.  For
    an anchor with [-2^63 < x, y < 2^63 - 2]: whenever the operation
    returns, it returns exactly nine texts, the lookups of the block's
    cells taken rows outer ([y - 1] to [y + 1]) and columns inner ([x - 1]
    to [x + 1]), the anchor's own at index 4; it returns on every field of
    terminated 7-bit buffers when the block stays inside NumPy's index
    range, and it does not return when the block leaves that range, as it
    does for an anchor on the last row or the last column.  For an anchor
    with a coordinate at which [x - 1] or [x + 2] wraps around, it returns
    the empty list. *)
Theorem neighbour_descriptions_block {RM E : Type} (self : MiniHack RM E)
    observation o rows cols x y rest :
  resolve self observation = Ok o ->
  blstats o = x :: y :: rest ->
  wf_screen rows cols (screen_descriptions o) ->
  (steady x -> steady y ->
   (forall ds,
       get_neighbor_descriptions self observation = Ok ds ->
       length ds = 9%nat
       /\ exists d0 d1 d2 d3 d4 d5 d6 d7 d8,
            ds = [d0; d1; d2; d3; d4; d5; d6; d7; d8]
            /\ get_screen_description self (x - 1) (y - 1) (Some o) = Ok d0
            /\ get_screen_description self x (y - 1) (Some o) = Ok d1
            /\ get_screen_description self (x + 1) (y - 1) (Some o) = Ok d2
            /\ get_screen_description self (x - 1) y (Some o) = Ok d3
            /\ get_screen_description self x y (Some o) = Ok d4
            /\ get_screen_description self (x + 1) y (Some o) = Ok d5
            /\ get_screen_description self (x - 1) (y + 1) (Some o) = Ok d6
            /\ get_screen_description self x (y + 1) (Some o) = Ok d7
            /\ get_screen_description self (x + 1) (y + 1) (Some o) = Ok d8)
   /\ (ascii_screen (screen_descriptions o) ->
       - Z.of_nat cols <= x - 1 -> x + 1 < Z.of_nat cols ->
       - Z.of_nat rows <= y - 1 -> y + 1 < Z.of_nat rows ->
       exists ds, get_neighbor_descriptions self observation = Ok ds)
   /\ (~ (- Z.of_nat cols <= x - 1 /\ x + 1 < Z.of_nat cols
          /\ - Z.of_nat rows <= y - 1 /\ y + 1 < Z.of_nat rows) ->
       forall ds, get_neighbor_descriptions self observation <> Ok ds))
  /\ (int64 x -> int64 y -> ~ steady x \/ ~ steady y ->
      get_neighbor_descriptions self observation = Ok []).
Proof.
  intros Hres Hb Hwf. rewrite (neighbours_resolved self observation o Hres).
  split.
  - intros Hsx Hsy. split; [|split].
    + intros ds Hds.
      destruct (neighbours_entries self o x y rest ds Hb Hsx Hsy Hds)
        as (d0 & d1 & d2 & d3 & d4 & d5 & d6 & d7 & d8 & -> & Hrest).
      split; [reflexivity|].
      exists d0, d1, d2, d3, d4, d5, d6, d7, d8.
      split; [reflexivity|exact Hrest].
    + intros Ha Hx1 Hx2 Hy1 Hy2.
      exact (neighbours_available self o rows cols x y rest Hb Hsx Hsy Hwf Ha
               Hx1 Hx2 Hy1 Hy2).
    + intros Hout.
      apply (neighbours_unavailable self o rows cols x y rest Hb Hsx Hsy);
        [apply Hwf|exact Hout].
  - intros Hix Hiy Hw.
    exact (neighbours_empty self o x y rest Hb Hix Hiy Hw).
Qed.

Lemma neighbour_descriptions_block_witness :
  resolve idle_env (Some (room_at 1 1)) = Ok (room_at 1 1)
  /\ blstats (room_at 1 1) = [1; 1; 0; 0]
  /\ wf_screen 3 3 (screen_descriptions (room_at 1 1))
  /\ steady 1
  /\ get_neighbor_descriptions idle_env (Some (room_at 1 1))
     = Ok (map str_of ["wall"; "door"; "wall"; "floor"; "floor"; "floor";
                       "wall"; "wall"; "altar"]%string)
  /\ exists ds, get_neighbor_descriptions idle_env (Some (room_at 1 1)) = Ok ds.
Proof.
  assert (H1 : steady 1) by (unfold steady; lia).
  pose proof (neighbour_descriptions_block idle_env (Some (room_at 1 1))
                (room_at 1 1) 3 3 1 1 [0; 0] eq_refl eq_refl room_wf)
    as [Hsteady _].
  destruct (Hsteady H1 H1) as (_ & Hsome & _).
  split; [reflexivity|]. split; [reflexivity|]. split; [exact room_wf|].
  split; [exact H1|]. split; [reflexivity|].
  apply Hsome; [exact room_ascii|lia|lia|lia|lia].
Defined.

(** C5 as stated fails for an anchor on the last column: the lookup at
    column [x + 1] is out of range and no list of nine texts comes back. *)
Lemma neighbour_descriptions_last_column :
  get_neighbor_descriptions idle_env (Some (room_at 2 1)) = Raise IndexError
  /\ ~ (exists ds,
           get_neighbor_descriptions idle_env (Some (room_at 2 1)) = Ok ds
           /\ length ds = 9%nat).
Proof.
  split; [reflexivity|]. intros (ds & Hds & _).
  vm_compute in Hds. discriminate Hds.
Qed.

(** C9, as the code has it.  A negative index within [-cols, -1] or
    [-rows, -1] is no index error when the other index is in NumPy's range
    too (both fitting 64 signed bits): the lookup is the description of
    the cell counted from the far edge.  Hence for an anchor on row 0 or
    column 0 whose other neighbours are inside the field ([x + 1 < cols],
    [y + 1 < rows]) the neighbourhood raises no index error, and its
    entries for row [-1] or column [-1] are the descriptions of the last
    row or the last column. *)
Theorem negative_index_wraps {RM E : Type} (self : MiniHack RM E)
    observation o rows cols :
  resolve self observation = Ok o ->
  wf_screen rows cols (screen_descriptions o) ->
  (forall x y,
      int64 x -> int64 y ->
      - Z.of_nat cols <= x < Z.of_nat cols ->
      - Z.of_nat rows <= y < Z.of_nat rows ->
      x < 0 \/ y < 0 ->
      get_screen_description self x y observation <> Raise IndexError
      /\ get_screen_description self x y observation
         = cell_description (screen_descriptions o)
             (Z.to_nat (if y <? 0 then y + Z.of_nat rows else y))
             (Z.to_nat (if x <? 0 then x + Z.of_nat cols else x))
      /\ (ascii_screen (screen_descriptions o) ->
          exists text, get_screen_description self x y observation = Ok text))
  /\ (forall x y rest,
         blstats o = x :: y :: rest ->
         steady x -> steady y ->
         x = 0 \/ y = 0 ->
         0 <= x -> x + 1 < Z.of_nat cols ->
         0 <= y -> y + 1 < Z.of_nat rows ->
         get_neighbor_descriptions self observation <> Raise IndexError
         /\ (forall ds,
                get_neighbor_descriptions self observation = Ok ds ->
                Forall2
                  (fun ji d =>
                     cell_description (screen_descriptions o)
                       (wrap rows (fst ji)) (wrap cols (snd ji)) = Ok d)
                  (block9 x y) ds)
         /\ (x = 0 -> wrap cols (x - 1) = (cols - 1)%nat)
         /\ (y = 0 -> wrap rows (y - 1) = (rows - 1)%nat)
         /\ (ascii_screen (screen_descriptions o) ->
             exists ds, get_neighbor_descriptions self observation = Ok ds)).
Proof.
  intros Hres Hwf. split.
  - intros x y Hix Hiy Hx Hy Hneg.
    rewrite (description_resolved self observation o x y Hres).
    destruct (description_in_range self o rows cols x y Hwf Hix Hiy Hx Hy)
      as [Heq Hne].
    assert (Hwx : wrap cols x
                  = Z.to_nat (if x <? 0 then x + Z.of_nat cols else x)).
    { destruct (Z.ltb_spec x 0);
        [apply wrap_negative|apply wrap_nonneg]; lia. }
    assert (Hwy : wrap rows y
                  = Z.to_nat (if y <? 0 then y + Z.of_nat rows else y)).
    { destruct (Z.ltb_spec y 0);
        [apply wrap_negative|apply wrap_nonneg]; lia. }
    rewrite <- Hwx, <- Hwy. split; [|split; [exact Heq|]].
    + rewrite Heq. exact Hne.
    + intros Ha. rewrite Heq.
      destruct (ascii_screen_cell (screen_descriptions o) (wrap rows y)
                  (wrap cols x) Ha) as [Herr|Hok]; [contradiction|exact Hok].
  - intros x y rest Hb Hsx Hsy Hedge Hx1 Hx2 Hy1 Hy2.
    rewrite (neighbours_resolved self observation o Hres).
    destruct (neighbours_wrapped self o rows cols x y rest Hb Hsx Hsy Hwf)
      as [Hne Hds]; try lia.
    split; [exact Hne|]. split; [exact Hds|].
    split; [|split].
    + intros ->. rewrite wrap_negative by lia. lia.
    + intros ->. rewrite wrap_negative by lia. lia.
    + intros Ha.
      apply (neighbours_available self o rows cols x y rest Hb Hsx Hsy Hwf Ha);
        lia.
Qed.

Lemma negative_index_wraps_witness :
  resolve idle_env (Some (room_at 0 1)) = Ok (room_at 0 1)
  /\ wf_screen 3 3 (screen_descriptions (room_at 0 1))
  /\ int64 (-1) /\ steady 0 /\ steady 1
  /\ get_screen_description idle_env (-1) (-1) (Some (room_at 0 1))
     = Ok (str_of "altar")
  /\ get_screen_description idle_env (-1) (-1) (Some (room_at 0 1))
     = cell_description (screen_descriptions (room_at 0 1)) 2 2
  /\ get_neighbor_descriptions idle_env (Some (room_at 0 1))
     = Ok (map str_of ["wall"; "wall"; "door"; "floor"; "floor"; "floor";
                       "altar"; "wall"; "wall"]%string)
  /\ get_neighbor_descriptions idle_env (Some (room_at 0 1))
     <> Raise IndexError.
Proof.
  assert (Hm : int64 (-1)) by (unfold int64; lia).
  assert (H0 : steady 0) by (unfold steady; lia).
  assert (H1 : steady 1) by (unfold steady; lia).
  pose proof (negative_index_wraps idle_env (Some (room_at 0 1))
                (room_at 0 1) 3 3 eq_refl room_wf) as [Hcell Hblock].
  destruct (Hcell (-1) (-1) Hm Hm) as (_ & Heq & _); [lia|lia|lia|].
  destruct (Hblock 0 1 [0; 0] eq_refl H0 H1) as [Hne _];
    [lia|lia|lia|lia|lia|].
  split; [reflexivity|]. split; [exact room_wf|].
  split; [exact Hm|]. split; [exact H0|]. split; [exact H1|].
  split; [reflexivity|]. split; [exact Heq|].
  split; [reflexivity|exact Hne].
Defined.

(** C9 as stated fails: with [x] in [-cols, -1] the lookup still raises an
    index error when [y] is out of range, and with the anchor on row 0 the
    neighbourhood still raises one when the anchor is on the last column. *)
Lemma negative_index_other_out_of_range :
  get_screen_description idle_env (-1) 3 (Some (room_at 1 1))
  = Raise IndexError
  /\ get_neighbor_descriptions idle_env (Some (room_at 2 0))
     = Raise IndexError
  /\ ~ (forall x y,
           - 3 <= x <= - 1 \/ - 3 <= y <= - 1 ->
           get_screen_description idle_env x y (Some (room_at 1 1))
           <> Raise IndexError)
  /\ ~ (forall x y,
           x = 0 \/ y = 0 -> 0 <= x < 3 -> 0 <= y < 3 ->
           get_neighbor_descriptions idle_env (Some (room_at x y))
           <> Raise IndexError).
Proof.
  split; [reflexivity|]. split; [reflexivity|]. split.
  - intros H. apply (H (-1) 3); [left; lia|reflexivity].
  - intros H. apply (H 2 0); [right; reflexivity|lia|lia|reflexivity].
Qed.

(** ** Substrings and the direction search *)

Lemma is_prefix_spec (p s : str) :
  is_prefix p s = true <-> exists post, s = p ++ post.
Proof.
  revert s. induction p as [|a p IH]; intros s; cbn.
  - split; [intros _; exists s; reflexivity|reflexivity].
  - destruct s as [|b s].
    + split; [discriminate|]. intros [post Hpost]. discriminate.
    + rewrite andb_true_iff, Z.eqb_eq, IH. split.
      * intros [-> [post ->]]. exists post. reflexivity.
      * intros [post [= -> ->]]. split; [reflexivity|].
        exists post. reflexivity.
Qed.

(** [contains] is the substring relation. *)
Lemma contains_spec (name text : str) :
  contains name text = true <-> exists pre post, text = pre ++ name ++ post.
Proof.
  induction text as [|c text IH].
  - cbn [contains]. rewrite orb_false_r, is_prefix_spec. split.
    + intros [post Hpost]. exists [], post. exact Hpost.
    + intros (pre & post & H). destruct pre; [|discriminate].
      exists post. exact H.
  - cbn [contains]. rewrite orb_true_iff, is_prefix_spec, IH. split.
    + intros [[post Hpost]|(pre & post & ->)].
      * exists [], post. exact Hpost.
      * exists (c :: pre), post. reflexivity.
    + intros (pre & post & H). destruct pre as [|c' pre].
      * left. exists post. exact H.
      * right. injection H as -> ->. exists pre, post. reflexivity.
Qed.

Lemma scan_neighbors_first name (i : Z) ds (k : nat) d :
  ds !! k = Some d -> contains name d = true ->
  (forall (j : nat) d', (j < k)%nat -> ds !! j = Some d' ->
                        contains name d' = false) ->
  scan_neighbors name i ds = index_to_dir_action (i + Z.of_nat k).
Proof.
  revert i k. induction ds as [|d0 ds IH]; intros i k Hk Hd Hbefore.
  - discriminate.
  - destruct k as [|k]; cbn [scan_neighbors].
    + injection Hk as ->. rewrite Hd. f_equal. lia.
    + rewrite (Hbefore 0%nat d0) by (try lia; reflexivity).
      rewrite (IH (i + 1) k); [f_equal; lia|exact Hk|exact Hd|].
      intros j d' Hj Hd'. apply (Hbefore (S j) d'); [lia|exact Hd'].
Qed.

Lemma scan_neighbors_none name (i : Z) ds :
  (forall d, d ∈ ds -> contains name d = false) ->
  scan_neighbors name i ds = Ok None.
Proof.
  revert i. induction ds as [|d0 ds IH]; intros i Hnone; [reflexivity|].
  cbn [scan_neighbors]. rewrite (Hnone d0) by left.
  apply IH. intros d Hd. apply Hnone. right. exact Hd.
Qed.

Lemma direction_resolved {RM E : Type} (self : MiniHack RM E) name
    observation ds :
  get_neighbor_descriptions self observation = Ok ds ->
  get_direction_obj self name observation = scan_neighbors name 0 ds.
Proof.
  intros Hds. unfold get_direction_obj.
  destruct (resolve self observation) as [o|e] eqn:Hres.
  - cbn [bind]. rewrite <- (neighbours_resolved self observation o Hres).
    rewrite Hds. reflexivity.
  - unfold get_neighbor_descriptions in Hds. rewrite Hres in Hds.
    discriminate.
Qed.

Lemma direction_raises {RM E : Type} (self : MiniHack RM E) name
    observation e :
  get_neighbor_descriptions self observation = Raise e ->
  get_direction_obj self name observation = Raise e.
Proof.
  intros Hds. unfold get_direction_obj.
  destruct (resolve self observation) as [o|e'] eqn:Hres.
  - cbn [bind]. rewrite <- (neighbours_resolved self observation o Hres).
    rewrite Hds. reflexivity.
  - unfold get_neighbor_descriptions in Hds. rewrite Hres in Hds.
    cbn [bind] in *. injection Hds as ->. reflexivity.
Qed.

(** The search over descriptions that were read. *)
Lemma direction_search {RM E : Type} (self : MiniHack RM E) name observation
    ds :
  get_neighbor_descriptions self observation = Ok ds ->
  (forall (k : nat) d,
      ds !! k = Some d ->
      (exists pre post, d = pre ++ name ++ post) ->
      (forall (j : nat) d', (j < k)%nat -> ds !! j = Some d' ->
                            ~ exists pre post, d' = pre ++ name ++ post) ->
      get_direction_obj self name observation
      = Ok (direction_table (Z.of_nat k))
      /\ index_to_dir_action (Z.of_nat k)
         = Ok (direction_table (Z.of_nat k)))
  /\ ((forall d, d ∈ ds -> ~ exists pre post, d = pre ++ name ++ post) ->
      get_direction_obj self name observation = Ok None).
Proof.
  intros Hds. rewrite (direction_resolved self name observation ds Hds).
  pose proof (neighbours_length self observation ds Hds) as Hlen.
  split.
  - intros k d Hk Hd Hbefore.
    assert (Hk9 : 0 <= Z.of_nat k < 9).
    { apply lookup_lt_Some in Hk.
      destruct Hlen as [Hlen| ->]; [lia|cbn [length] in Hk; lia]. }
    rewrite (scan_neighbors_first name 0 ds k d Hk).
    + rewrite Z.add_0_l.
      split; apply index_to_dir_action_in_range; exact Hk9.
    + apply contains_spec. exact Hd.
    + intros j d' Hj Hd'. specialize (Hbefore j d' Hj Hd').
      destruct (contains name d') eqn:Hc; [|reflexivity].
      apply contains_spec in Hc. contradiction.
  - intros Hnone. apply scan_neighbors_none. intros d Hd.
    specialize (Hnone d Hd).
    destruct (contains name d) eqn:Hc; [|reflexivity].
    apply contains_spec in Hc. contradiction.
Qed.

(** C7, as the code has it.  On a field of terminated 7-bit buffers, with
    the anchor held in 64-bit integers and [-2^63 < x, y < 2^63 - 2]: when
    the 3 by 3 block stays in NumPy's index range, there are nine
    neighbourhood descriptions and the search goes through them in index
    order; the first one that contains [name] as a substring decides the
    result, the direction code of its index (none for index 4), and the
    result is none when no description contains [name].  When the block
    leaves that range, as for an anchor on the last row or the last column,
    the search raises an index error, whatever the neighbours inside the
    field hold.  For an anchor at which a bound of the block wraps around
    there is nothing to search and the result is none.  Whatever the field
    and the anchor: the descriptions that were read are searched in that
    way, and when the neighbourhood cannot be read the search raises what
    reading it raised. *)
Theorem direction_of_first_match {RM E : Type} (self : MiniHack RM E)
    name observation :
  (forall o rows cols x y rest,
      resolve self observation = Ok o ->
      blstats o = x :: y :: rest ->
      wf_screen rows cols (screen_descriptions o) ->
      ascii_screen (screen_descriptions o) ->
      (steady x -> steady y -> block_in_range rows cols x y ->
       exists ds,
         get_neighbor_descriptions self observation = Ok ds
         /\ length ds = 9%nat
         /\ (forall (k : nat) d,
                ds !! k = Some d ->
                (exists pre post, d = pre ++ name ++ post) ->
                (forall (j : nat) d', (j < k)%nat -> ds !! j = Some d' ->
                   ~ exists pre post, d' = pre ++ name ++ post) ->
                get_direction_obj self name observation
                = Ok (direction_table (Z.of_nat k))
                /\ index_to_dir_action (Z.of_nat k)
                   = Ok (direction_table (Z.of_nat k)))
         /\ ((forall d, d ∈ ds -> ~ exists pre post, d = pre ++ name ++ post) ->
             get_direction_obj self name observation = Ok None))
      /\ (steady x -> steady y -> ~ block_in_range rows cols x y ->
          get_direction_obj self name observation = Raise IndexError)
      /\ (int64 x -> int64 y -> ~ steady x \/ ~ steady y ->
          get_direction_obj self name observation = Ok None))
  /\ (forall ds,
         get_neighbor_descriptions self observation = Ok ds ->
         (forall (k : nat) d,
             ds !! k = Some d ->
             (exists pre post, d = pre ++ name ++ post) ->
             (forall (j : nat) d', (j < k)%nat -> ds !! j = Some d' ->
                ~ exists pre post, d' = pre ++ name ++ post) ->
             get_direction_obj self name observation
             = Ok (direction_table (Z.of_nat k))
             /\ index_to_dir_action (Z.of_nat k)
                = Ok (direction_table (Z.of_nat k)))
         /\ ((forall d, d ∈ ds -> ~ exists pre post, d = pre ++ name ++ post) ->
             get_direction_obj self name observation = Ok None))
  /\ (forall e,
         get_neighbor_descriptions self observation = Raise e ->
         get_direction_obj self name observation = Raise e).
Proof.
  split; [|split; [exact (direction_search self name observation)
                  |intros e; apply direction_raises]].
  intros o rows cols x y rest Hres Hb Hwf Ha.
  split; [|split].
  - intros Hsx Hsy (Hx1 & Hx2 & Hy1 & Hy2).
    destruct (neighbours_available self o rows cols x y rest Hb Hsx Hsy
                Hwf Ha Hx1 Hx2 Hy1 Hy2) as [ds Hds].
    rewrite <- (neighbours_resolved self observation o Hres) in Hds.
    exists ds. split; [exact Hds|]. split.
    + rewrite (neighbours_resolved self observation o Hres) in Hds.
      destruct (neighbours_entries self o x y rest ds Hb Hsx Hsy Hds)
        as (d0 & d1 & d2 & d3 & d4 & d5 & d6 & d7 & d8 & -> & _).
      reflexivity.
    + exact (direction_search self name observation ds Hds).
  - intros Hsx Hsy Hout. apply direction_raises.
    rewrite (neighbours_resolved self observation o Hres).
    exact (neighbours_index_error self o rows cols x y rest Hb Hsx Hsy
             Hwf Ha Hout).
  - intros Hix Hiy Hw.
    rewrite (direction_resolved self name observation []); [reflexivity|].
    rewrite (neighbours_resolved self observation o Hres).
    exact (neighbours_empty self o x y rest Hb Hix Hiy Hw).
Qed.

Lemma direction_of_first_match_witness :
  resolve idle_env (Some (room_at 1 1)) = Ok (room_at 1 1)
  /\ blstats (room_at 1 1) = [1; 1; 0; 0]
  /\ wf_screen 3 3 (screen_descriptions (room_at 1 1))
  /\ ascii_screen (screen_descriptions (room_at 1 1))
  /\ steady 1 /\ steady 2 /\ block_in_range 3 3 1 1
  /\ ~ block_in_range 3 3 2 1
  /\ get_neighbor_descriptions idle_env (Some (room_at 1 1))
     = Ok (map str_of ["wall"; "door"; "wall"; "floor"; "floor"; "floor";
                       "wall"; "wall"; "altar"]%string)
  /\ get_direction_obj idle_env (str_of "door") (Some (room_at 1 1))
     = Ok (Some (ord "k"))
  /\ get_direction_obj idle_env (str_of "stairs") (Some (room_at 1 1))
     = Ok None
  /\ get_direction_obj idle_env (str_of "door") (Some (room_at 2 1))
     = Raise IndexError.
Proof.
  assert (H1 : steady 1) by (unfold steady; lia).
  assert (H2 : steady 2) by (unfold steady; lia).
  assert (Hin : block_in_range 3 3 1 1) by (unfold block_in_range; lia).
  assert (Hout : ~ block_in_range 3 3 2 1) by (unfold block_in_range; lia).
  pose proof (direction_of_first_match idle_env (str_of "door")
                (Some (room_at 1 1))) as (Hdoor & _ & _).
  pose proof (direction_of_first_match idle_env (str_of "stairs")
                (Some (room_at 1 1))) as (Hstairs & _ & _).
  pose proof (direction_of_first_match idle_env (str_of "door")
                (Some (room_at 2 1))) as (Hedge & _ & _).
  destruct (Hdoor (room_at 1 1) 3%nat 3%nat 1 1 [0; 0] eq_refl eq_refl
              room_wf room_ascii) as (Hblock & _ & _).
  destruct (Hblock H1 H1 Hin) as (ds & Hds & _ & Hfirst & _).
  vm_compute in Hds. injection Hds as <-.
  destruct (Hstairs (room_at 1 1) 3%nat 3%nat 1 1 [0; 0] eq_refl eq_refl
              room_wf room_ascii) as (Hblock' & _ & _).
  destruct (Hblock' H1 H1 Hin) as (ds' & Hds' & _ & _ & Hnone).
  vm_compute in Hds'. injection Hds' as <-.
  destruct (Hedge (room_at 2 1) 3%nat 3%nat 2 1 [0; 0] eq_refl eq_refl
              room_wf room_ascii) as (_ & Hraise & _).
  split; [reflexivity|]. split; [reflexivity|]. split; [exact room_wf|].
  split; [exact room_ascii|].
  split; [exact H1|]. split; [exact H2|]. split; [exact Hin|].
  split; [exact Hout|]. split; [reflexivity|]. split; [|split].
  - destruct (Hfirst 1%nat (str_of "door") eq_refl) as [Hdir _].
    + exists [], []. reflexivity.
    + intros j d' Hj Hd' Hex. destruct j as [|j]; [|lia].
      injection Hd' as <-. apply contains_spec in Hex. discriminate Hex.
    + exact Hdir.
  - apply Hnone. intros d Hd Hex. apply contains_spec in Hex.
    cbn in Hd.
    repeat (apply elem_of_cons in Hd as [->|Hd]; [discriminate Hex|]).
    inversion Hd.
  - exact (Hraise H2 H1 Hout).
Defined.

(** C7 as stated fails for an anchor on the last column: the cell to the
    north-west of the anchor holds a door, yet the search raises an index
    error instead of returning the code of index 0; and for a name that no
    neighbour holds it raises too, instead of returning none. *)
Lemma direction_last_column_raises :
  get_screen_description idle_env 1 0 (Some (room_at 2 1))
  = Ok (str_of "door")
  /\ get_direction_obj idle_env (str_of "door") (Some (room_at 2 1))
     = Raise IndexError
  /\ get_direction_obj idle_env (str_of "stairs") (Some (room_at 2 1))
     = Raise IndexError
  /\ ~ (get_direction_obj idle_env (str_of "door") (Some (room_at 2 1))
        = Ok (Some (ord "y")))
  /\ ~ (get_direction_obj idle_env (str_of "stairs") (Some (room_at 2 1))
        = Ok None).
Proof.
  split; [reflexivity|]. split; [reflexivity|]. split; [reflexivity|].
  split; intros H; vm_compute in H; discriminate H.
Qed.

(** ** The inventory *)

Lemma all_zero_spec (line : list byte) :
  np.all (eq_zero line) = true <-> Forall (fun b => b = x00) line.
Proof.
  unfold np.all. induction line as [|b line IH]; cbn.
  - split; [constructor|reflexivity].
  - unfold id at 1. rewrite andb_true_iff, IH, eqb_x00, Forall_cons.
    reflexivity.
Qed.

Lemma scan_inventory_first name pairs (k : nat) letter line text :
  pairs !! k = Some (letter, line) ->
  Forall (passed_over name) (take k pairs) ->
  np.all (eq_zero line) = false ->
  decode line = Ok text -> contains name text = true ->
  scan_inventory name pairs = (key <- decode [letter] ;; Ok (Some key)).
Proof.
  revert k. induction pairs as [|[l0 ln0] pairs IH]; intros k Hk Hpre Hnz Hdec Hin.
  - discriminate.
  - destruct k as [|k]; cbn [scan_inventory].
    + injection Hk as -> ->. rewrite Hnz, Hdec. cbn [bind]. rewrite Hin.
      reflexivity.
    + cbn [take] in Hpre. apply Forall_cons in Hpre as [[Hnz0 Hp0] Hpre].
      destruct Hp0 as (t0 & Hd0 & Hc0). cbn [snd] in *.
      rewrite Hnz0, Hd0. cbn [bind]. rewrite Hc0.
      exact (IH k Hk Hpre Hnz Hdec Hin).
Qed.

Lemma scan_inventory_stop name pairs (k : nat) letter line :
  pairs !! k = Some (letter, line) ->
  Forall (passed_over name) (take k pairs) ->
  np.all (eq_zero line) = true ->
  scan_inventory name pairs = Ok None.
Proof.
  revert k. induction pairs as [|[l0 ln0] pairs IH]; intros k Hk Hpre Hz.
  - discriminate.
  - destruct k as [|k]; cbn [scan_inventory].
    + injection Hk as -> ->. rewrite Hz. reflexivity.
    + cbn [take] in Hpre. apply Forall_cons in Hpre as [[Hnz0 Hp0] Hpre].
      destruct Hp0 as (t0 & Hd0 & Hc0). cbn [snd] in *.
      rewrite Hnz0, Hd0. cbn [bind]. rewrite Hc0.
      exact (IH k Hk Hpre Hz).
Qed.

Lemma scan_inventory_none name pairs :
  Forall (passed_over name) pairs -> scan_inventory name pairs = Ok None.
Proof.
  induction 1 as [|[l0 ln0] pairs [Hnz0 (t0 & Hd0 & Hc0)] Hpre IH];
    [reflexivity|].
  cbn [scan_inventory]. cbn [snd] in *.
  rewrite Hnz0, Hd0. cbn [bind]. rewrite Hc0. exact IH.
Qed.

(** C10: the lookup goes through the (letter, line) pairs in order and
    returns the decoded letter of the first line whose decoded text
    contains [name]; it stops at the first all-zero line and returns
    [None] there, whatever the lines after it hold, and it returns [None]
    when it reaches the end without a match. *)
Theorem key_in_inventory_first_match {RM E : Type} `{!NetHackStaircase E}
    (self : MiniHack RM E) name o :
  key_in "inv_strs" _observation_keys = true ->
  key_in "inv_letters" _observation_keys = true ->
  last_observation self = Some o ->
  let pairs := zip (inv_letters o) (inv_strs o) in
  (forall (k : nat) letter line text,
      pairs !! k = Some (letter, line) ->
      Forall (passed_over name) (take k pairs) ->
      ~ Forall (fun b => b = x00) line ->
      decode line = Ok text ->
      (exists pre post, text = pre ++ name ++ post) ->
      key_in_inventory self name = (key <- decode [letter] ;; Ok (Some key))
      /\ (byte_val letter < 128 ->
          key_in_inventory self name = Ok (Some [byte_val letter])))
  /\ (forall (k : nat) letter line,
         pairs !! k = Some (letter, line) ->
         Forall (passed_over name) (take k pairs) ->
         Forall (fun b => b = x00) line ->
         key_in_inventory self name = Ok None)
  /\ (Forall (passed_over name) pairs -> key_in_inventory self name = Ok None).
Proof.
  intros Hk1 Hk2 Hlast pairs.
  assert (Hkey : key_in_inventory self name = scan_inventory name pairs).
  { unfold key_in_inventory, resolve. rewrite Hk1, Hk2, Hlast. reflexivity. }
  rewrite Hkey. split; [|split].
  - intros k letter line text Hk Hpre Hnz Hdec Hin.
    assert (Hscan : scan_inventory name pairs
                    = (key <- decode [letter] ;; Ok (Some key))).
    { apply (scan_inventory_first name pairs k letter line text);
        try assumption.
      - destruct (np.all (eq_zero line)) eqn:Hz; [|reflexivity].
        apply all_zero_spec in Hz. contradiction.
      - apply contains_spec. exact Hin. }
    split; [exact Hscan|].
    intros Hascii. rewrite Hscan.
    rewrite (decode_ascii [letter]) by (constructor; [exact Hascii|constructor]).
    reflexivity.
  - intros k letter line Hk Hpre Hz.
    apply (scan_inventory_stop name pairs k letter line); try assumption.
    apply all_zero_spec. exact Hz.
  - apply scan_inventory_none.
Qed.

Lemma key_in_inventory_first_match_witness :
  key_in "inv_strs" (@_observation_keys _ room_parent) = true
  /\ key_in "inv_letters" (@_observation_keys _ room_parent) = true
  /\ last_observation room_env = Some (room_at 1 1)
  /\ @key_in_inventory _ _ room_parent room_env (str_of "key")
     = Ok (Some (str_of "b"))
  /\ @key_in_inventory _ _ room_parent room_env (str_of "rusty") = Ok None.
Proof.
  pose proof (@key_in_inventory_first_match unit _ room_parent room_env
                (str_of "key") (room_at 1 1) eq_refl eq_refl eq_refl)
    as [Hfirst _].
  pose proof (@key_in_inventory_first_match unit _ room_parent room_env
                (str_of "rusty") (room_at 1 1) eq_refl eq_refl eq_refl)
    as [_ [Hstop _]].
  split; [reflexivity|]. split; [reflexivity|]. split; [reflexivity|]. split.
  - destruct (Hfirst 1%nat "b"%byte (buffer_of 16 "a skeleton key")
                (map byte_val (buffer_of 16 "a skeleton key")) eq_refl)
      as [_ Hletter].
    + constructor; [|constructor]. split; [reflexivity|].
      eexists. split; reflexivity.
    + intros Hz. inversion Hz as [|? ? Hb _]. discriminate Hb.
    + reflexivity.
    + exists (str_of "a skeleton "), [0; 0].
      reflexivity.
    + apply Hletter. reflexivity.
  - apply (Hstop 2%nat "c"%byte (buffer_of 16 "")); [reflexivity| |].
    + constructor; [|constructor; [|constructor]];
        (split; [reflexivity|]; eexists; split; reflexivity).
    + cbn. repeat constructor.
Defined.

(** ** The episode-end decision *)

Lemma no_flags_no_termination (s : Engine.State) prev action curr :
  Forall (fun ts => Engine.terminal_sufficient (fst ts) = false
                    /\ Engine.terminal_required (fst ts) = false)
         (Engine.triggers s) ->
  fst (Engine.evaluate_step s prev action curr) = false.
Proof.
  intros Hflags. unfold Engine.evaluate_step. cbn [fst].
  apply orb_false_iff. split.
  - apply not_true_is_false. intros Hex.
    apply existsb_exists in Hex as (ts & Hin & Hts).
    rewrite Forall_forall in Hflags.
    destruct (Hflags ts) as [Hsuff _]; [apply list_elem_of_In; exact Hin|].
    rewrite Hsuff, andb_false_r in Hts. discriminate.
  - apply andb_false_iff. right.
    apply not_true_is_false. intros Hex.
    apply existsb_exists in Hex as (ts & Hin & Hts).
    apply in_map_iff in Hin as (ts0 & <- & Hin0). cbn [fst] in Hts.
    rewrite Forall_forall in Hflags.
    destruct (Hflags ts0) as [_ Hreq]; [apply list_elem_of_In; exact Hin0|].
    congruence.
Qed.

Section EpisodeEnd.
Context {RM E : Type}.
Context `{!RewardManager RM E} `{!NetHackStaircase E}.
Implicit Types (self : MiniHack RM E).

Lemma episode_end_with_manager self observation m prev action :
  reward_manager self = Some m ->
  _previous self = Some (prev, action) ->
  _is_episode_end self observation
  = Ok (if fst (check_episode_end_call m self prev action observation)
        then TASK_SUCCESSFUL
        else parent_is_episode_end observation,
        log ManagerCheck
          (set_manager
             (Some (snd (check_episode_end_call m self prev action
                           observation)))
             self)).
Proof.
  intros Hm Hp. unfold _is_episode_end. rewrite Hm, Hp.
  destruct (check_episode_end_call m self prev action observation)
    as [[|] m']; reflexivity.
Qed.

Lemma episode_end_without_manager self observation :
  reward_manager self = None ->
  _is_episode_end self observation
  = Ok (parent_is_episode_end observation, self).
Proof. intros Hm. unfold _is_episode_end. rewrite Hm. reflexivity. Qed.

Lemma step_unfold self action :
  step self action
  = (r <- _is_episode_end (stepping self action)
            (snd (engine_step (engine self) action)) ;;
     let '(end_status, self') := r in
     let '(reward, self'') :=
       _reward_fn self' (last_observation self)
         (snd (engine_step (engine self) action)) end_status in
     Ok (snd (engine_step (engine self) action), reward, end_status, self'')).
Proof.
  unfold step, parent_step, stepping. cbn [engine last_observation set_previous].
  destruct (engine_step (engine self) action) as [e observation].
  reflexivity.
Qed.

(** The status a step reports. *)
Lemma step_status self action :
  let observation := snd (engine_step (engine self) action) in
  match reward_manager self with
  | Some m =>
      exists reward self',
        step self action
        = Ok (observation, reward,
              if fst (check_episode_end_call m (stepping self action)
                        (last_observation self) action observation)
              then TASK_SUCCESSFUL
              else parent_is_episode_end observation,
              self')
        /\ is_Some (reward_manager self')
        /\ trace self'
           = trace self ++ [EngineStep action; ManagerCheck; ManagerCollect]
  | None =>
      exists reward self',
        step self action
        = Ok (observation, reward, parent_is_episode_end observation, self')
        /\ reward_manager self' = None
        /\ trace self' = trace self ++ [EngineStep action]
  end.
Proof.
  intros observation. rewrite step_unfold. fold observation.
  destruct (reward_manager self) as [m|] eqn:Hm.
  - rewrite (episode_end_with_manager (stepping self action) observation m
               (last_observation self) action)
      by (first [exact Hm | reflexivity]).
    cbn [bind]. unfold _reward_fn. cbn [reward_manager log set_manager].
    destruct (collect_reward _) as [r m''].
    do 2 eexists. split; [reflexivity|]. split; [eexists; reflexivity|].
    cbn. rewrite <- !app_assoc. reflexivity.
  - rewrite (episode_end_without_manager (stepping self action) observation)
      by (cbn; assumption).
    cbn [bind]. unfold _reward_fn.
    replace (reward_manager (stepping self action)) with (@None RM)
      by (symmetry; exact Hm).
    do 2 eexists. split; [reflexivity|].
    split; [exact Hm|reflexivity].
Qed.

End EpisodeEnd.

(** C3: with a reward manager whose check on (previous observation,
    previous action, observation) returns true the decision is
    [TASK_SUCCESSFUL]; when the check returns false, and when there is no
    reward manager, the decision is the parent's staircase decision.  A
    step hands the check the observation held before the step, the action
    of the step and the new observation.  With the manager of the
    specification, triggers without termination flags always leave the
    decision to the parent. *)
Theorem episode_end_decision {RM E : Type}
    `{!RewardManager RM E} `{!NetHackStaircase E}
    (self : MiniHack RM E) (observation : Observation) :
  (forall m prev action,
      reward_manager self = Some m ->
      _previous self = Some (prev, action) ->
      (fst (check_episode_end_call m self prev action observation) = true ->
       exists self',
         _is_episode_end self observation = Ok (TASK_SUCCESSFUL, self'))
      /\ (fst (check_episode_end_call m self prev action observation) = false ->
          exists self',
            _is_episode_end self observation
            = Ok (parent_is_episode_end observation, self')))
  /\ (reward_manager self = None ->
      _is_episode_end self observation
      = Ok (parent_is_episode_end observation, self))
  /\ (forall action,
         let current := snd (engine_step (engine self) action) in
         (forall m,
             reward_manager self = Some m ->
             exists reward self',
               step self action
               = Ok (current, reward,
                     if fst (check_episode_end_call m (stepping self action)
                               (last_observation self) action current)
                     then TASK_SUCCESSFUL
                     else parent_is_episode_end current,
                     self'))
         /\ (reward_manager self = None ->
             exists reward self',
               step self action
               = Ok (current, reward, parent_is_episode_end current, self')))
  /\ (forall (env : MiniHack Engine.State E) m prev action,
         reward_manager env = Some m ->
         _previous env = Some (prev, action) ->
         Forall (fun ts => Engine.terminal_sufficient (fst ts) = false
                           /\ Engine.terminal_required (fst ts) = false)
                (Engine.triggers m) ->
         exists env',
           _is_episode_end env observation
           = Ok (parent_is_episode_end observation, env')).
Proof.
  split; [|split; [|split]].
  - intros m prev action Hm Hp.
    rewrite (episode_end_with_manager self observation m prev action Hm Hp).
    split; intros ->; eexists; reflexivity.
  - apply episode_end_without_manager.
  - intros action current. pose proof (step_status self action) as Hstep.
    cbv zeta in Hstep. fold current in Hstep. split.
    + intros m Hm. rewrite Hm in Hstep.
      destruct Hstep as (reward & self' & Hs & _).
      exists reward, self'. exact Hs.
    + intros Hm. rewrite Hm in Hstep.
      destruct Hstep as (reward & self' & Hs & _).
      exists reward, self'. exact Hs.
  - intros env m prev action Hm Hp Hflags.
    rewrite (episode_end_with_manager env observation m prev action Hm Hp).
    cbn [check_episode_end_call engine_manager].
    rewrite (no_flags_no_termination m prev action observation Hflags).
    eexists. reflexivity.
Qed.

Lemma episode_end_decision_witness :
  (exists self',
      @_is_episode_end _ _ engine_manager room_parent
        (in_step squeak_manager) heard_squeak
      = Ok (TASK_SUCCESSFUL, self'))
  /\ (exists self',
         @_is_episode_end _ _ engine_manager room_parent
           (in_step squeak_manager) (room_at 1 1)
         = Ok (RUNNING, self'))
  /\ (exists self',
         @_is_episode_end _ _ engine_manager room_parent
           (in_step bonus_manager) heard_squeak
         = Ok (RUNNING, self')).
Proof.
  pose proof (@episode_end_decision _ _ engine_manager room_parent
                (in_step squeak_manager) heard_squeak) as [Hyes _].
  pose proof (@episode_end_decision _ _ engine_manager room_parent
                (in_step squeak_manager) (room_at 1 1)) as [Hno _].
  pose proof (@episode_end_decision _ _ engine_manager room_parent
                (in_step bonus_manager) heard_squeak) as (_ & _ & _ & Hflags).
  split; [|split].
  - destruct (Hyes squeak_manager (Some (room_at 1 1)) 0 eq_refl eq_refl)
      as [H _].
    apply H. reflexivity.
  - destruct (Hno squeak_manager (Some (room_at 1 1)) 0 eq_refl eq_refl)
      as [_ H].
    apply H. reflexivity.
  - apply (Hflags (in_step bonus_manager) bonus_manager
             (Some (room_at 1 1)) 0 eq_refl eq_refl).
    repeat constructor.
Defined.

(** ** Manager resets and episodes *)

Lemma guarded_app_other (tr evs : list Event) :
  resets_guarded tr -> tr <> [] -> ParentReset ∉ evs ->
  resets_guarded (tr ++ evs).
Proof.
  intros [H0 Hi] Hne Hnot. split.
  - destruct tr as [|ev tr]; [contradiction|]. exact H0.
  - intros i Hlook. apply lookup_app_Some in Hlook as [Hl|[_ Hr]].
    + rewrite lookup_app_l by (apply lookup_lt_Some in Hl; lia).
      apply Hi. exact Hl.
    + exfalso. apply Hnot. eapply list_elem_of_lookup_2. exact Hr.
Qed.

Lemma guarded_app_reset (tr : list Event) :
  resets_guarded tr -> resets_guarded (tr ++ [ManagerReset; ParentReset]).
Proof.
  intros [H0 Hi]. split.
  - destruct tr as [|ev tr]; [discriminate|exact H0].
  - intros i Hlook. apply lookup_app_Some in Hlook as [Hl|[Hge Hr]].
    + rewrite lookup_app_l by (apply lookup_lt_Some in Hl; lia).
      apply Hi. exact Hl.
    + destruct (S i - length tr)%nat as [|[|k]] eqn:Hk; try discriminate.
      assert (i = length tr) as -> by lia.
      rewrite lookup_app_r by lia. rewrite Nat.sub_diag. reflexivity.
Qed.

Lemma manager_resets_app (tr evs : list Event) :
  manager_resets (tr ++ evs) = (manager_resets tr + manager_resets evs)%nat.
Proof.
  unfold manager_resets. rewrite List.filter_app, length_app. reflexivity.
Qed.

Section Episodes.
Context {RM E : Type}.
Context `{!RewardManager RM E} `{!NetHackStaircase E}.
Implicit Types (self : MiniHack RM E).

Lemma reset_with_manager self m :
  reward_manager self = Some m ->
  reward_manager (fst (reset self)) = Some (rm_reset m)
  /\ trace (fst (reset self)) = trace self ++ [ManagerReset; ParentReset].
Proof.
  intros Hm. unfold reset, reset_manager. rewrite Hm.
  cbn [engine log set_manager].
  destruct (parent_reset (engine self)) as [e observation].
  cbn. rewrite <- app_assoc. split; reflexivity.
Qed.

Lemma reset_managed n self :
  managed n self -> managed (S n) (fst (reset self)).
Proof.
  intros ([m Hm] & Hg & Hn & rest & Hrest).
  destruct (reset_with_manager self m Hm) as [Hm' Htr].
  unfold managed. rewrite Hm', Htr. repeat split.
  - eexists. reflexivity.
  - apply guarded_app_reset, Hg.
  - intros i. apply guarded_app_reset. exact Hg.
  - rewrite manager_resets_app, Hn.
    change (manager_resets [ManagerReset; ParentReset]) with 1%nat. lia.
  - rewrite Hrest. eexists. reflexivity.
Qed.

Lemma step_managed n self action r :
  managed n self -> step self action = Ok r -> managed n (snd r).
Proof.
  intros ([m Hm] & Hg & Hn & rest & Hrest) Hstep.
  pose proof (step_status self action) as Hs. cbv zeta in Hs.
  rewrite Hm in Hs. destruct Hs as (reward & self' & Heq & Hsome & Htr).
  rewrite Heq in Hstep. injection Hstep as <-. cbn [snd].
  unfold managed. rewrite Htr. split; [exact Hsome|]. split; [|split].
  - apply guarded_app_other; [exact Hg|rewrite Hrest; discriminate|].
    intros Hin.
    repeat (apply elem_of_cons in Hin as [Hin|Hin]; [discriminate|]).
    inversion Hin.
  - rewrite manager_resets_app, Hn.
    change (manager_resets [EngineStep action; ManagerCheck; ManagerCollect])
      with 0%nat. lia.
  - rewrite Hrest. eexists. reflexivity.
Qed.

Lemma run_managed calls : forall n self self',
  managed n self -> run calls self = Ok self' ->
  managed (n + call_resets calls) self'.
Proof.
  induction calls as [|c calls IH]; intros n self self' Hinv Hrun.
  - cbn in Hrun. injection Hrun as <-.
    unfold call_resets. cbn. rewrite Nat.add_0_r. exact Hinv.
  - destruct c as [|action]; cbn [run] in Hrun.
    + replace (n + call_resets (CallReset :: calls))%nat
        with (S n + call_resets calls)%nat
        by (unfold call_resets; cbn; lia).
      apply (IH (S n) (fst (reset self))); [|exact Hrun].
      apply reset_managed. exact Hinv.
    + destruct (step self action) as [r|e] eqn:Hstep; [|discriminate].
      cbn [bind] in Hrun.
      replace (n + call_resets (CallStep action :: calls))%nat
        with (n + call_resets calls)%nat
        by (unfold call_resets; cbn; lia).
      apply (IH n (snd r)); [|exact Hrun].
      apply (step_managed n self action r Hinv Hstep).
Qed.

Lemma init_managed (args : InitArgs RM) m self :
  arg_reward_manager args = Some m -> __init__ args = Ok self ->
  managed 1 self.
Proof.
  intros Hm Hinit.
  destruct (init_inv args self Hinit) as (_ & _ & _ & _ & Hrm & Htr).
  rewrite Hm in Hrm, Htr. unfold managed. rewrite Hrm, Htr.
  split; [eexists; reflexivity|]. split; [|split].
  - split; [discriminate|].
    intros [|[|[|i]]]; cbn; discriminate.
  - reflexivity.
  - eexists. reflexivity.
Qed.

End Episodes.

Section Runs.
Context {RM E : Type}.
Context `{!RewardManager RM E} `{!NetHackStaircase E}.
Implicit Types (self : MiniHack RM E).


(** A run on an environment with a manager never raises, and makes
    exactly the calls of [call_trace true], call by call. *)
Lemma run_with_manager calls : forall self,
  is_Some (reward_manager self) ->
  exists self',
    run calls self = Ok self'
    /\ trace self' = trace self ++ flat_map (call_trace true) calls
    /\ is_Some (reward_manager self').
Proof.
  induction calls as [|c calls IH]; intros self Hsome.
  - exists self. cbn. rewrite app_nil_r. repeat split; assumption.
  - destruct c as [|action]; cbn [run flat_map call_trace].
    + destruct Hsome as [m Hm].
      destruct (reset_with_manager self m Hm) as [Hm' Htr].
      destruct (IH (fst (reset self))) as (self' & Hrun & Htrace & Hs');
        [rewrite Hm'; eexists; reflexivity|].
      exists self'. split; [exact Hrun|]. split; [|exact Hs'].
      rewrite Htrace, Htr, <- app_assoc. reflexivity.
    + pose proof (step_status self action) as Hstep. cbv zeta in Hstep.
      destruct Hsome as [m Hm]. rewrite Hm in Hstep.
      destruct Hstep as (reward & self1 & Heq & Hs1 & Htr).
      rewrite Heq. cbn [bind snd].
      destruct (IH self1 Hs1) as (self' & Hrun & Htrace & Hs').
      exists self'. split; [exact Hrun|]. split; [|exact Hs'].
      rewrite Htrace, Htr, <- app_assoc. reflexivity.
Qed.


End Runs.

(** C4: an environment built with a reward manager has reset it once
    during construction, before the parent constructor runs; every call of
    [reset] resets it again, directly before the parent (and with it the
    engine) is reset; hence over any run of resets and steps each episode
    start follows a manager reset, the first event of all is a manager
    reset, and the manager has been reset once per [reset] call plus once
    for the construction. *)
Theorem manager_reset_before_every_episode {RM E : Type}
    `{!RewardManager RM E} `{!NetHackStaircase E} :
  (forall (args : InitArgs RM) m (self : MiniHack RM E),
      arg_reward_manager args = Some m -> __init__ args = Ok self ->
      reward_manager self = Some (rm_reset m)
      /\ trace self = [ManagerReset; ParentInit; PatchNhdat])
  /\ (forall (self : MiniHack RM E) m,
         reward_manager self = Some m ->
         reward_manager (fst (reset self)) = Some (rm_reset m)
         /\ trace (fst (reset self))
            = trace self ++ [ManagerReset; ParentReset])
  /\ (forall (args : InitArgs RM) m (self self' : MiniHack RM E) calls,
         arg_reward_manager args = Some m -> __init__ args = Ok self ->
         run calls self = Ok self' ->
         resets_guarded (trace self')
         /\ (exists rest, trace self' = ManagerReset :: rest)
         /\ manager_resets (trace self') = S (call_resets calls)).
Proof.
  split; [|split].
  - intros args m self Hm Hinit.
    destruct (init_inv args self Hinit) as (_ & _ & _ & _ & Hrm & Htr).
    rewrite Hm in Hrm, Htr. split; assumption.
  - intros self m Hm. apply reset_with_manager. exact Hm.
  - intros args m self self' calls Hm Hinit Hrun.
    pose proof (init_managed args m self Hm Hinit) as Hinv.
    destruct (run_managed calls 1 self self' Hinv Hrun)
      as (_ & Hg & Hn & Hfirst).
    split; [exact Hg|]. split; [exact Hfirst|exact Hn].
Qed.

Lemma manager_reset_before_every_episode_witness :
  exists self self',
    @__init__ _ _ engine_manager memory_parent
      (window_args 5 5 (Some squeak_manager)) = Ok self
    /\ @run _ _ engine_manager memory_parent memory_calls self = Ok self'
    /\ trace self'
       = [ManagerReset; ParentInit; PatchNhdat;
          ManagerReset; ParentReset;
          EngineStep 108; ManagerCheck; ManagerCollect;
          ManagerReset; ParentReset;
          EngineStep 108; ManagerCheck; ManagerCollect]
    /\ resets_guarded (trace self')
    /\ manager_resets (trace self') = 3%nat.
Proof.
  pose proof (@manager_reset_before_every_episode _ _ engine_manager
                memory_parent) as (_ & _ & Hrun).
  destruct (@init_odd _ _ engine_manager memory_parent
              (window_args 5 5 (Some squeak_manager)) eq_refl eq_refl eq_refl)
    as (self & Hinit & _ & _ & _ & Hrm & Htr).
  destruct (@run_with_manager _ _ engine_manager memory_parent memory_calls
              self) as (self' & Hcalls & Htrace & _);
    [rewrite Hrm; eexists; reflexivity|].
  exists self, self'.
  destruct (Hrun (window_args 5 5 (Some squeak_manager)) squeak_manager
              self self' memory_calls eq_refl Hinit Hcalls)
    as (Hg & _ & Hn).
  split; [exact Hinit|]. split; [exact Hcalls|].
  split; [|split; [exact Hg|exact Hn]].
  rewrite Htrace, Htr. reflexivity.
Defined.

Lemma even_window_rejected_at_construction_witness :
  @__init__ _ _ engine_manager room_parent (window_args 4 5 None)
  = Raise AssertionError
  /\ @__init__ _ _ engine_manager room_parent (window_args 5 6 None)
     = Raise AssertionError
  /\ exists win,
       _crop_observation even_env grid3 (1, 1) = Ok win /\ shape2 5 5 win.
Proof.
  pose proof (@even_window_rejected_at_construction _ _ engine_manager
                room_parent) as (Hinit & _ & Hcrop).
  split; [|split].
  - apply Hinit. left. reflexivity.
  - apply Hinit. right. reflexivity.
  - apply (Hcrop even_env grid3 3%nat 3%nat 1 1 2);
      [lia|reflexivity|reflexivity| |lia|lia].
    split; [reflexivity|]. repeat constructor.
Defined.

(** ** Runs, steps and rewards *)


Section StepFacts.
Context {RM E : Type}.
Context `{!RewardManager RM E} `{!NetHackStaircase E}.
Implicit Types (self : MiniHack RM E).




End StepFacts.





(** ** When the window cannot be cut *)

Lemma half_negative (n : Z) : n / 2 < 0 <-> n < 0.
Proof.
  split.
  - intros H. destruct (Z.lt_ge_cases n 0) as [Hn|Hn]; [exact Hn|].
    pose proof (Z.div_pos n 2 Hn). lia.
  - intros H. apply Z.div_lt_upper_bound; lia.
Qed.

Lemma crop_raises {RM E : Type} (self : MiniHack RM E) obs loc :
  obs_crop_h self < 0 \/ obs_crop_w self < 0 ->
  _crop_observation self obs loc = Raise ValueError.
Proof.
  intros Hneg. unfold _crop_observation. destruct loc as [x y].
  rewrite pad_negative; [reflexivity|].
  rewrite !half_negative. tauto.
Qed.

Lemma crop_returns {RM E : Type} (self : MiniHack RM E) obs loc :
  0 <= obs_crop_h self -> 0 <= obs_crop_w self ->
  exists win, _crop_observation self obs loc = Ok win.
Proof.
  intros Hh Hw. unfold _crop_observation. destruct loc as [x y].
  rewrite pad_ok.
  - eexists. reflexivity.
  - apply Z.div_pos; lia.
  - apply Z.div_pos; lia.
Qed.

(** X4: cutting the window fails exactly when a window size is negative,
    and then with a value error from the padding; with sizes that are not
    negative it returns a window for every field and every anchor, inside
    the field or not. *)
Theorem crop_fails_only_on_negative_size {RM E : Type}
    (self : MiniHack RM E) (obs : list (list Z)) (loc : Z * Z) :
  (obs_crop_h self < 0 \/ obs_crop_w self < 0 ->
   _crop_observation self obs loc = Raise ValueError)
  /\ (0 <= obs_crop_h self -> 0 <= obs_crop_w self ->
      exists win, _crop_observation self obs loc = Ok win).
Proof.
  split; [apply crop_raises|apply crop_returns].
Qed.

Lemma crop_fails_only_on_negative_size_witness :
  _crop_observation (bare_env (RM:=unit) tt (-3) 5 0) grid3 (1, 1)
  = Raise ValueError
  /\ exists win, _crop_observation idle_env grid3 (7, -4) = Ok win.
Proof.
  destruct (crop_fails_only_on_negative_size (bare_env (RM:=unit) tt (-3) 5 0)
              grid3 (1, 1)) as [Hneg _].
  destruct (crop_fails_only_on_negative_size idle_env grid3 (7, -4))
    as [_ Hpos].
  split.
  - apply Hneg. left. reflexivity.
  - apply Hpos; discriminate.
Defined.



(** ** What a description lookup reads *)

Lemma item_error {A : Type} (l : list A) (i : Z) e :
  np.item l i = Raise e -> e = IndexError.
Proof.
  unfold np.item, np.index.
  destruct (_ && _); cbn [bind].
  - destruct (l !! _); [discriminate|]. intros [= <-]. reflexivity.
  - destruct (_ && _); cbn [bind].
    + destruct (l !! _); [discriminate|]. intros [= <-]. reflexivity.
    + intros [= <-]. reflexivity.
Qed.

Lemma getitem_zero_error {A : Type} (l : list A) e :
  np.getitem l 0 = Raise e -> e = IndexError.
Proof.
  rewrite (getitem_int64 l 0 int64_zero). apply item_error.
Qed.

(** A lookup raises an overflow error only for an index in [2^63, 2^64);
    any other error of its is an index error or a decoding error. *)
Lemma description_error {RM E : Type} (self : MiniHack RM E) x y observation e :
  get_screen_description self x y observation = Raise e ->
  e = IndexError \/ e = UnicodeDecodeError
  \/ (e = OverflowError /\ (2 ^ 63 <= x < 2 ^ 64 \/ 2 ^ 63 <= y < 2 ^ 64)).
Proof.
  unfold get_screen_description, resolve, np.getitem2.
  destruct observation as [o|]; [|destruct (last_observation self) as [o|]].
  3:{ cbn. intros [= <-]. left. reflexivity. }
  all: cbn [bind];
    destruct (np.intp y) as [y'|e0] eqn:Hy; cbn [bind];
    [|intros [= <-]; apply intp_error in Hy as [[-> Hy]|[-> _]];
      [right; right; split; [reflexivity|right; exact Hy]|left; reflexivity]];
    destruct (np.intp x) as [x'|e0] eqn:Hx; cbn [bind];
    [|intros [= <-]; apply intp_error in Hx as [[-> Hx]|[-> _]];
      [right; right; split; [reflexivity|left; exact Hx]|left; reflexivity]];
    destruct (np.item (screen_descriptions o) y') as [row|e1] eqn:Hrow;
    cbn [bind];
    [|apply item_error in Hrow; intros [= <-]; left; exact Hrow];
    destruct (np.item row x') as [buf|e2] eqn:Hbuf; cbn [bind];
    [|apply item_error in Hbuf; intros [= <-]; left; exact Hbuf];
    destruct (np.getitem (np.where1 (eq_zero buf)) 0) as [n|e3] eqn:Hn;
    cbn [bind];
    [|apply getitem_zero_error in Hn; intros [= <-]; left; exact Hn];
    intros Hd; right; left; exact (decode_error _ _ Hd).
Qed.

(** The lookup, by the buffer of the cell the indices denote. *)
Lemma description_by_buffer {RM E : Type} (self : MiniHack RM E) o rows cols
    x y :
  shape2 rows cols (screen_descriptions o) ->
  int64 x -> int64 y ->
  - Z.of_nat cols <= x < Z.of_nat cols ->
  - Z.of_nat rows <= y < Z.of_nat rows ->
  exists buf,
    cell (screen_descriptions o) (wrap rows y) (wrap cols x) = Some buf
    /\ get_screen_description self x y (Some o)
       = (symb_len <- np.getitem (np.where1 (eq_zero buf)) 0 ;;
          decode (np.slice 0 symb_len buf)).
Proof.
  intros Hs Hix Hiy Hx Hy. pose proof Hs as [Hlen _].
  unfold get_screen_description, resolve. cbn [bind].
  rewrite getitem2_int64 by assumption.
  destruct (item_in_range (screen_descriptions o) y)
    as (row & Hrow & ->); [lia|].
  cbn [bind]. rewrite Hlen in Hrow.
  pose proof (shape2_row _ _ _ _ _ Hs Hrow) as Hrl.
  destruct (item_in_range row x) as (buf & Hbuf & ->); [lia|].
  cbn [bind]. rewrite Hrl in Hbuf.
  exists buf. split; [|reflexivity].
  unfold cell. rewrite Hrow. exact Hbuf.
Qed.

Lemma trim_app_zero (text tail : list byte) :
  x00 ∉ text -> trim (text ++ x00 :: tail) = text.
Proof.
  induction text as [|b text IH]; intros Hnz; [reflexivity|].
  cbn. destruct (Byte.eqb b x00) eqn:Hb.
  - apply eqb_x00 in Hb. subst. exfalso. apply Hnz. left.
  - f_equal. apply IH. intros Hin. apply Hnz. right. exact Hin.
Qed.

(** X6: only the bytes before the first zero byte of a cell's buffer count:
    when the buffer is [text], a zero byte and anything at all after it,
    the lookup is the decoding of [text] (and [text] itself on 7-bit
    bytes), whatever follows the zero byte. *)
Theorem description_ignores_bytes_after_zero {RM E : Type}
    (self : MiniHack RM E) o rows cols x y (text tail : list byte) :
  shape2 rows cols (screen_descriptions o) ->
  int64 x -> int64 y ->
  - Z.of_nat cols <= x < Z.of_nat cols ->
  - Z.of_nat rows <= y < Z.of_nat rows ->
  cell (screen_descriptions o) (wrap rows y) (wrap cols x)
  = Some (text ++ x00 :: tail) ->
  x00 ∉ text ->
  get_screen_description self x y (Some o) = decode text
  /\ (Forall (fun b => byte_val b < 128) text ->
      get_screen_description self x y (Some o) = Ok (map byte_val text)).
Proof.
  intros Hs Hix Hiy Hx Hy Hcell Hnz.
  destruct (description_by_buffer self o rows cols x y Hs Hix Hiy Hx Hy)
    as (buf & Hbuf & Heq).
  rewrite Hcell in Hbuf. injection Hbuf as <-.
  assert (Hd : get_screen_description self x y (Some o) = decode text).
  { rewrite Heq. rewrite first_zero_found by (apply elem_of_app; right; left).
    cbn [bind]. rewrite slice_trim, trim_app_zero by exact Hnz.
    reflexivity. }
  split; [exact Hd|].
  intros Ha. rewrite Hd. apply decode_ascii. exact Ha.
Qed.

(** X7: a buffer without any zero byte cannot be read: the lookup of such
    a cell raises an index error although the indices are in range. *)
Theorem description_needs_zero_byte {RM E : Type}
    (self : MiniHack RM E) o rows cols x y (buf : list byte) :
  shape2 rows cols (screen_descriptions o) ->
  int64 x -> int64 y ->
  - Z.of_nat cols <= x < Z.of_nat cols ->
  - Z.of_nat rows <= y < Z.of_nat rows ->
  cell (screen_descriptions o) (wrap rows y) (wrap cols x) = Some buf ->
  x00 ∉ buf ->
  get_screen_description self x y (Some o) = Raise IndexError.
Proof.
  intros Hs Hix Hiy Hx Hy Hcell Hnz.
  destruct (description_by_buffer self o rows cols x y Hs Hix Hiy Hx Hy)
    as (buf' & Hbuf & Heq).
  rewrite Hcell in Hbuf. injection Hbuf as <-.
  rewrite Heq, first_zero_missing by exact Hnz. reflexivity.
Qed.

Lemma odd_room_shape : shape2 1 2 (screen_descriptions odd_room).
Proof. split; [reflexivity|]. repeat constructor. Qed.

Lemma description_ignores_bytes_after_zero_witness :
  shape2 1 2 (screen_descriptions odd_room)
  /\ get_screen_description idle_env 0 0 (Some odd_room) = Ok (str_of "door").
Proof.
  split; [exact odd_room_shape|].
  destruct (description_ignores_bytes_after_zero idle_env odd_room 1 2 0 0
              (list_byte_of_string "door") (list_byte_of_string "xyz")
              odd_room_shape) as [_ Hascii];
    [unfold int64; lia|unfold int64; lia|lia|lia|reflexivity| |].
  - intros Hin. cbn in Hin.
    repeat (apply elem_of_cons in Hin as [Hin|Hin]; [discriminate Hin|]).
    inversion Hin.
  - apply Hascii. cbn. repeat (constructor; [reflexivity|]). constructor.
Defined.

Lemma description_needs_zero_byte_witness :
  shape2 1 2 (screen_descriptions odd_room)
  /\ get_screen_description idle_env 1 0 (Some odd_room) = Raise IndexError.
Proof.
  split; [exact odd_room_shape|].
  apply (description_needs_zero_byte idle_env odd_room 1 2 1 0
           (list_byte_of_string "wall") odd_room_shape);
    [unfold int64; lia|unfold int64; lia|lia|lia|reflexivity|].
  intros Hin. cbn in Hin.
  repeat (apply elem_of_cons in Hin as [Hin|Hin]; [discriminate Hin|]).
  inversion Hin.
Defined.

(** ** What the inventory lookup reads *)

Lemma decode_app_ascii (pre rest : list byte) :
  Forall (fun b => byte_val b < 128) pre ->
  decode (pre ++ rest) = (s <- decode rest ;; Ok (map byte_val pre ++ s)).
Proof.
  induction 1 as [|b pre Hb Hpre IH]; cbn [app map].
  - destruct (decode rest); reflexivity.
  - cbn [decode]. destruct (Z.ltb_spec (byte_val b) 128); [|lia].
    rewrite IH. destruct (decode rest); reflexivity.
Qed.

Lemma scan_inventory_raises name pairs (k : nat) letter line e :
  pairs !! k = Some (letter, line) ->
  Forall (passed_over name) (take k pairs) ->
  np.all (eq_zero line) = false ->
  decode line = Raise e ->
  scan_inventory name pairs = Raise e.
Proof.
  revert k. induction pairs as [|[l0 ln0] pairs IH]; intros k Hk Hpre Hnz Hdec.
  - discriminate.
  - destruct k as [|k]; cbn [scan_inventory].
    + injection Hk as -> ->. rewrite Hnz, Hdec. reflexivity.
    + cbn [take] in Hpre. apply Forall_cons in Hpre as [[Hnz0 Hp0] Hpre].
      destruct Hp0 as (t0 & Hd0 & Hc0). cbn [snd] in *.
      rewrite Hnz0, Hd0. cbn [bind]. rewrite Hc0.
      exact (IH k Hk Hpre Hnz Hdec).
Qed.

(** X8: the inventory lookup decodes whole lines, not the part before the
    first zero byte: when the scan reaches a line made of a 7-bit text, a
    zero byte and a tail that is no UTF-8, it raises the decoding error of
    the tail, and no line after it is looked at. *)
Theorem inventory_decodes_whole_lines {RM E : Type} `{!NetHackStaircase E}
    (self : MiniHack RM E) name o (k : nat) letter (text tail : list byte) e :
  key_in "inv_strs" _observation_keys = true ->
  key_in "inv_letters" _observation_keys = true ->
  last_observation self = Some o ->
  zip (inv_letters o) (inv_strs o) !! k = Some (letter, text ++ x00 :: tail) ->
  Forall (passed_over name) (take k (zip (inv_letters o) (inv_strs o))) ->
  Forall (fun b => byte_val b < 128) text ->
  (exists b, b ∈ text /\ b <> x00) ->
  decode tail = Raise e ->
  key_in_inventory self name = Raise e.
Proof.
  intros Hk1 Hk2 Hlast Hk Hpre Hascii [b [Hin Hb]] Htail.
  unfold key_in_inventory, resolve. rewrite Hk1, Hk2, Hlast. cbn [py_assert bind].
  apply (scan_inventory_raises name _ k letter (text ++ x00 :: tail));
    try assumption.
  - destruct (np.all (eq_zero (text ++ x00 :: tail))) eqn:Hz; [|reflexivity].
    apply all_zero_spec in Hz. rewrite Forall_forall in Hz.
    exfalso. apply Hb. apply Hz. apply elem_of_app. left. exact Hin.
  - rewrite decode_app_ascii by exact Hascii.
    cbn [decode]. destruct (Z.ltb_spec (byte_val x00) 128) as [_|Hge];
      [|cbn in Hge; lia].
    rewrite Htail. reflexivity.
Qed.

Lemma inventory_decodes_whole_lines_witness :
  last_observation odd_env = Some odd_room
  /\ @key_in_inventory _ _ room_parent odd_env (str_of "key")
     = Raise UnicodeDecodeError.
Proof.
  split; [reflexivity|].
  apply (@inventory_decodes_whole_lines unit _ room_parent odd_env
           (str_of "key") odd_room 0%nat "a"%byte
           (list_byte_of_string "a sword") [xff] UnicodeDecodeError);
    try reflexivity.
  - constructor.
  - cbn. repeat (constructor; [reflexivity|]). constructor.
  - exists "a"%byte. split; [left|discriminate].
Defined.

(** ** What the direction search can return *)

Lemma range_elem (lo hi z : Z) : z ∈ range lo hi <-> lo <= z < hi.
Proof.
  unfold range. rewrite list_elem_of_In, in_map_iff. split.
  - intros (k & <- & Hk). apply in_seq in Hk. lia.
  - intros Hz. exists (Z.to_nat (z - lo)). split; [lia|].
    apply in_seq. lia.
Qed.

Lemma wrap64_bounds (z : Z) : int64 (wrap64 z).
Proof.
  unfold int64, wrap64.
  pose proof (Z.mod_pos_bound (z + 2 ^ 63) (2 ^ 64) ltac:(lia)). lia.
Qed.

Lemma neighbours_error {RM E : Type} (self : MiniHack RM E) observation e :
  get_neighbor_descriptions self observation = Raise e ->
  e = IndexError \/ e = ValueError \/ e = UnicodeDecodeError.
Proof.
  unfold get_neighbor_descriptions.
  destruct (resolve self observation) as [o|e0] eqn:Hres; cbn [bind].
  2:{ intros [= <-]. unfold resolve in Hres.
      destruct observation; [discriminate|].
      destruct (last_observation self); [discriminate|].
      injection Hres as <-. left. reflexivity. }
  destruct (unpack2 _) as [[x y]|e1] eqn:Hun; cbn [bind].
  2:{ intros [= <-]. right. left. unfold unpack2 in Hun.
      repeat (destruct (np.slice _ _ _) as [|? ?] in Hun;
              try discriminate; try (injection Hun as <-; reflexivity)).
      destruct l as [|? [|? ?]]; try discriminate;
        injection Hun as <-; reflexivity. }
  intros Hc. apply comprehension_raise in Hc as ([j i] & Hin & Hji).
  apply description_error in Hji as [->|[->|[_ Hov]]]; [tauto|tauto|].
  exfalso. apply list_elem_of_In, in_prod_iff in Hin as [Hj Hi].
  apply list_elem_of_In, range_elem in Hj, Hi. cbn [fst snd] in Hov.
  pose proof (wrap64_bounds (y - 1)). pose proof (wrap64_bounds (y + 2)).
  pose proof (wrap64_bounds (x - 1)). pose proof (wrap64_bounds (x + 2)).
  unfold int64 in *. lia.
Qed.

Lemma scan_neighbors_result name (i : Z) ds :
  scan_neighbors name i ds = Ok None
  \/ exists k : nat,
       (k < length ds)%nat
       /\ scan_neighbors name i ds = index_to_dir_action (i + Z.of_nat k).
Proof.
  revert i. induction ds as [|d ds IH]; intros i; [left; reflexivity|].
  cbn [scan_neighbors]. destruct (contains name d).
  - right. exists 0%nat. split; [cbn; lia|]. f_equal. lia.
  - destruct (IH (i + 1)) as [Hnone|(k & Hk & Heq)]; [left; exact Hnone|].
    right. exists (S k). split; [cbn; lia|]. rewrite Heq. f_equal. lia.
Qed.

Lemma direction_table_keys (k : Z) c :
  direction_table k = Some c -> c ∈ compass_keys.
Proof.
  unfold direction_table, compass_keys.
  repeat (destruct (_ =? _);
          [intros [= <-]; cbn; repeat first [left | right]|]).
  discriminate.
Qed.

(** X9: whatever the name and the observation, the direction search
    returns none or one of the eight compass keys, and it never raises an
    assertion, key or attribute error: the index it hands to
    [index_to_dir_action] is always one of the nine. *)
Theorem direction_is_compass_key {RM E : Type} (self : MiniHack RM E)
    (name : str) (observation : option Observation) :
  (forall c, get_direction_obj self name observation = Ok (Some c) ->
             c ∈ compass_keys)
  /\ (forall e, get_direction_obj self name observation = Raise e ->
                e = IndexError \/ e = ValueError \/ e = UnicodeDecodeError).
Proof.
  destruct (get_neighbor_descriptions self observation) as [ds|e0] eqn:Hds.
  - rewrite (direction_resolved self name observation ds Hds).
    pose proof (neighbours_length self observation ds Hds) as Hlen.
    destruct (scan_neighbors_result name 0 ds) as [->|(k & Hk & ->)].
    + split; [discriminate|discriminate].
    + rewrite index_to_dir_action_in_range
        by (destruct Hlen as [Hlen| ->]; [lia|cbn [length] in Hk; lia]).
      split; [|discriminate].
      intros c [= Hc]. exact (direction_table_keys _ _ Hc).
  - rewrite (direction_raises self name observation e0 Hds).
    split; [discriminate|].
    intros e [= <-]. exact (neighbours_error self observation e0 Hds).
Qed.

Lemma direction_is_compass_key_witness :
  get_direction_obj idle_env (str_of "door") (Some (room_at 1 1))
  = Ok (Some 107)
  /\ 107 ∈ compass_keys.
Proof.
  split; [reflexivity|].
  destruct (direction_is_compass_key idle_env (str_of "door")
              (Some (room_at 1 1))) as [Hkeys _].
  apply Hkeys. reflexivity.
Defined.

(** ** The whole-screen search *)

Lemma cells_elem (y x : Z) (ji : Z * Z) :
  ji ∈ list_prod (range 0 y) (range 0 x)
  <-> 0 <= fst ji < y /\ 0 <= snd ji < x.
Proof.
  destruct ji as [j i]. rewrite list_elem_of_In, in_prod_iff.
  rewrite <- !list_elem_of_In, !range_elem. reflexivity.
Qed.

Lemma slice_shape (rows cols : Z) rest :
  np.slice 0 2 (rows :: cols :: rest) = [rows; cols].
Proof.
  unfold np.slice, np.slice_bound. cbn [length].
  destruct (Z.ltb_spec 0 0); [lia|]. destruct (Z.ltb_spec 2 0); [lia|].
  rewrite Z.min_l by lia. rewrite Z.min_l by lia. reflexivity.
Qed.

(** One turn of the loop reads the cell as [get_screen_description] does. *)
Lemma scan_screen_step {RM E : Type} (self : MiniHack RM E) name o j i cells :
  scan_screen name (Ok (screen_descriptions o)) ((j, i) :: cells)
  = (text <- get_screen_description self i j (Some o) ;;
     if contains name text then Ok true
     else scan_screen name (Ok (screen_descriptions o)) cells).
Proof.
  cbn [scan_screen]. unfold get_screen_description, resolve. cbn [bind].
  destruct (np.getitem2 (screen_descriptions o) j i) as [des_arr|]; cbn [bind];
    [|reflexivity].
  destruct (np.getitem (np.where1 (eq_zero des_arr)) 0); reflexivity.
Qed.

Lemma scan_screen_described {RM E : Type} (self : MiniHack RM E) name o
    (descr : Z * Z -> str) cells :
  (forall ji, ji ∈ cells ->
              get_screen_description self (snd ji) (fst ji) (Some o)
              = Ok (descr ji)) ->
  scan_screen name (Ok (screen_descriptions o)) cells
  = Ok (existsb (fun ji => contains name (descr ji)) cells).
Proof.
  induction cells as [|[j i] cells IH]; intros Hall; [reflexivity|].
  rewrite (scan_screen_step self).
  pose proof (Hall (j, i) ltac:(left)) as Hji. cbn [fst snd] in Hji.
  rewrite Hji. cbn [bind existsb]. destruct (contains name (descr (j, i))); [reflexivity|].
  apply IH. intros ji Hin. apply Hall. right. exact Hin.
Qed.

Lemma scan_screen_false {RM E : Type} (self : MiniHack RM E) name o cells :
  scan_screen name (Ok (screen_descriptions o)) cells = Ok false ->
  forall ji, ji ∈ cells ->
    exists text,
      get_screen_description self (snd ji) (fst ji) (Some o) = Ok text
      /\ contains name text = false.
Proof.
  induction cells as [|[j i] cells IH]; intros Hscan ji Hin.
  - inversion Hin.
  - rewrite (scan_screen_step self) in Hscan.
    destruct (get_screen_description self i j (Some o)) as [text|] eqn:Hd;
      [|discriminate].
    cbn [bind] in Hscan.
    destruct (contains name text) eqn:Hc; [discriminate|].
    apply elem_of_cons in Hin as [->|Hin].
    + exists text. split; assumption.
    + exact (IH Hscan ji Hin).
Qed.

Section ScreenSearch.
Context {RM E : Type}.
Implicit Types (self : MiniHack RM E) (o : Observation).

(** On a field of the constant's shape with terminated 7-bit buffers the
    search returns, and says whether some cell's description contains
    [name]. *)
Lemma screen_contains_cells self name o (rows cols : nat) rest :
  int64 (Z.of_nat rows) -> int64 (Z.of_nat cols) ->
  wf_screen rows cols (screen_descriptions o) ->
  ascii_screen (screen_descriptions o) ->
  exists found : bool,
    screen_contains (Z.of_nat rows :: Z.of_nat cols :: rest) self name (Some o)
    = Ok found
    /\ (found = true
        <-> exists (r c : nat) text,
              (r < rows)%nat /\ (c < cols)%nat
              /\ cell_description (screen_descriptions o) r c = Ok text
              /\ contains name text = true).
Proof.
  intros Hir Hic Hwf Ha. unfold screen_contains. rewrite slice_shape.
  cbn [unpack2 bind].
  set (descr := fun ji : Z * Z =>
                  match cell_description (screen_descriptions o)
                          (Z.to_nat (fst ji)) (Z.to_nat (snd ji)) with
                  | Ok text => text
                  | Raise _ => []
                  end).
  assert (Hcell : forall j i,
             0 <= j < Z.of_nat rows -> 0 <= i < Z.of_nat cols ->
             get_screen_description self i j (Some o) = Ok (descr (j, i))
             /\ cell_description (screen_descriptions o) (Z.to_nat j)
                  (Z.to_nat i) = Ok (descr (j, i))).
  { intros j i Hj Hi.
    destruct (description_in_range self o rows cols i j Hwf) as [Heq Hne];
      [unfold int64 in *; lia|unfold int64 in *; lia|lia|lia|].
    rewrite !wrap_nonneg in Heq, Hne by lia.
    destruct (ascii_screen_cell (screen_descriptions o) (Z.to_nat j)
                (Z.to_nat i) Ha) as [Herr|[text Ht]]; [contradiction|].
    unfold descr. cbn [fst snd]. rewrite Heq, Ht. split; reflexivity. }
  rewrite (scan_screen_described self name o descr).
  2:{ intros [j i] Hin. apply cells_elem in Hin. cbn [fst snd] in *.
      apply Hcell; lia. }
  eexists. split; [reflexivity|].
  rewrite existsb_exists. split.
  - intros ([j i] & Hin & Hc).
    apply list_elem_of_In, cells_elem in Hin. cbn [fst snd] in Hin.
    destruct (Hcell j i) as [_ Hd]; [lia|lia|].
    exists (Z.to_nat j), (Z.to_nat i), (descr (j, i)).
    repeat split; try lia; assumption.
  - intros (r & c & text & Hr & Hc & Hd & Hin).
    exists (Z.of_nat r, Z.of_nat c). split.
    + apply list_elem_of_In, cells_elem. cbn [fst snd]. lia.
    + destruct (Hcell (Z.of_nat r) (Z.of_nat c)) as [_ Hd']; [lia|lia|].
      rewrite !Nat2Z.id in Hd'. rewrite Hd in Hd'. injection Hd' as <-.
      exact Hin.
Qed.

End ScreenSearch.

(** X10: on a field that has the shape of [SCREEN_DESCRIPTIONS_SHAPE]
    (its sides fitting 64 signed bits) and terminated 7-bit buffers, the
    screen search never raises and answers true exactly when the
    description of some cell of the field contains [name] as a substring. *)
Theorem screen_contains_some_cell {RM E : Type} (self : MiniHack RM E)
    name o (rows cols : nat) rest :
  int64 (Z.of_nat rows) -> int64 (Z.of_nat cols) ->
  wf_screen rows cols (screen_descriptions o) ->
  ascii_screen (screen_descriptions o) ->
  exists found : bool,
    screen_contains (Z.of_nat rows :: Z.of_nat cols :: rest) self name (Some o)
    = Ok found
    /\ (found = true
        <-> exists (r c : nat) text pre post,
              (r < rows)%nat /\ (c < cols)%nat
              /\ cell_description (screen_descriptions o) r c = Ok text
              /\ text = pre ++ name ++ post).
Proof.
  intros Hir Hic Hwf Ha.
  destruct (screen_contains_cells self name o rows cols rest Hir Hic Hwf Ha)
    as (found & Heq & Hiff).
  exists found. split; [exact Heq|]. rewrite Hiff. split.
  - intros (r & c & text & Hr & Hc & Hd & Hin).
    apply contains_spec in Hin as (pre & post & Ht).
    exists r, c, text, pre, post. repeat split; assumption.
  - intros (r & c & text & pre & post & Hr & Hc & Hd & Ht).
    exists r, c, text. repeat split; try assumption.
    apply contains_spec. exists pre, post. exact Ht.
Qed.

Lemma screen_contains_some_cell_witness :
  wf_screen 3 3 (screen_descriptions (room_at 1 1))
  /\ ascii_screen (screen_descriptions (room_at 1 1))
  /\ screen_contains [3; 3; 8] idle_env (str_of "altar") (Some (room_at 1 1))
     = Ok true
  /\ screen_contains [3; 3; 8] idle_env (str_of "stairs") (Some (room_at 1 1))
     = Ok false
  /\ exists found,
       screen_contains [3; 3; 8] idle_env (str_of "lta") (Some (room_at 1 1))
       = Ok found.
Proof.
  split; [exact room_wf|]. split; [exact room_ascii|].
  split; [reflexivity|]. split; [reflexivity|].
  destruct (screen_contains_some_cell idle_env (str_of "lta") (room_at 1 1)
              3 3 [8] ltac:(unfold int64; lia) ltac:(unfold int64; lia)
              room_wf room_ascii) as (found & Heq & _).
  exists found. exact Heq.
Defined.

Lemma scan_neighbors_some name (i : Z) ds c :
  scan_neighbors name i ds = Ok (Some c) ->
  exists (k : nat) d, ds !! k = Some d /\ contains name d = true.
Proof.
  revert i. induction ds as [|d ds IH]; intros i; [discriminate|].
  cbn [scan_neighbors]. destruct (contains name d) eqn:Hc.
  - intros _. exists 0%nat, d. split; [reflexivity|exact Hc].
  - intros Hs. destruct (IH _ Hs) as (k & d' & Hk & Hd').
    exists (S k), d'. split; assumption.
Qed.

Lemma neighbours_anchor {RM E : Type} (self : MiniHack RM E) o ds :
  get_neighbor_descriptions self (Some o) = Ok ds ->
  exists x y rest, blstats o = x :: y :: rest.
Proof.
  unfold get_neighbor_descriptions, resolve. cbn [bind].
  destruct (blstats o) as [|x [|y rest]].
  - intros H. discriminate H.
  - intros H. discriminate H.
  - intros _. exists x, y, rest. reflexivity.
Qed.

(** X11: what the direction search finds, the screen search finds: on a
    field that has the shape of [SCREEN_DESCRIPTIONS_SHAPE] (its sides
    fitting 64 signed bits) and terminated 7-bit buffers, whenever the
    direction search returns a direction for [name], the screen search for
    [name] answers true. *)
Theorem direction_found_on_screen {RM E : Type} (self : MiniHack RM E)
    name o (rows cols : nat) rest c :
  int64 (Z.of_nat rows) -> int64 (Z.of_nat cols) ->
  wf_screen rows cols (screen_descriptions o) ->
  ascii_screen (screen_descriptions o) ->
  get_direction_obj self name (Some o) = Ok (Some c) ->
  screen_contains (Z.of_nat rows :: Z.of_nat cols :: rest) self name (Some o)
  = Ok true.
Proof.
  intros Hir Hic Hwf Ha Hdir.
  destruct (get_neighbor_descriptions self (Some o)) as [ds|e] eqn:Hds.
  2:{ rewrite (direction_raises self name (Some o) e Hds) in Hdir.
      discriminate. }
  rewrite (direction_resolved self name (Some o) ds Hds) in Hdir.
  destruct (scan_neighbors_some name 0 ds c Hdir) as (k & d & Hk & Hc).
  destruct (neighbours_anchor self o ds Hds) as (x & y & more & Hb).
  rewrite (neighbours_ranges self o x y more Hb) in Hds.
  apply comprehension_ok in Hds.
  destruct (Forall2_lookup_r _ _ _ _ _ Hds Hk) as ([j i] & Hji & Hd).
  cbn [fst snd] in Hd.
  apply list_elem_of_lookup_2, list_elem_of_In, in_prod_iff in Hji
    as [Hj Hi].
  apply list_elem_of_In, range_elem in Hj, Hi.
  assert (Hij : int64 j).
  { pose proof (wrap64_bounds (y - 1)). pose proof (wrap64_bounds (y + 2)).
    unfold int64 in *. lia. }
  assert (Hii : int64 i).
  { pose proof (wrap64_bounds (x - 1)). pose proof (wrap64_bounds (x + 2)).
    unfold int64 in *. lia. }
  destruct (decide (- Z.of_nat cols <= i < Z.of_nat cols
                    /\ - Z.of_nat rows <= j < Z.of_nat rows))
    as [[Hin_i Hin_j]|Hout].
  2:{ rewrite (description_out_of_range self o rows cols i j (proj1 Hwf)
                 Hii Hij Hout) in Hd. discriminate Hd. }
  destruct (description_in_range self o rows cols i j Hwf Hii Hij Hin_i Hin_j)
    as [Heq _].
  rewrite Heq in Hd.
  destruct (screen_contains_cells self name o rows cols rest Hir Hic Hwf Ha)
    as (found & Hfound & Hiff).
  rewrite Hfound. f_equal. apply Hiff.
  exists (wrap rows j), (wrap cols i), d.
  split; [apply wrap_lt; lia|]. split; [apply wrap_lt; lia|].
  split; assumption.
Qed.

Lemma direction_found_on_screen_witness :
  get_direction_obj idle_env (str_of "door") (Some (room_at 1 1))
  = Ok (Some 107)
  /\ screen_contains [3; 3; 8] idle_env (str_of "door") (Some (room_at 1 1))
     = Ok true.
Proof.
  split; [reflexivity|].
  exact (direction_found_on_screen idle_env (str_of "door") (room_at 1 1)
           3 3 [8] 107 ltac:(unfold int64; lia) ltac:(unfold int64; lia)
           room_wf room_ascii eq_refl).
Defined.

(** X12: the screen search walks the cells of [SCREEN_DESCRIPTIONS_SHAPE],
    not those of the field it is given: on a field (its sides fitting 64
    signed bits) with fewer rows or fewer columns than the constant says,
    it never answers false (it answers true from a cell it reaches, or
    raises). *)
Theorem screen_contains_small_field {RM E : Type} (self : MiniHack RM E)
    name o (rows cols : nat) (R C : Z) rest :
  int64 (Z.of_nat rows) -> int64 (Z.of_nat cols) ->
  shape2 rows cols (screen_descriptions o) ->
  0 < R -> 0 < C ->
  Z.of_nat rows < R \/ Z.of_nat cols < C ->
  screen_contains (R :: C :: rest) self name (Some o) <> Ok false.
Proof.
  intros Hir Hic Hs HR HC Hsmall Hfalse.
  unfold screen_contains in Hfalse. rewrite slice_shape in Hfalse.
  cbn [unpack2 bind] in Hfalse.
  pose proof (scan_screen_false self name o _ Hfalse) as Hall.
  destruct (decide (Z.of_nat rows < R)) as [Hr|Hr].
  - destruct (Hall (Z.of_nat rows, 0)) as (text & Hd & _).
    { apply cells_elem. cbn [fst snd]. lia. }
    cbn [fst snd] in Hd.
    rewrite (description_out_of_range self o rows cols 0 (Z.of_nat rows) Hs
               int64_zero Hir) in Hd by lia.
    discriminate.
  - destruct (Hall (0, Z.of_nat cols)) as (text & Hd & _).
    { apply cells_elem. cbn [fst snd]. lia. }
    cbn [fst snd] in Hd.
    rewrite (description_out_of_range self o rows cols (Z.of_nat cols) 0 Hs
               Hic int64_zero) in Hd by lia.
    discriminate.
Qed.

Lemma screen_contains_small_field_witness :
  shape2 3 3 (screen_descriptions (room_at 1 1))
  /\ screen_contains [21; 79; 80] idle_env (str_of "stairs")
       (Some (room_at 1 1)) = Raise IndexError
  /\ screen_contains [21; 79; 80] idle_env (str_of "stairs")
       (Some (room_at 1 1)) <> Ok false.
Proof.
  split; [exact (proj1 room_wf)|]. split; [reflexivity|].
  apply (screen_contains_small_field idle_env (str_of "stairs") (room_at 1 1)
           3 3 21 79 [80] ltac:(unfold int64; lia) ltac:(unfold int64; lia)
           (proj1 room_wf)); lia.
Defined.

(** ** The empty name *)

Lemma range_head (hi : Z) : 0 < hi -> exists t, range 0 hi = 0 :: t.
Proof.
  intros H. unfold range.
  destruct (Z.to_nat (hi - 0)) as [|n] eqn:Hn; [lia|].
  cbn. eexists. reflexivity.
Qed.

Lemma contains_empty (text : str) : contains [] text = true.
Proof. destruct text; reflexivity. Qed.

(** X13: the empty name is contained in every text, so each search stops
    at the first thing it reads: the direction search answers the
    north-west key [y] whenever the neighbourhood can be read and is not
    empty, the screen
    search answers true whenever cell (0, 0) can be read, and the inventory
    lookup answers the first letter whenever the first line is not all
    zero and decodes. *)
Theorem empty_name_matches_first {RM E : Type} `{!NetHackStaircase E}
    (self : MiniHack RM E) (o : Observation) :
  (forall observation ds,
      get_neighbor_descriptions self observation = Ok ds -> ds <> [] ->
      get_direction_obj self [] observation = Ok (Some (ord "y")))
  /\ (forall R C rest text,
         0 < R -> 0 < C ->
         get_screen_description self 0 0 (Some o) = Ok text ->
         screen_contains (R :: C :: rest) self [] (Some o) = Ok true)
  /\ (forall letter line more text,
         key_in "inv_strs" _observation_keys = true ->
         key_in "inv_letters" _observation_keys = true ->
         last_observation self = Some o ->
         zip (inv_letters o) (inv_strs o) = (letter, line) :: more ->
         np.all (eq_zero line) = false ->
         decode line = Ok text ->
         key_in_inventory self []
         = (key <- decode [letter] ;; Ok (Some key))).
Proof.
  split; [|split].
  - intros observation ds Hds Hne.
    rewrite (direction_resolved self [] observation ds Hds).
    destruct ds as [|d ds]; [contradiction|].
    cbn [scan_neighbors]. rewrite contains_empty. reflexivity.
  - intros R C rest text HR HC Hd.
    unfold screen_contains. rewrite slice_shape. cbn [unpack2 bind].
    destruct (range_head R HR) as [tr ->].
    destruct (range_head C HC) as [tc ->].
    cbn [list_prod map app].
    rewrite (scan_screen_step self), Hd. cbn [bind].
    rewrite contains_empty. reflexivity.
  - intros letter line more text Hk1 Hk2 Hlast Hzip Hnz Hdec.
    unfold key_in_inventory, resolve. rewrite Hk1, Hk2, Hlast.
    cbn [py_assert bind]. rewrite Hzip. cbn [scan_inventory].
    rewrite Hnz, Hdec. cbn [bind]. rewrite contains_empty. reflexivity.
Qed.

Lemma empty_name_matches_first_witness :
  get_direction_obj room_env [] None = Ok (Some 121)
  /\ screen_contains [3; 3; 8] room_env [] (Some (room_at 1 1)) = Ok true
  /\ @key_in_inventory _ _ room_parent room_env [] = Ok (Some (str_of "a")).
Proof.
  destruct (@empty_name_matches_first _ _ room_parent room_env (room_at 1 1))
    as (Hdir & Hscreen & Hinv).
  split; [|split].
  - apply (Hdir None _ eq_refl). discriminate.
  - apply (Hscreen 3 3 [8] (str_of "wall")); [lia|lia|reflexivity].
  - apply (Hinv "a"%byte (buffer_of 16 "a long sword")
             (tail (zip (inv_letters (room_at 1 1)) (inv_strs (room_at 1 1))))
             (map byte_val (buffer_of 16 "a long sword")));
      reflexivity.
Defined.

(** ** The window of a 3-D field *)

Section Windows.
Context {A : Type}.
Implicit Types (arr : list (list A)).

(** The window cut out of a padded array, for any kind of cell. *)
Lemma window_of_padded arr rows cols (c : A) (x y dh dw : Z) :
  shape2 rows cols arr ->
  0 <= x < Z.of_nat cols -> 0 <= y < Z.of_nat rows ->
  0 <= dh -> 0 <= dw ->
  y + dh < Z.of_nat rows + dw -> x + dw < Z.of_nat cols + dh ->
  let win :=
    np.slice2 (y + dh - dh) (y + dh + dh + 1) (x + dw - dw) (x + dw + dw + 1)
      (padded arr (Z.to_nat dw) (Z.to_nat dh) c) in
  shape2 (Z.to_nat (2 * dh + 1)) (Z.to_nat (2 * dw + 1)) win
  /\ forall i j : nat,
       Z.of_nat i < 2 * dh + 1 -> Z.of_nat j < 2 * dw + 1 ->
       cell win i j
       = Some (if decide (0 <= y - dw + Z.of_nat i < Z.of_nat rows
                          /\ 0 <= x - dw + Z.of_nat j < Z.of_nat cols)
               then default c (cell arr (Z.to_nat (y - dw + Z.of_nat i))
                                 (Z.to_nat (x - dw + Z.of_nat j)))
               else c).
Proof.
  intros Hs Hx Hy Hdh Hdw Hyfit Hxfit win.
  assert (Hpos : (0 < rows)%nat) by lia.
  set (P := padded arr (Z.to_nat dw) (Z.to_nat dh) c) in *.
  pose proof (padded_shape arr rows cols (Z.to_nat dw) (Z.to_nat dh) c Hs Hpos)
    as HP.
  fold P in HP. pose proof HP as [HPlen HProws].
  unfold win. replace (y + dh - dh) with y by lia.
  replace (x + dw - dw) with x by lia.
  split.
  - split.
    + unfold np.slice2. rewrite length_map.
      rewrite slice_inside_length by lia. lia.
    + unfold np.slice2. rewrite Forall_map.
      rewrite Forall_lookup. intros k row Hk. simpl.
      assert (Hrow_in : row ∈ P).
      { apply list_elem_of_lookup_2 in Hk.
        unfold np.slice in Hk.
        apply subseteq_take in Hk. apply subseteq_drop in Hk.
        exact Hk. }
      rewrite Forall_forall in HProws. specialize (HProws row Hrow_in).
      simpl in HProws.
      rewrite slice_inside_length by lia. lia.
  - intros i j Hi Hj. unfold cell at 1, np.slice2.
    rewrite list_lookup_fmap.
    rewrite slice_inside_lookup by lia.
    destruct (P !! (Z.to_nat y + i)%nat) as [row|] eqn:Hrow.
    2:{ apply lookup_ge_None in Hrow. lia. }
    simpl. pose proof (shape2_row _ _ _ _ _ HP Hrow) as Hlen.
    rewrite slice_inside_lookup by lia.
    pose proof (padded_cell arr rows cols (Z.to_nat dw) (Z.to_nat dh) c
                  (Z.to_nat y + i) (Z.to_nat x + j) Hs Hpos) as Hcell.
    fold P in Hcell. unfold cell at 1 in Hcell. rewrite Hrow in Hcell.
    rewrite Hcell by lia. f_equal.
    destruct (decide (_ /\ _)%nat) as [[Hin1 Hin2]|Hout];
      destruct (decide (_ /\ _)) as [[Hz1 Hz2]|Hzout]; try lia.
    + do 2 f_equal; lia.
    + reflexivity.
Qed.

End Windows.

Lemma pad3_as_padded {A : Type} (arr : list (list (list A))) rows cols depth
    (before after : Z) (c : A) :
  shape3 rows cols depth arr -> (0 < rows)%nat -> (0 < cols)%nat ->
  0 <= before -> 0 <= after ->
  np_pad3 arr before after c
  = Ok (padded
          (map (map (fun buf => replicate (Z.to_nat before) c ++ buf
                                  ++ replicate (Z.to_nat after) c)) arr)
          (Z.to_nat before) (Z.to_nat after)
          (replicate (Z.to_nat before + depth + Z.to_nat after) c)).
Proof.
  intros [[Hr Hc] Hd] Hrows Hcols Hb Ha. unfold np_pad3.
  destruct (Z.ltb_spec before 0); [lia|].
  destruct (Z.ltb_spec after 0); [lia|]. cbn [orb].
  assert (Hdepth : match arr with
                   | (buf :: _) :: _ => length buf
                   | _ => 0%nat
                   end = depth).
  { destruct arr as [|row arr]; [cbn in Hr; lia|].
    inversion Hc as [|? ? Hrow _]; subst.
    destruct row as [|buf row]; [cbn in Hcols; lia|].
    inversion Hd as [|? ? Hbufs _]; subst.
    inversion Hbufs as [|? ? Hbuf _]; subst. reflexivity. }
  rewrite Hdepth. unfold padded.
  assert (Hn : forall w : list A -> list A,
             np.ncols (map (map w) arr) = np.ncols arr).
  { intros w. destruct arr; cbn; rewrite ?length_map; reflexivity. }
  rewrite Hn. f_equal. f_equal. f_equal.
  rewrite map_map. reflexivity.
Qed.

Lemma cell_map {A B : Type} (f : A -> B) (arr : list (list A)) (i j : nat) :
  cell (map (map f) arr) i j = f <$> cell arr i j.
Proof.
  unfold cell. rewrite list_lookup_fmap.
  destruct (arr !! i) as [row|]; cbn; [|reflexivity].
  apply list_lookup_fmap.
Qed.

Lemma shape2_map {A B : Type} (f : A -> B) (arr : list (list A)) rows cols :
  shape2 rows cols arr -> shape2 rows cols (map (map f) arr).
Proof.
  intros [Hr Hc]. split.
  - rewrite length_map. exact Hr.
  - rewrite Forall_map. eapply Forall_impl; [exact Hc|].
    intros row Hrow. cbn. rewrite length_map. exact Hrow.
Qed.

Lemma shape3_cell {A : Type} (arr : list (list (list A))) rows cols depth
    (r c : nat) :
  shape3 rows cols depth arr -> (r < rows)%nat -> (c < cols)%nat ->
  exists buf, cell arr r c = Some buf /\ length buf = depth.
Proof.
  intros [Hs Hd] Hr Hc. pose proof Hs as [Hlen _]. unfold cell.
  destruct (arr !! r) as [row|] eqn:Hrow.
  2:{ apply lookup_ge_None in Hrow. lia. }
  pose proof (shape2_row _ _ _ _ _ Hs Hrow) as Hrl.
  destruct (row !! c) as [buf|] eqn:Hbuf.
  2:{ apply lookup_ge_None in Hbuf. lia. }
  exists buf. split; [reflexivity|].
  rewrite Forall_lookup in Hd. specialize (Hd _ _ Hrow).
  rewrite Forall_lookup in Hd. exact (Hd _ _ Hbuf).
Qed.

Lemma window3_buffers {RM E : Type} (self : MiniHack RM E)
    obs (rows cols depth : nat) x y d :
  obs_crop_h self / 2 = d -> obs_crop_w self / 2 = d -> 0 <= d ->
  shape3 rows cols depth obs ->
  0 <= x < Z.of_nat cols -> 0 <= y < Z.of_nat rows ->
  exists win,
    _crop_observation3 self obs (x, y) = Ok win
    /\ shape3 (Z.to_nat (2 * d + 1)) (Z.to_nat (2 * d + 1))
         (Z.to_nat d + depth + Z.to_nat d) win
    /\ forall i j : nat,
         Z.of_nat i < 2 * d + 1 -> Z.of_nat j < 2 * d + 1 ->
         cell win i j
         = Some (replicate (Z.to_nat d) (obs_crop_pad self)
                   ++ (if decide (0 <= y - d + Z.of_nat i < Z.of_nat rows
                                  /\ 0 <= x - d + Z.of_nat j < Z.of_nat cols)
                       then default []
                              (cell obs (Z.to_nat (y - d + Z.of_nat i))
                                 (Z.to_nat (x - d + Z.of_nat j)))
                       else replicate depth (obs_crop_pad self))
                   ++ replicate (Z.to_nat d) (obs_crop_pad self)).
Proof.
  intros Hh Hw Hd Hs3 Hx Hy. pose proof Hs3 as [Hs Hdepth].
  unfold _crop_observation3. rewrite Hh, Hw.
  rewrite (pad3_as_padded obs rows cols depth d d (obs_crop_pad self) Hs3)
    by lia.
  cbn [bind].
  set (w := fun buf : list Z =>
              replicate (Z.to_nat d) (obs_crop_pad self) ++ buf
                ++ replicate (Z.to_nat d) (obs_crop_pad self)).
  destruct (window_of_padded (map (map w) obs) rows cols
              (replicate (Z.to_nat d + depth + Z.to_nat d) (obs_crop_pad self))
              x y d d (shape2_map w obs rows cols Hs) Hx Hy Hd Hd)
    as [Hshape Hcells]; [lia|lia|].
  eexists. split; [reflexivity|].
  assert (Hcell : forall i j : nat,
             Z.of_nat i < 2 * d + 1 -> Z.of_nat j < 2 * d + 1 ->
             cell (np.slice2 (y + d - d) (y + d + d + 1) (x + d - d)
                     (x + d + d + 1)
                     (padded (map (map w) obs) (Z.to_nat d) (Z.to_nat d)
                        (replicate (Z.to_nat d + depth + Z.to_nat d)
                           (obs_crop_pad self)))) i j
             = Some (w (if decide (0 <= y - d + Z.of_nat i < Z.of_nat rows
                                   /\ 0 <= x - d + Z.of_nat j < Z.of_nat cols)
                        then default []
                               (cell obs (Z.to_nat (y - d + Z.of_nat i))
                                  (Z.to_nat (x - d + Z.of_nat j)))
                        else replicate depth (obs_crop_pad self)))).
  { intros i j Hi Hj. rewrite (Hcells i j Hi Hj). f_equal.
    destruct (decide _) as [[Hr Hc]|Hout].
    - rewrite cell_map.
      destruct (shape3_cell obs rows cols depth
                  (Z.to_nat (y - d + Z.of_nat i))
                  (Z.to_nat (x - d + Z.of_nat j)) Hs3) as (buf & -> & _);
        [lia|lia|].
      reflexivity.
    - unfold w. rewrite <- !replicate_add. f_equal. lia. }
  split; [|exact Hcell].
  split; [exact Hshape|].
  rewrite Forall_lookup. intros i row Hrow.
  rewrite Forall_lookup. intros j buf Hbuf.
  pose proof (shape2_row _ _ _ _ _ Hshape Hrow) as Hrl.
  destruct Hshape as [Hlen _].
  assert (Hi : Z.of_nat i < 2 * d + 1).
  { apply lookup_lt_Some in Hrow. lia. }
  assert (Hj : Z.of_nat j < 2 * d + 1).
  { apply lookup_lt_Some in Hbuf. lia. }
  specialize (Hcell i j Hi Hj). unfold cell at 1 in Hcell.
  rewrite Hrow, Hbuf in Hcell. injection Hcell as ->.
  unfold w. rewrite !length_app, !length_replicate.
  assert (Hmid : length
                   (if decide (0 <= y - d + Z.of_nat i < Z.of_nat rows
                               /\ 0 <= x - d + Z.of_nat j < Z.of_nat cols)
                    then default []
                           (cell obs (Z.to_nat (y - d + Z.of_nat i))
                              (Z.to_nat (x - d + Z.of_nat j)))
                    else replicate depth (obs_crop_pad self)) = depth).
  { destruct (decide _) as [[Hr Hc]|Hout].
    - destruct (shape3_cell obs rows cols depth
                  (Z.to_nat (y - d + Z.of_nat i))
                  (Z.to_nat (x - d + Z.of_nat j)) Hs3) as (b0 & Hb & Hb0);
        [lia|lia|].
      rewrite Hb. exact Hb0.
    - apply length_replicate. }
  rewrite Hmid. lia.
Qed.



(** ** The observation keys *)

Lemma key_in_spec (key : string) (keys : list string) :
  key_in key keys = true <-> key ∈ keys.
Proof.
  unfold key_in. rewrite existsb_exists, list_elem_of_In. split.
  - intros (k & Hin & Heq). apply String.eqb_eq in Heq. subst. exact Hin.
  - intros Hin. exists key. split; [exact Hin|apply String.eqb_refl].
Qed.

Lemma key_in_app (key : string) (l l' : list string) :
  key_in key (l ++ l') = key_in key l || key_in key l'.
Proof. unfold key_in. apply existsb_app. Qed.

Lemma pixel_crop_has_pixel (keys : list string) :
  key_in "pixel_crop" keys = true -> existsb (str_in "pixel") keys = true.
Proof.
  intros Hin. apply key_in_spec, list_elem_of_In in Hin.
  apply existsb_exists. exists "pixel_crop"%string. split; [exact Hin|].
  reflexivity.
Qed.

Lemma init_obs_keys_form (keys : list string) :
  init_obs_keys keys
  = if key_in "pixel_crop" keys
    then append_missing (append_missing keys "glyphs_crop") "chars_crop"
    else keys.
Proof.
  unfold init_obs_keys.
  destruct (key_in "pixel_crop" keys) eqn:Hp.
  - rewrite (pixel_crop_has_pixel keys Hp). reflexivity.
  - destruct (existsb _ keys); reflexivity.
Qed.

Lemma init_obs_keys_extra (keys : list string) :
  init_obs_keys keys
  = keys
      ++ (if key_in "pixel_crop" keys
          then (if key_in "glyphs_crop" keys then []
                else ["glyphs_crop"%string])
                 ++ (if key_in "chars_crop" keys then []
                     else ["chars_crop"%string])
          else []).
Proof.
  rewrite init_obs_keys_form.
  destruct (key_in "pixel_crop" keys); [|rewrite app_nil_r; reflexivity].
  unfold append_missing.
  destruct (key_in "glyphs_crop" keys) eqn:Hg.
  - destruct (key_in "chars_crop" keys) eqn:Hc;
      [rewrite app_nil_r|]; reflexivity.
  - rewrite key_in_app.
    destruct (key_in "chars_crop" keys) eqn:Hc; cbn [orb app].
    + reflexivity.
    + cbn. rewrite <- app_assoc. reflexivity.
Qed.

(** X15: the keys the constructor keeps.  They are the requested keys, in
    their order, followed by [glyphs_crop] and [chars_crop] where
    [pixel_crop] is requested and they are not; so with [pixel_crop] both
    crops are always among them, nothing is added twice, and doing it
    again changes nothing. *)
Theorem init_obs_keys_adds_pixel_sources (keys : list string) :
  (exists extra,
      init_obs_keys keys = keys ++ extra
      /\ forall k, k ∈ extra ->
           (k = "glyphs_crop"%string \/ k = "chars_crop"%string)
           /\ (k ∉ keys) /\ ("pixel_crop"%string ∈ keys))
  /\ ("pixel_crop"%string ∈ keys ->
      "glyphs_crop"%string ∈ init_obs_keys keys
      /\ "chars_crop"%string ∈ init_obs_keys keys)
  /\ ("pixel_crop"%string ∉ keys -> init_obs_keys keys = keys)
  /\ init_obs_keys (init_obs_keys keys) = init_obs_keys keys.
Proof.
  assert (Hno : forall k l, key_in k l = false -> k ∉ l).
  { intros k l Hf Hin. apply key_in_spec in Hin. congruence. }
  split; [|split; [|split]].
  - eexists. split; [apply init_obs_keys_extra|].
    intros k Hk.
    destruct (key_in "pixel_crop" keys) eqn:Hp; [|inversion Hk].
    apply key_in_spec in Hp.
    apply elem_of_app in Hk as [Hk|Hk].
    + destruct (key_in "glyphs_crop" keys) eqn:Hg; [inversion Hk|].
      apply list_elem_of_singleton in Hk as ->.
      split; [left; reflexivity|]. split; [apply Hno; exact Hg|exact Hp].
    + destruct (key_in "chars_crop" keys) eqn:Hc; [inversion Hk|].
      apply list_elem_of_singleton in Hk as ->.
      split; [right; reflexivity|]. split; [apply Hno; exact Hc|exact Hp].
  - intros Hp. apply key_in_spec in Hp.
    rewrite init_obs_keys_extra, Hp.
    split; apply key_in_spec; rewrite !key_in_app.
    + destruct (key_in "glyphs_crop" keys); reflexivity.
    + destruct (key_in "chars_crop" keys);
        [reflexivity|apply orb_true_r].
  - intros Hp. rewrite init_obs_keys_extra.
    destruct (key_in "pixel_crop" keys) eqn:Hp'.
    + apply key_in_spec in Hp'. contradiction.
    + apply app_nil_r.
  - rewrite (init_obs_keys_extra (init_obs_keys keys)).
    destruct (key_in "pixel_crop" keys) eqn:Hp.
    + assert (Hg : key_in "glyphs_crop" (init_obs_keys keys) = true).
      { rewrite init_obs_keys_extra, Hp, !key_in_app.
        destruct (key_in "glyphs_crop" keys); reflexivity. }
      assert (Hc : key_in "chars_crop" (init_obs_keys keys) = true).
      { rewrite init_obs_keys_extra, Hp, !key_in_app.
        destruct (key_in "chars_crop" keys);
          [reflexivity|apply orb_true_r]. }
      rewrite Hg, Hc.
      destruct (key_in "pixel_crop" (init_obs_keys keys));
        apply app_nil_r.
    + assert (Hk : init_obs_keys keys = keys).
      { rewrite init_obs_keys_extra, Hp. apply app_nil_r. }
      rewrite Hk, Hp. apply app_nil_r.
Qed.

Lemma init_obs_keys_adds_pixel_sources_witness :
  init_obs_keys ["pixel_crop"; "chars_crop"; "message"]%string
  = ["pixel_crop"; "chars_crop"; "message"; "glyphs_crop"]%string
  /\ "glyphs_crop"%string
     ∈ init_obs_keys ["pixel_crop"; "chars_crop"; "message"]%string.
Proof.
  split; [reflexivity|].
  destruct (init_obs_keys_adds_pixel_sources
              ["pixel_crop"; "chars_crop"; "message"]%string)
    as (_ & Hsrc & _).
  apply Hsrc. left.
Defined.

(** ** The declared observation space *)

Section ObservationSpace.
Context {RM E : Type}.
Variables (nh : NethackConstants) (self : MiniHack RM E).
Variables (all_keys : list string) (space_dict : gmap string Box).

Local Abbreviation declared := (declared nh self space_dict).

Lemma declared_none (key : string) :
  declared key = None <-> unsupported nh space_dict key.
Proof.
  unfold declared, unsupported.
  destruct (space_dict !! key); [split; [discriminate|intros [? _]; discriminate]|].
  destruct (funcs_get _ key).
  - split; [discriminate|intros [_ ?]; discriminate].
  - split; intros; [split|]; reflexivity.
Qed.

Lemma obs_space_step key keys acc :
  obs_space_loop nh self all_keys space_dict (key :: keys) acc
  = match declared key with
    | Some space =>
        obs_space_loop nh self all_keys space_dict keys (<[key := space]> acc)
    | None =>
        if key_in "pixel" all_keys then
          obs_space_loop nh self all_keys space_dict keys
            (<["pixel"%string := pixel_box nh]> acc)
        else Raise ValueError
    end.
Proof.
  cbn [obs_space_loop]. unfold declared.
  destruct (space_dict !! key); [reflexivity|].
  destruct (funcs_get _ key); reflexivity.
Qed.

Lemma obs_space_raise keys : forall acc e,
  obs_space_loop nh self all_keys space_dict keys acc = Raise e ->
  e = ValueError /\ key_in "pixel" all_keys = false
  /\ exists key, key ∈ keys /\ unsupported nh space_dict key.
Proof.
  induction keys as [|key keys IH]; intros acc e; [discriminate|].
  rewrite obs_space_step.
  destruct (declared key) as [space|] eqn:Hd.
  - intros H. destruct (IH _ _ H) as (He & Hp & k & Hk & Hu).
    repeat split; try assumption. exists k. split; [right|]; assumption.
  - destruct (key_in "pixel" all_keys) eqn:Hp.
    + intros H. destruct (IH _ _ H) as (_ & Hp' & _). discriminate.
    + intros [= <-]. repeat split.
      exists key. split; [left|apply declared_none; exact Hd].
Qed.


Lemma obs_space_dom keys : forall acc d,
  obs_space_loop nh self all_keys space_dict keys acc = Ok d ->
  forall k,
    is_Some (d !! k)
    <-> is_Some (acc !! k)
        \/ (k ∈ keys /\ is_Some (declared k))
        \/ (k = "pixel"%string
            /\ exists key, key ∈ keys /\ unsupported nh space_dict key).
Proof.
  induction keys as [|key keys IH]; intros acc d.
  - intros [= <-] k. split; [tauto|].
    intros [H|[[H _]|(_ & k' & H & _)]]; [exact H|inversion H|inversion H].
  - rewrite obs_space_step.
    destruct (declared key) as [space|] eqn:Hd.
    + intros H k. rewrite (IH _ _ H k). rewrite lookup_insert_is_Some.
      split.
      * intros [[->|[_ Hacc]]|[[Hk Hs]|(Hp & k' & Hk' & Hu)]].
        -- right. left. split; [left|rewrite Hd; eexists; reflexivity].
        -- left. exact Hacc.
        -- right. left. split; [right; exact Hk|exact Hs].
        -- right. right. split; [exact Hp|].
           exists k'. split; [right; exact Hk'|exact Hu].
      * intros [Hacc|[[Hk Hs]|(Hp & k' & Hk' & Hu)]].
        -- left. destruct (decide (key = k)); [left; assumption|].
           right. split; assumption.
        -- apply elem_of_cons in Hk as [->|Hk].
           ++ left. left. reflexivity.
           ++ right. left. split; assumption.
        -- apply elem_of_cons in Hk' as [->|Hk'].
           ++ apply declared_none in Hu. congruence.
           ++ right. right. split; [exact Hp|].
              exists k'. split; assumption.
    + destruct (key_in "pixel" all_keys); [|discriminate].
      intros H k. rewrite (IH _ _ H k). rewrite lookup_insert_is_Some.
      apply declared_none in Hd. split.
      * intros [[<-|[_ Hacc]]|[[Hk Hs]|(Hp & k' & Hk' & Hu)]].
        -- right. right. split; [reflexivity|].
           exists key. split; [left|exact Hd].
        -- left. exact Hacc.
        -- right. left. split; [right; exact Hk|exact Hs].
        -- right. right. split; [exact Hp|].
           exists k'. split; [right; exact Hk'|exact Hu].
      * intros [Hacc|[[Hk Hs]|(Hp & k' & Hk' & Hu)]].
        -- left. destruct (decide ("pixel"%string = k)); [left; assumption|].
           right. split; assumption.
        -- apply elem_of_cons in Hk as [->|Hk].
           ++ apply declared_none in Hd. destruct Hs as [? Hs]. congruence.
           ++ right. left. split; assumption.
        -- left. left. symmetry. exact Hp.
Qed.

Lemma obs_space_value keys : forall acc d,
  obs_space_loop nh self all_keys space_dict keys acc = Ok d ->
  forall k, k <> "pixel"%string ->
    d !! k
    = match (if key_in k keys then declared k else None) with
      | Some space => Some space
      | None => acc !! k
      end.
Proof.
  induction keys as [|key keys IH]; intros acc d.
  - intros [= <-] k _. reflexivity.
  - rewrite obs_space_step. intros H k Hk.
    assert (Hin : key_in k (key :: keys)
                  = String.eqb k key || key_in k keys) by reflexivity.
    rewrite Hin.
    destruct (declared key) as [space|] eqn:Hd.
    + rewrite (IH _ _ H k Hk).
      destruct (String.eqb_spec k key) as [->|Hne]; cbn [orb].
      * rewrite Hd, lookup_insert_eq.
        destruct (key_in key keys); reflexivity.
      * rewrite lookup_insert_ne by congruence. reflexivity.
    + destruct (key_in "pixel" all_keys); [|discriminate].
      rewrite (IH _ _ H k Hk). rewrite lookup_insert_ne by congruence.
      destruct (String.eqb_spec k key) as [->|Hne]; cbn [orb]; [|reflexivity].
      rewrite Hd. destruct (key_in key keys); reflexivity.
Qed.

End ObservationSpace.

Lemma obs_space_total {RM E : Type}
    (nh : NethackConstants) (self : MiniHack RM E) (keys : list string)
    (space_dict : gmap string Box) :
  key_in "pixel" keys = true ->
  exists d, get_obs_space_dict nh self keys space_dict = Ok d.
Proof.
  intros Hp. unfold get_obs_space_dict.
  destruct (obs_space_loop nh self keys space_dict keys ∅) as [d|e] eqn:H.
  - exists d. reflexivity.
  - apply obs_space_raise in H as (_ & Hf & _). congruence.
Qed.

Lemma obs_space_declared {RM E : Type}
    (nh : NethackConstants) (self : MiniHack RM E) (keys : list string)
    (space_dict : gmap string Box) (d : gmap string Box) :
  get_obs_space_dict nh self keys space_dict = Ok d ->
  forall k, k ∈ keys -> k <> "pixel"%string ->
            d !! k = declared nh self space_dict k.
Proof.
  intros H k Hk Hne. unfold get_obs_space_dict in H.
  rewrite (obs_space_value nh self keys space_dict keys ∅ d H k Hne).
  apply key_in_spec in Hk. rewrite Hk, lookup_empty.
  destruct (declared nh self space_dict k); reflexivity.
Qed.

Lemma obs_space_members {RM E : Type}
    (nh : NethackConstants) (self : MiniHack RM E) (keys : list string)
    (space_dict : gmap string Box) (d : gmap string Box) :
  get_obs_space_dict nh self keys space_dict = Ok d ->
  forall k,
    is_Some (d !! k)
    <-> (k ∈ keys /\ ~ unsupported nh space_dict k)
        \/ (k = "pixel"%string
            /\ exists key, key ∈ keys /\ unsupported nh space_dict key).
Proof.
  intros H k. unfold get_obs_space_dict in H.
  rewrite (obs_space_dom nh self keys space_dict keys ∅ d H k).
  rewrite lookup_empty. split.
  - intros [[? Hn]|[[Hk Hs]|Hp]]; [discriminate| |right; exact Hp].
    left. split; [exact Hk|]. intros Hu.
    apply (declared_none nh self) in Hu. destruct Hs as [? Hs]. congruence.
  - intros [[Hk Hs]|Hp]; [|right; right; exact Hp].
    right. left. split; [exact Hk|].
    destruct (declared nh self space_dict k) eqn:Hd; [eexists; reflexivity|].
    apply declared_none in Hd. contradiction.
Qed.




(** X17: the keys of the observation space that was built: every requested
    key that the parent's spaces or [MINIHACK_SPACE_FUNCS] know, and
    [pixel] when some requested key is known to neither.  So with [pixel]
    requested a misspelt key gets no space of its own and no error. *)
Theorem obs_space_keys {RM E : Type}
    (nh : NethackConstants) (self : MiniHack RM E) (keys : list string)
    (space_dict : gmap string Box) (d : gmap string Box) :
  get_obs_space_dict nh self keys space_dict = Ok d ->
  (forall k,
      is_Some (d !! k)
      <-> (k ∈ keys /\ ~ unsupported nh space_dict k)
          \/ (k = "pixel"%string
              /\ exists key, key ∈ keys /\ unsupported nh space_dict key))
  /\ (forall k, k ∈ keys -> k <> "pixel"%string ->
                d !! k = declared nh self space_dict k).
Proof.
  intros H. split.
  - exact (obs_space_members nh self keys space_dict d H).
  - exact (obs_space_declared nh self keys space_dict d H).
Qed.

Lemma obs_space_keys_witness :
  exists d,
    get_obs_space_dict nle_constants idle_env
      ["chars"; "charz_crop"; "chars_crop"; "pixel"]%string nle_spaces = Ok d
    /\ d !! "charz_crop"%string = None
    /\ d !! "chars_crop"%string
       = Some {| low := 0; high := 255; shape := [5; 5]; box_dtype := uint8 |}
    /\ is_Some (d !! "pixel"%string).
Proof.
  destruct (obs_space_total nle_constants idle_env
              ["chars"; "charz_crop"; "chars_crop"; "pixel"]%string nle_spaces
              eq_refl) as [d Hd].
  exists d. split; [exact Hd|].
  destruct (obs_space_keys nle_constants idle_env _ nle_spaces d Hd)
    as [Hdom Hval].
  split; [|split].
  - rewrite Hval; [reflexivity|right; left|discriminate].
  - rewrite Hval; [reflexivity|right; right; left|discriminate].
  - apply Hdom. right. split; [reflexivity|].
    exists "charz_crop"%string. split; [right; left|split; reflexivity].
Defined.

Lemma odd_half (n : Z) : Z.odd n = true -> n = 2 * (n / 2) + 1.
Proof.
  intros Hodd. pose proof (Z.div_mod n 2 ltac:(lia)) as Hdm.
  rewrite Zmod_odd, Hodd in Hdm. exact Hdm.
Qed.

(** X18: declared shapes against the windows that are cut.  With an odd,
    positive size [n] for both sides and the anchor inside the field, the
    space declared for the crop of a 2-D field has shape [(n, n)], which is
    the shape of the window cut from that field.  The space declared for
    the crop of the screen descriptions has shape
    [(n, n, NLE_SCREEN_DESCRIPTION_LENGTH)], while the buffers of the
    window cut from a field of that length are [n - 1] entries longer. *)
Theorem declared_shape_and_window {RM E : Type}
    (nh : NethackConstants) (self : MiniHack RM E) (keys : list string)
    (space_dict : gmap string Box) (d : gmap string Box) (n : Z) :
  get_obs_space_dict nh self keys space_dict = Ok d ->
  obs_crop_h self = n -> obs_crop_w self = n ->
  Z.odd n = true -> 0 < n ->
  (forall key obs (rows cols : nat) x y,
      key ∈ plane_crops -> key ∈ keys -> space_dict !! key = None ->
      shape2 rows cols obs ->
      0 <= x < Z.of_nat cols -> 0 <= y < Z.of_nat rows ->
      exists box win,
        d !! key = Some box
        /\ shape box = [n; n]
        /\ _crop_observation self obs (x, y) = Ok win
        /\ shape2 (Z.to_nat n) (Z.to_nat n) win)
  /\ (forall obs (rows cols depth : nat) x y,
         "screen_descriptions_crop"%string ∈ keys ->
         space_dict !! "screen_descriptions_crop"%string = None ->
         Z.of_nat depth = NLE_SCREEN_DESCRIPTION_LENGTH nh ->
         shape3 rows cols depth obs ->
         0 <= x < Z.of_nat cols -> 0 <= y < Z.of_nat rows ->
         exists box win,
           d !! "screen_descriptions_crop"%string = Some box
           /\ shape box = [n; n; NLE_SCREEN_DESCRIPTION_LENGTH nh]
           /\ _crop_observation3 self obs (x, y) = Ok win
           /\ shape3 (Z.to_nat n) (Z.to_nat n)
                (depth + Z.to_nat (n - 1)) win).
Proof.
  intros Hd Hh Hw Hodd Hpos.
  pose proof (obs_space_declared nh self keys space_dict d Hd) as Hval.
  pose proof (odd_half n Hodd) as Hn.
  assert (Hhalf : 0 <= n / 2) by (apply Z.div_pos; lia).
  split.
  - intros key obs rows cols x y Hplane Hkey Hsd Hs Hx Hy.
    destruct (crop_square_window self obs rows cols x y (n / 2))
      as (win & Hwin & Hshape & _); try assumption;
      [rewrite Hh; reflexivity|rewrite Hw; reflexivity|].
    rewrite <- Hn in Hshape.
    assert (Hbox : exists box,
               declared nh self space_dict key = Some box
               /\ shape box = [n; n] /\ key <> "pixel"%string).
    { unfold declared. rewrite Hsd, Hh, Hw. unfold plane_crops in Hplane.
      repeat (apply elem_of_cons in Hplane as [->|Hplane];
              [eexists; split; [reflexivity|split; [reflexivity|discriminate]]|]).
      inversion Hplane. }
    destruct Hbox as (box & Hdecl & Hsh & Hne).
    exists box, win. rewrite (Hval key Hkey Hne).
    repeat split; assumption || apply Hshape.
  - intros obs rows cols depth x y Hkey Hsd Hdepth Hs Hx Hy.
    destruct (window3_buffers self obs rows cols depth x y (n / 2))
      as (win & Hwin & Hshape & _); try assumption;
      [rewrite Hh; reflexivity|rewrite Hw; reflexivity|].
    rewrite <- Hn in Hshape.
    replace (Z.to_nat (n / 2) + depth + Z.to_nat (n / 2))%nat
      with (depth + Z.to_nat (n - 1))%nat in Hshape by lia.
    eexists. exists win. rewrite (Hval _ Hkey) by discriminate.
    unfold declared. rewrite Hsd, Hh, Hw. cbn.
    split; [reflexivity|]. split; [reflexivity|]. split; assumption.
Qed.

Lemma declared_shape_and_window_witness :
  exists d box win,
    get_obs_space_dict nle_constants (bare_env (RM:=unit) tt 3 3 0)
      ["chars_crop"; "message"]%string nle_spaces = Ok d
    /\ d !! "chars_crop"%string = Some box
    /\ shape box = [3; 3]
    /\ _crop_observation (bare_env (RM:=unit) tt 3 3 0) grid3 (0, 2) = Ok win
    /\ shape2 3 3 win.
Proof.
  destruct (get_obs_space_dict nle_constants (bare_env (RM:=unit) tt 3 3 0)
              ["chars_crop"; "message"]%string nle_spaces) as [d|e] eqn:Hd;
    [|discriminate Hd].
  destruct (declared_shape_and_window nle_constants
              (bare_env (RM:=unit) tt 3 3 0) _ nle_spaces d 3 Hd
              eq_refl eq_refl eq_refl) as [Hplane _]; [lia|].
  destruct (Hplane "chars_crop"%string grid3 3%nat 3%nat 0 2)
    as (box & win & Hbox & Hshape & Hwin & Hws);
    [right; left|left|reflexivity| |lia|lia|].
  { split; [reflexivity|]. repeat constructor. }
  exists d, box, win. repeat split; try assumption; apply Hws.
Defined.

(** ** The observation dictionary *)



Section ObservationDict.
Context {RM E : Type} `{!NetHackStaircase E}.
Variables (nh : NethackConstants) (to_rgb : ndarray -> ndarray -> ndarray).
Variables (self : MiniHack RM E) (observation : RawObservation).

Local Abbreviation loop := (get_observation_loop nh self observation).
Local Abbreviation kept := (stored nh).
Local Abbreviation entry := (observation_entry self observation).

Lemma stored_dec (key : string) :
  (kept key
   /\ str_in "pixel" key = false
   /\ (key_in key _observation_keys
       || bool_decide (is_Some (funcs_get (MINIHACK_SPACE_FUNCS nh) key))
       = true))
  \/ (~ kept key
      /\ (str_in "pixel" key = true
          \/ (key_in key _observation_keys = false
              /\ bool_decide
                   (is_Some (funcs_get (MINIHACK_SPACE_FUNCS nh) key))
                 = false))).
Proof.
  unfold stored.
  destruct (str_in "pixel" key) eqn:Hp.
  - right. split; [intros [H _]; discriminate H|left; reflexivity].
  - destruct (key_in key _observation_keys) eqn:Hk.
    + left. repeat split. left. reflexivity.
    + destruct (bool_decide _) eqn:Hf.
      * left. apply bool_decide_eq_true in Hf. repeat split. right. exact Hf.
      * right. apply bool_decide_eq_false in Hf. split.
        -- intros [_ [H|H]]; [discriminate H|contradiction].
        -- right. split; reflexivity.
Qed.

Lemma get_observation_step (key : string) (keys : list string)
    (acc : gmap string ndarray) :
  loop (key :: keys) acc
  = if str_in "pixel" key then loop keys acc
    else if key_in key _observation_keys
              || bool_decide
                   (is_Some (funcs_get (MINIHACK_SPACE_FUNCS nh) key))
         then v <- entry key ;; loop keys (<[key := v]> acc)
         else loop keys acc.
Proof.
  cbn [get_observation_loop]. unfold observation_entry.
  destruct (str_in "pixel" key); [reflexivity|].
  destruct (key_in key _observation_keys); [reflexivity|].
  destruct (bool_decide _); reflexivity.
Qed.

Lemma get_observation_skip (key : string) (keys : list string)
    (acc : gmap string ndarray) :
  ~ kept key -> loop (key :: keys) acc = loop keys acc.
Proof.
  intros Hn. rewrite get_observation_step.
  destruct (stored_dec key) as [[Hs _]|[_ [->|[-> ->]]]];
    [contradiction|reflexivity|].
  destruct (str_in "pixel" key); reflexivity.
Qed.

Lemma get_observation_store (key : string) (keys : list string)
    (acc : gmap string ndarray) :
  kept key ->
  loop (key :: keys) acc = (v <- entry key ;; loop keys (<[key := v]> acc)).
Proof.
  intros Hs. rewrite get_observation_step.
  destruct (stored_dec key) as [(_ & -> & ->)|[Hn _]];
    [reflexivity|contradiction].
Qed.

Lemma get_observation_frame (keys : list string) :
  forall acc d k,
    loop keys acc = Ok d -> k ∉ keys -> d !! k = acc !! k.
Proof.
  induction keys as [|key keys IH]; intros acc d k.
  - intros [= <-] _. reflexivity.
  - intros H Hk. apply not_elem_of_cons in Hk as [Hne Hk].
    destruct (stored_dec key) as [[Hs _]|[Hn _]].
    + rewrite (get_observation_store _ _ _ Hs) in H.
      destruct (entry key) as [v|e]; [|discriminate H]. cbn [bind] in H.
      rewrite (IH _ _ _ H Hk). apply lookup_insert_ne. congruence.
    + rewrite (get_observation_skip _ _ _ Hn) in H. exact (IH _ _ _ H Hk).
Qed.

Lemma get_observation_dom (keys : list string) :
  forall acc d,
    loop keys acc = Ok d ->
    forall k,
      is_Some (d !! k) <-> is_Some (acc !! k) \/ (k ∈ keys /\ kept k).
Proof.
  induction keys as [|key keys IH]; intros acc d.
  - intros [= <-] k. split; [tauto|].
    intros [H|[H _]]; [exact H|inversion H].
  - intros H k.
    destruct (stored_dec key) as [[Hs _]|[Hn _]].
    + rewrite (get_observation_store _ _ _ Hs) in H.
      destruct (entry key) as [v|e]; [|discriminate H]. cbn [bind] in H.
      rewrite (IH _ _ H k), lookup_insert_is_Some, elem_of_cons.
      split.
      * intros [[->|[_ Ha]]|[Hk Hst]]; [right|left|right]; auto.
      * intros [Ha|[[->|Hk] Hst]]; auto.
        destruct (decide (key = k)); auto.
    + rewrite (get_observation_skip _ _ _ Hn) in H.
      rewrite (IH _ _ H k), elem_of_cons. split.
      * intros [Ha|[Hk Hst]]; auto.
      * intros [Ha|[[->|Hk] Hst]]; auto. contradiction.
Qed.



End ObservationDict.

Lemma init_obs_keys_elem (keys : list string) (k : string) :
  k ∈ init_obs_keys keys
  <-> k ∈ keys
      \/ ("pixel_crop"%string ∈ keys
          /\ (k = "glyphs_crop"%string \/ k = "chars_crop"%string)).
Proof.
  rewrite init_obs_keys_extra, elem_of_app.
  destruct (key_in "pixel_crop" keys) eqn:Hp.
  - apply key_in_spec in Hp.
    destruct (key_in "glyphs_crop" keys) eqn:Hg;
      destruct (key_in "chars_crop" keys) eqn:Hc;
      try apply key_in_spec in Hg; try apply key_in_spec in Hc;
      cbn [app]; rewrite ?elem_of_cons, ?elem_of_nil; split;
      intros H; decompose [and or] H; subst; auto; tauto.
  - rewrite elem_of_nil. split; [tauto|].
    intros [H|[H _]]; [auto|]. apply key_in_spec in H. congruence.
Qed.


(** X20: why the constructor appends [glyphs_crop] and [chars_crop].  With
    the keys the constructor derives, once the loop over the keys has
    succeeded and the full-screen fields are there when [pixel] is
    requested, [_get_observation] returns: the sources of [pixel_crop] are
    in the dictionary.  With [pixel_crop] among the keys and one of its two
    sources not among them, [_get_observation] never returns. *)
Theorem pixel_crop_sources_stored {RM E : Type} `{!NetHackStaircase E}
    (nh : NethackConstants) (to_rgb : ndarray -> ndarray -> ndarray)
    (self : MiniHack RM E) (observation : RawObservation) :
  (forall user_keys d0,
      get_observation_loop nh self observation (init_obs_keys user_keys) ∅
      = Ok d0 ->
      ("pixel"%string ∈ user_keys ->
       is_Some (raw_arrays observation !! "glyphs"%string)
       /\ is_Some (raw_arrays observation !! "chars"%string)) ->
      exists d,
        _get_observation nh to_rgb self (init_obs_keys user_keys) observation
        = Ok d)
  /\ (forall keys,
         "pixel_crop"%string ∈ keys ->
         "glyphs_crop"%string ∉ keys \/ "chars_crop"%string ∉ keys ->
         exists e,
           _get_observation nh to_rgb self keys observation = Raise e).
Proof.
  split.
  - intros user_keys d0 Hloop Hraw. unfold _get_observation.
    rewrite Hloop. cbn [bind].
    pose proof (get_observation_dom nh self observation _ ∅ d0 Hloop)
      as Hdom0.
    assert (H1 : exists d1,
               (if key_in "pixel" (init_obs_keys user_keys)
                then glyphs <- raw_get observation "glyphs" ;;
                     chars <- raw_get observation "chars" ;;
                     Ok (<["pixel"%string := to_rgb glyphs chars]> d0)
                else Ok d0) = Ok d1
               /\ forall k, is_Some (d0 !! k) -> is_Some (d1 !! k)).
    { destruct (key_in "pixel" (init_obs_keys user_keys)) eqn:Hp;
        [|exists d0; split; [reflexivity|auto]].
      apply key_in_spec, init_obs_keys_elem in Hp
        as [Hp|[_ [Hp|Hp]]]; [|discriminate Hp|discriminate Hp].
      destruct (Hraw Hp) as [[g Hg] [c Hc]].
      unfold raw_get, dict_lookup. cbn [String.eqb Ascii.eqb Bool.eqb].
      rewrite Hg, Hc. cbn [bind]. eexists. split; [reflexivity|].
      intros k Hk. rewrite lookup_insert_is_Some.
      destruct (decide ("pixel"%string = k)); auto. }
    destruct H1 as (d1 & -> & Hkeep). cbn [bind].
    destruct (key_in "pixel_crop" (init_obs_keys user_keys)) eqn:Hp;
      [|exists d1; reflexivity].
    apply key_in_spec, init_obs_keys_elem in Hp
      as [Hp|[_ [Hp|Hp]]]; [|discriminate Hp|discriminate Hp].
    assert (Hg : is_Some (d1 !! "glyphs_crop"%string)).
    { apply Hkeep, Hdom0. right. split.
      - apply init_obs_keys_elem. right. auto.
      - split; [reflexivity|right; eexists; reflexivity]. }
    assert (Hc : is_Some (d1 !! "chars_crop"%string)).
    { apply Hkeep, Hdom0. right. split.
      - apply init_obs_keys_elem. right. auto.
      - split; [reflexivity|right; eexists; reflexivity]. }
    destruct Hg as [g Hg]. destruct Hc as [c Hc].
    unfold dict_lookup. rewrite Hg, Hc. cbn [bind]. eexists. reflexivity.
  - intros keys Hp Hmiss.
    destruct (_get_observation nh to_rgb self keys observation)
      as [d|e] eqn:Hd; [exfalso|exists e; reflexivity].
    unfold _get_observation in Hd.
    destruct (get_observation_loop nh self observation keys ∅)
      as [d0|e] eqn:Hloop; [|discriminate Hd].
    cbn [bind] in Hd.
    assert (Hnone : forall k, k ∉ keys -> d0 !! k = None).
    { intros k Hk.
      rewrite (get_observation_frame nh self observation keys ∅ d0 k Hloop Hk).
      apply lookup_empty. }
    apply key_in_spec in Hp. rewrite Hp in Hd.
    assert (H1 : forall d1,
               (if key_in "pixel" keys
                then glyphs <- raw_get observation "glyphs" ;;
                     chars <- raw_get observation "chars" ;;
                     Ok (<["pixel"%string := to_rgb glyphs chars]> d0)
                else Ok d0) = Ok d1 ->
               forall k, k <> "pixel"%string -> d1 !! k = d0 !! k).
    { intros d1. destruct (key_in "pixel" keys); [|intros [= <-]; reflexivity].
      destruct (raw_get observation "glyphs"); [|discriminate].
      destruct (raw_get observation "chars"); [|discriminate].
      cbn [bind]. intros [= <-] k Hk. apply lookup_insert_ne. congruence. }
    destruct (if key_in "pixel" keys then _ else _) as [d1|e] eqn:Hq;
      [|discriminate Hd].
    cbn [bind] in Hd. unfold dict_lookup in Hd.
    destruct Hmiss as [Hm|Hm].
    + rewrite (H1 d1 eq_refl) in Hd by discriminate.
      rewrite (Hnone _ Hm) in Hd. discriminate Hd.
    + destruct (d1 !! "glyphs_crop"%string); [|discriminate Hd].
      cbn [bind] in Hd.
      rewrite (H1 d1 eq_refl) in Hd by discriminate.
      rewrite (Hnone _ Hm) in Hd. discriminate Hd.
Qed.








Lemma returns_value {A : Type} (r : result A) :
  returns r = true -> exists a, r = Ok a.
Proof. destruct r as [a|e]; [exists a; reflexivity|discriminate]. Qed.


Lemma pixel_crop_sources_stored_witness :
  (exists d,
      _get_observation (NetHackStaircase0:=room_parent) nle_constants flat_rgb
        crop_env (init_obs_keys ["chars"; "pixel_crop"]%string) raw_room
      = Ok d)
  /\ exists e,
       _get_observation (NetHackStaircase0:=room_parent) nle_constants
         flat_rgb crop_env ["chars"; "pixel_crop"]%string raw_room = Raise e.
Proof.
  destruct (pixel_crop_sources_stored (NetHackStaircase0:=room_parent)
              nle_constants flat_rgb crop_env raw_room) as [Hok Hraise].
  split.
  - destruct (returns_value
                (get_observation_loop (NetHackStaircase0:=room_parent)
                   nle_constants crop_env raw_room
                   (init_obs_keys ["chars"; "pixel_crop"]%string) ∅))
      as [d0 Hloop]; [vm_compute; reflexivity|].
    apply (Hok _ d0 Hloop). intros Hp. apply key_in_spec in Hp.
    discriminate Hp.
  - apply Hraise.
    + apply key_in_spec. reflexivity.
    + left. intros Hp. apply key_in_spec in Hp. discriminate Hp.
Defined.

